(** * Orchestra: dispatch, cross-evaluation, extraction, diff and backup engines

    A shallow embedding of the Python sources
    ([dispatcher/parallel_dispatcher.py], [evaluator/cross_evaluator.py],
    [utils/code_parser.py], [utils/diff_generator.py],
    [utils/backup_manager.py]) and the properties proved about them.

    Conventions of the embedding:
    - a Python [str] is the [string] of the bytes of its UTF-8 encoding;
      [len] counts code points; the character classes of [re] and
      [str.isspace] are taken on ASCII;
    - a Python exception is a value of an error type; a function that can
      raise returns a sum;
    - scores are exact rationals ([Q]); the rounding of Python floats is not
      modelled;
    - the file system is a finite map from absolute paths (lists of
      components) to nodes; symbolic links are not modelled. *)

From Stdlib Require Import Ascii String List ZArith QArith Lia Lqa Permutation Sorted.
From stdpp Require Import base option list strings gmap.

Local Open Scope nat_scope.

(* ===================================================================== *)
(** * Python strings *)
(* ===================================================================== *)

Module PyStr.

Definition nl : ascii := "010"%char.
Definition cr : ascii := "013"%char.
Definition tab : ascii := "009"%char.
Definition dquote : ascii := "034"%char.
Definition squote : ascii := "039"%char.

Definition nl_str : string := String nl EmptyString.
Definition tab_str : string := String tab EmptyString.

Definition code (c : ascii) : nat := nat_of_ascii c.

Definition in_range (lo hi : nat) (c : ascii) : bool :=
  (lo <=? code c) && (code c <=? hi).

(** [str.isspace] on one ASCII character: TAB, LF, VT, FF, CR, the four
    separators 0x1c..0x1f and the blank. *)
Definition is_space (c : ascii) : bool :=
  in_range 9 13 c || in_range 28 32 c.

Definition is_upper (c : ascii) : bool := in_range 65 90 c.
Definition is_lower (c : ascii) : bool := in_range 97 122 c.
Definition is_digit (c : ascii) : bool := in_range 48 57 c.
Definition is_alpha (c : ascii) : bool := is_upper c || is_lower c.

Definition lower_char (c : ascii) : ascii :=
  if is_upper c then ascii_of_nat (code c + 32) else c.

Definition eqc (a b : ascii) : bool := Ascii.eqb a b.

Fixpoint lower (s : string) : string :=
  match s with
  | EmptyString => EmptyString
  | String c s' => String (lower_char c) (lower s')
  end.

Definition is_empty (s : string) : bool :=
  match s with EmptyString => true | _ => false end.

(** [len(s)]: the number of code points, which are the bytes of the UTF-8
    encoding that are no continuation bytes (10xxxxxx). *)
Definition is_continuation (c : ascii) : bool := in_range 128 191 c.

Fixpoint py_len (s : string) : nat :=
  match s with
  | EmptyString => 0
  | String c s' => (if is_continuation c then 0 else 1) + py_len s'
  end.

(** What a file opened in text mode gives for its bytes: with universal
    newlines CR LF and a CR alone are read as LF.  [after_cr] says that
    the byte before was a CR. *)
Fixpoint newlines_go (after_cr : bool) (s : string) : string :=
  match s with
  | EmptyString => EmptyString
  | String c s' =>
      if eqc c cr then String nl (newlines_go true s')
      else if eqc c nl then
        if after_cr then newlines_go false s' else String nl (newlines_go false s')
      else String c (newlines_go false s')
  end.

Definition universal_newlines (s : string) : string := newlines_go false s.

(** No CR and no LF in [s]. *)
Fixpoint one_line (s : string) : bool :=
  match s with
  | EmptyString => true
  | String c s' => negb (eqc c cr) && negb (eqc c nl) && one_line s'
  end.

Definition rev (s : string) : string :=
  string_of_list_ascii (List.rev (list_ascii_of_string s)).

Fixpoint lstrip (s : string) : string :=
  match s with
  | String c s' => if is_space c then lstrip s' else s
  | EmptyString => EmptyString
  end.

Definition rstrip (s : string) : string := rev (lstrip (rev s)).

(** [s.strip()] *)
Definition strip (s : string) : string := rstrip (lstrip s).

(** [s.startswith(p)] *)
Definition startswith (p s : string) : bool := String.prefix p s.

(** [s.find(sub)] : the index of the first occurrence. *)
Fixpoint find (sub s : string) : option nat :=
  if String.prefix sub s then Some 0
  else match s with
       | String _ s' => option_map S (find sub s')
       | EmptyString => None
       end.

(** [sub in s] *)
Definition contains (sub s : string) : bool :=
  match find sub s with Some _ => true | None => false end.

(** [s.split(sep)[0]] for a non-empty [sep]: the text before the first
    occurrence of [sep], the whole of [s] when there is none. *)
Fixpoint before_first (sep s : string) : string :=
  if String.prefix sep s then EmptyString
  else match s with
       | String c s' => String c (before_first sep s')
       | EmptyString => EmptyString
       end.

(** [s.split(c)] for a one-character separator. *)
Fixpoint split_char (c : ascii) (s : string) : list string :=
  match s with
  | EmptyString => [EmptyString]
  | String x s' =>
      if eqc x c then EmptyString :: split_char c s'
      else match split_char c s' with
           | h :: t => String x h :: t
           | [] => [String x EmptyString]
           end
  end.

(** [sep.join(l)] *)
Fixpoint join (sep : string) (l : list string) : string :=
  match l with
  | [] => EmptyString
  | [x] => x
  | x :: rest => x +:+ sep +:+ join sep rest
  end.

(** The one-character line boundaries of [str.splitlines] other than CR:
    LF, VT, FF, FS, GS, RS. *)
Definition is_line_break (c : ascii) : bool :=
  in_range 10 12 c || in_range 28 30 c.

(** [s.splitlines()].  CR LF counts as one boundary.  The boundaries
    U+0085, U+2028 and U+2029 are recognised in their UTF-8 encoding
    (C2 85, E2 80 A8, E2 80 A9). *)
Fixpoint splitlines_go (s : string) (cur : list ascii) : list string :=
  let flush := string_of_list_ascii (List.rev cur) in
  match s with
  | EmptyString => match cur with [] => [] | _ => [flush] end
  | String c s' =>
      if eqc c cr then
        match s' with
        | String c1 s'' =>
            if eqc c1 nl then flush :: splitlines_go s'' []
            else flush :: splitlines_go s' []
        | EmptyString => [flush]
        end
      else if is_line_break c then flush :: splitlines_go s' []
      else if (code c =? 194) then
        match s' with
        | String c1 s'' =>
            if code c1 =? 133 then flush :: splitlines_go s'' []
            else splitlines_go s' (c :: cur)
        | EmptyString => splitlines_go s' (c :: cur)
        end
      else if (code c =? 226) then
        match s' with
        | String c1 (String c2 s''') =>
            if (code c1 =? 128) && ((code c2 =? 168) || (code c2 =? 169))
            then flush :: splitlines_go s''' []
            else splitlines_go s' (c :: cur)
        | _ => splitlines_go s' (c :: cur)
        end
      else splitlines_go s' (c :: cur)
  end.

Definition splitlines (s : string) : list string := splitlines_go s [].

(** [s.splitlines(keepends=True)]: the same boundaries, each line keeping
    its line break. *)
Fixpoint splitlines_keep_go (s : string) (cur : list ascii) : list string :=
  let flush (brk : list ascii) := string_of_list_ascii (List.rev cur ++ brk) in
  match s with
  | EmptyString => match cur with [] => [] | _ => [flush []] end
  | String c s' =>
      if eqc c cr then
        match s' with
        | String c1 s'' =>
            if eqc c1 nl then flush [c; c1] :: splitlines_keep_go s'' []
            else flush [c] :: splitlines_keep_go s' []
        | EmptyString => [flush [c]]
        end
      else if is_line_break c then flush [c] :: splitlines_keep_go s' []
      else if (code c =? 194) then
        match s' with
        | String c1 s'' =>
            if code c1 =? 133 then flush [c; c1] :: splitlines_keep_go s'' []
            else splitlines_keep_go s' (c :: cur)
        | EmptyString => splitlines_keep_go s' (c :: cur)
        end
      else if (code c =? 226) then
        match s' with
        | String c1 (String c2 s''') =>
            if (code c1 =? 128) && ((code c2 =? 168) || (code c2 =? 169))
            then flush [c; c1; c2] :: splitlines_keep_go s''' []
            else splitlines_keep_go s' (c :: cur)
        | _ => splitlines_keep_go s' (c :: cur)
        end
      else splitlines_keep_go s' (c :: cur)
  end.

Definition splitlines_keep (s : string) : list string := splitlines_keep_go s [].

(** [''.join(l)] *)
Fixpoint concat_str (l : list string) : string :=
  match l with
  | [] => EmptyString
  | x :: rest => x +:+ concat_str rest
  end.

(** The lines of a text that is entered with the characters [cur] pending
    (latest first): they go in front of its first line. *)
Definition glue (cur : list ascii) (lines : list string) : list string :=
  match lines with
  | [] => match cur with [] => [] | _ => [string_of_list_ascii (List.rev cur)] end
  | h :: t => (string_of_list_ascii (List.rev cur) +:+ h) :: t
  end.

(** [str(n)] for a natural number. *)
Definition digit_char (d : nat) : ascii := ascii_of_nat (48 + d).

Fixpoint str_nat_go (fuel n : nat) (acc : string) : string :=
  match fuel with
  | 0 => acc
  | S fuel' =>
      let acc' := String (digit_char (n mod 10)) acc in
      if n / 10 =? 0 then acc' else str_nat_go fuel' (n / 10) acc'
  end.

Definition str_nat (n : nat) : string := str_nat_go (S n) n EmptyString.

End PyStr.

(* ===================================================================== *)
(** * Python exceptions and results *)
(* ===================================================================== *)

Module Py.

(** The exception classes the modelled code can meet.  All of them are
    subclasses of [Exception]. *)
Inductive exn : Type :=
| ValueError (msg : string)
| FileNotFoundError
| FileExistsError
| NotADirectoryError
| IsADirectoryError
| SameFileError
| JSONDecodeError
| TypeError (msg : string)
| RuntimeError (msg : string).

(** The outcome of a call that can raise. *)
Inductive result (A : Type) : Type :=
| Ok (a : A)
| Raise (e : exn).

Arguments Ok {A} a.
Arguments Raise {A} e.

Definition bind {A B : Type} (r : result A) (f : A -> result B) : result B :=
  match r with
  | Ok a => f a
  | Raise e => Raise e
  end.

Definition is_ok {A : Type} (r : result A) : bool :=
  match r with Ok _ => true | Raise _ => false end.

(** The truth value of an [Optional[str]]: [None] and the empty string are
    false. *)
Definition truthy (o : option string) : bool :=
  match o with
  | Some s => negb (PyStr.is_empty s)
  | None => false
  end.

End Py.

Notation "'let*' x ':=' r 'in' k" := (Py.bind r (fun x => k))
  (at level 10, x name, r at level 100, k at level 200).

(* ===================================================================== *)
(** * The fragment of [re] used by the parser *)
(* ===================================================================== *)

Module Re.
Import PyStr.

(** Regular expressions in compiled form.  Repetition is only ever applied
    to a one-character class in the patterns of the program, so [Star] and
    [StarLazy] take a class. *)
Inductive regex : Type :=
| Eps
| Cls (p : ascii -> bool)
| Seq (r1 r2 : regex)
| Alt (r1 r2 : regex)
| Star (p : ascii -> bool)
| StarLazy (p : ascii -> bool)
| Grp (n : nat) (r : regex)
| Bol.

(** Matcher state: the position in the subject, the character before it
    (for [^] under MULTILINE) and the spans of the groups closed so far. *)
Record mstate : Type := MState {
  pos : nat;
  prev : option ascii;
  caps : list (nat * (nat * nat))
}.

Definition step (c : ascii) (st : mstate) : mstate :=
  MState (S (pos st)) (Some c) (caps st).

Definition cont : Type := string -> mstate -> option mstate.

Fixpoint star_greedy (p : ascii -> bool) (rest : string) (st : mstate)
    (k : cont) : option mstate :=
  match rest with
  | String c rest' =>
      if p c then
        match star_greedy p rest' (step c st) k with
        | Some r => Some r
        | None => k rest st
        end
      else k rest st
  | EmptyString => k rest st
  end.

Fixpoint star_lazy (p : ascii -> bool) (rest : string) (st : mstate)
    (k : cont) : option mstate :=
  match k rest st with
  | Some r => Some r
  | None =>
      match rest with
      | String c rest' => if p c then star_lazy p rest' (step c st) k else None
      | EmptyString => None
      end
  end.

(** Backtracking matcher in continuation-passing style: alternatives are
    tried left to right, a greedy star tries the longest run first, a lazy
    star the shortest. *)
Fixpoint run (r : regex) (rest : string) (st : mstate) (k : cont)
    : option mstate :=
  match r with
  | Eps => k rest st
  | Cls p =>
      match rest with
      | String c rest' => if p c then k rest' (step c st) else None
      | EmptyString => None
      end
  | Seq a b => run a rest st (fun rest' st' => run b rest' st' k)
  | Alt a b =>
      match run a rest st k with
      | Some x => Some x
      | None => run b rest st k
      end
  | Star p => star_greedy p rest st k
  | StarLazy p => star_lazy p rest st k
  | Grp n a =>
      run a rest st (fun rest' st' =>
        k rest' (MState (pos st') (prev st') ((n, (pos st, pos st')) :: caps st')))
  | Bol =>
      match prev st with
      | None => k rest st
      | Some c => if eqc c nl then k rest st else None
      end
  end.

(** A match object: its span and the spans of its groups. *)
Record rmatch : Type := RMatch {
  m_start : nat;
  m_end : nat;
  m_caps : list (nat * (nat * nat))
}.

Fixpoint span_of (n : nat) (l : list (nat * (nat * nat))) : option (nat * nat) :=
  match l with
  | [] => None
  | (i, sp) :: l' => if i =? n then Some sp else span_of n l'
  end.

(** [m.group(n)] on the subject [s]; [None] when the group took no part. *)
Definition group (s : string) (m : rmatch) (n : nat) : option string :=
  match span_of n (m_caps m) with
  | Some (a, b) => Some (String.substring a (b - a) s)
  | None => None
  end.

(** What [findall] and the conditionals of the program see of a group: the
    empty string when it took no part. *)
Definition group_str (s : string) (m : rmatch) (n : nat) : string :=
  match group s m n with Some g => g | None => EmptyString end.

Definition match_at (r : regex) (rest : string) (p : nat) (pv : option ascii)
    : option mstate :=
  run r rest (MState p pv []) (fun _ st => Some st).

(** Left-to-right scan for non-overlapping matches.  [skip] counts the
    characters of the last match still to be stepped over; after an empty
    match the scan moves on by one character. *)
Fixpoint scan (r : regex) (rest : string) (p : nat) (pv : option ascii)
    (skip : nat) {struct rest} : list rmatch :=
  match skip with
  | S k =>
      match rest with
      | String c rest' => scan r rest' (S p) (Some c) k
      | EmptyString => []
      end
  | 0 =>
      match match_at r rest p pv with
      | Some st =>
          RMatch p (pos st) (caps st) ::
          match rest with
          | String c rest' => scan r rest' (S p) (Some c) (pos st - p - 1)
          | EmptyString => []
          end
      | None =>
          match rest with
          | String c rest' => scan r rest' (S p) (Some c) 0
          | EmptyString => []
          end
      end
  end.

(** [re.finditer(r, s)] *)
Definition finditer (r : regex) (s : string) : list rmatch := scan r s 0 None 0.

(** [re.search(r, s)] *)
Definition search (r : regex) (s : string) : option rmatch :=
  match finditer r s with
  | m :: _ => Some m
  | [] => None
  end.

(** [re.findall(r, s)] for a pattern with exactly one group. *)
Definition findall (r : regex) (s : string) : list string :=
  map (fun m => group_str s m 1) (finditer r s).

(** ** Building blocks *)

Definition chr (c : ascii) : regex := Cls (eqc c).

(** A literal character under IGNORECASE. *)
Definition chr_ci (c : ascii) : regex :=
  Cls (fun x => eqc (lower_char x) (lower_char c)).

Fixpoint lit (s : string) : regex :=
  match s with
  | EmptyString => Eps
  | String c EmptyString => chr c
  | String c s' => Seq (chr c) (lit s')
  end.

Fixpoint lit_ci (s : string) : regex :=
  match s with
  | EmptyString => Eps
  | String c EmptyString => chr_ci c
  | String c s' => Seq (chr_ci c) (lit_ci s')
  end.

(** [c+] and [r?] (both greedy). *)
Definition plus (p : ascii -> bool) : regex := Seq (Cls p) (Star p).
Definition opt (r : regex) : regex := Alt r Eps.

Fixpoint seqs (l : list regex) : regex :=
  match l with
  | [] => Eps
  | [r] => r
  | r :: l' => Seq r (seqs l')
  end.

Fixpoint alts (l : list regex) : regex :=
  match l with
  | [] => Eps
  | [r] => r
  | r :: l' => Alt r (alts l')
  end.

(** Character classes. *)
Definition any_char : ascii -> bool := fun _ => true.
Definition word_char (c : ascii) : bool := is_alpha c || is_digit c || eqc c "_".
Definition one_of (l : list ascii) (c : ascii) : bool := existsb (eqc c) l.
Definition none_of (p : ascii -> bool) (c : ascii) : bool := negb (p c).

End Re.

(* ===================================================================== *)
(** * utils/code_parser.py *)
(* ===================================================================== *)

Module CodeParser.
Import PyStr Re Py.

Inductive OperationType : Type := CREATE | MODIFY | DELETE | UNKNOWN.

Record FileOperation : Type := mkFileOperation {
  op_type : OperationType;
  file_path : string;
  content : option string;
  line_start : option Z;
  line_end : option Z;
  language : option string
}.

(** ** FILE_PATTERNS, compiled under [re.MULTILINE | re.IGNORECASE] *)

Definition bt : ascii := "`"%char.
Definition az_ci : ascii -> bool := is_alpha.
Definition dot_ext : regex := Seq (chr ".") (plus az_ci).

(** The UTF-8 bytes of U+1F4C4 and U+2192, the two non-ASCII markers. *)
Definition marker_page : string :=
  String "240" (String "159" (String "147" (String "132" EmptyString))).
Definition marker_arrow : string :=
  String "226" (String "134" (String "146" EmptyString)).

(** [(?:File:|<page>|<arrow>)\s*([^\s:]+\.[a-z]+)] *)
Definition pat_marker : regex :=
  seqs [ alts [lit_ci "File:"; lit marker_page; lit marker_arrow];
         Star is_space;
         Grp 1 (Seq (plus (none_of (fun c => is_space c || eqc c ":"))) dot_ext) ].

Definition quote_class : ascii -> bool := one_of [bt; dquote; squote].

(** [(?:create|modify|delete|update)\s+(?:file\s+)?Q?([^\sQ]+\.[a-z]+)Q?]
    where Q is the class of the three quote characters (backtick, double
    quote, single quote). *)
Definition pat_verb : regex :=
  seqs [ alts [lit_ci "create"; lit_ci "modify"; lit_ci "delete"; lit_ci "update"];
         plus is_space;
         opt (Seq (lit_ci "file") (plus is_space));
         opt (Cls quote_class);
         Grp 1 (Seq (plus (none_of (fun c => is_space c || quote_class c))) dot_ext);
         opt (Cls quote_class) ].

(** [(?:in\s+)?([a-zA-Z]:[/\\][^\s]+\.[a-z]+)] *)
Definition pat_windows : regex :=
  seqs [ opt (Seq (lit_ci "in") (plus is_space));
         Grp 1 (seqs [ Cls is_alpha; chr ":"; Cls (one_of ["/"%char; "\"%char]);
                       plus (none_of is_space); dot_ext ]) ].

(** [([~/][^\s]+\.[a-z]+)] *)
Definition pat_unix : regex :=
  Grp 1 (seqs [ Cls (one_of ["~"%char; "/"%char]); plus (none_of is_space); dot_ext ]).

(** [(?:^|\n)\s*#?\s*([a-zA-Z_][a-zA-Z0-9_]*\.[a-z]+)] *)
Definition pat_bare : regex :=
  seqs [ Alt Bol (chr nl);
         Star is_space; opt (chr "#"); Star is_space;
         Grp 1 (seqs [ Cls (fun c => is_alpha c || eqc c "_");
                       Star word_char; dot_ext ]) ].

Definition FILE_PATTERNS : list regex :=
  [pat_marker; pat_verb; pat_windows; pat_unix; pat_bare].

(** The fence pattern of [_extract_code_blocks], under [re.DOTALL]:
    three backticks, group 1 (a greedy run of word characters), a newline,
    group 2 (a lazy run of any characters), three backticks. *)
Definition fence : string := String bt (String bt (String bt EmptyString)).

Definition pat_fence : regex :=
  seqs [ lit fence; Grp 1 (Star word_char); chr nl;
         Grp 2 (StarLazy any_char); lit fence ].

(** ** _extract_code_blocks *)

Definition fenced_blocks (text : string) : list (string * string) :=
  map (fun m =>
         let g1 := group_str text m 1 in
         let language := if is_empty g1 then "text" else g1 in
         (language, strip (group_str text m 2)))
      (finditer pat_fence text).

(** State of the indentation scan: the blocks closed so far, the lines of
    the open block and the flag [in_code_block]. *)
Definition indent_step (st : list (string * string) * list string * bool)
    (line : string) : list (string * string) * list string * bool :=
  let '(blocks, current_block, in_code_block) := st in
  if startswith "    " line || startswith tab_str line then
    (blocks, current_block ++ [line], true)
  else if in_code_block then
    let current_block' := current_block ++ [line] in
    if is_empty (strip line) then
      (blocks ++ [("text", join nl_str current_block')], [], false)
    else (blocks, current_block', in_code_block)
  else st.

Definition indented_blocks (text : string) : list (string * string) :=
  let '(blocks, current_block, _) :=
    fold_left indent_step (split_char nl text) ([], [], false) in
  match current_block with
  | [] => blocks
  | _ => blocks ++ [("text", join nl_str current_block)]
  end.

Definition _extract_code_blocks (text : string) : list (string * string) :=
  match fenced_blocks text with
  | [] => indented_blocks text
  | blocks => blocks
  end.

(** ** _extract_file_path *)

Definition last_str (l : list string) : string := List.last l EmptyString.

Fixpoint extract_with (patterns : list regex) (text : string) : option string :=
  match patterns with
  | [] => None
  | pattern :: rest =>
      match findall pattern text with
      | [] => extract_with rest text
      | matches => Some (strip (last_str matches))
      end
  end.

Definition _extract_file_path (text : string) : option string :=
  extract_with FILE_PATTERNS text.

(** ** _infer_file_path_from_code *)

(** [^class\s+(\w+)] under MULTILINE, and [class\s+(\w+)]. *)
Definition pat_py_class : regex :=
  seqs [Bol; lit "class"; plus is_space; Grp 1 (plus word_char)].
Definition pat_js_class : regex :=
  seqs [lit "class"; plus is_space; Grp 1 (plus word_char)].

Definition _infer_file_path_from_code (code language : string) : option string :=
  if String.eqb language "python" then
    match search pat_py_class code with
    | Some class_match => Some (lower (group_str code class_match 1) +:+ ".py")
    | None => None
    end
  else if String.eqb language "javascript" || String.eqb language "typescript" then
    match search pat_js_class code with
    | Some class_match => Some (lower (group_str code class_match 1) +:+ ".js")
    | None => None
    end
  else None.

(** ** _generate_default_filename *)

Definition extensions : list (string * string) :=
  [ ("python", ".py"); ("javascript", ".js"); ("typescript", ".ts");
    ("java", ".java"); ("go", ".go"); ("rust", ".rs"); ("c", ".c");
    ("cpp", ".cpp"); ("html", ".html"); ("css", ".css"); ("json", ".json");
    ("yaml", ".yaml"); ("yml", ".yml") ].

Fixpoint dict_get (d : list (string * string)) (k default : string) : string :=
  match d with
  | [] => default
  | (k', v) :: d' => if String.eqb k' k then v else dict_get d' k default
  end.

Definition _generate_default_filename (code language : string) (index : nat)
    : string :=
  let ext := dict_get extensions language ".txt" in
  let low := lower code in
  if contains "binary_search" low || contains "binary search" low then
    "binary_search" +:+ ext
  else if contains "main" low then "main" +:+ ext
  else if contains "utils" low then "utils" +:+ ext
  else if contains "test" low then "test" +:+ ext
  else "code_" +:+ str_nat (index + 1) +:+ ext.

(** ** _detect_operation_type *)

Definition any_in (words : list string) (text : string) : bool :=
  existsb (fun word => contains word text) words.

Definition _detect_operation_type (text_before file_path code : string)
    : OperationType :=
  let text_lower := lower text_before in
  if any_in ["create"; "new file"; "add file"; "write to"] text_lower then CREATE
  else if any_in ["modify"; "update"; "change"; "edit"; "refactor"] text_lower then MODIFY
  else if any_in ["delete"; "remove"] text_lower then DELETE
  else if any_in ["implement"; "create"; "add"; "write"] text_lower then CREATE
  else CREATE.

(** ** _detect_operation_for_block *)

(** [full_response.split(code_block)[0]] if [code_block in full_response],
    else the empty string; [str.split] raises [ValueError] on an empty separator, and the
    empty string is in every string. *)
Definition text_before_block (full_response code_block : string)
    : result string :=
  if contains code_block full_response then
    if is_empty code_block then Raise (ValueError "empty separator")
    else Ok (before_first code_block full_response)
  else Ok EmptyString.

Definition choose_path (text_before code_block language : string)
    (block_index : nat) : string :=
  let file_path := _extract_file_path text_before in
  let file_path :=
    if truthy file_path then file_path
    else _infer_file_path_from_code code_block language in
  match file_path with
  | Some p => if is_empty p
              then _generate_default_filename code_block language block_index
              else p
  | None => _generate_default_filename code_block language block_index
  end.

Definition _detect_operation_for_block (full_response code_block : string)
    (block_index : nat) (language : string) : result FileOperation :=
  let* text_before := text_before_block full_response code_block in
  let file_path := choose_path text_before code_block language block_index in
  let op_type := _detect_operation_type text_before file_path code_block in
  Ok (mkFileOperation op_type file_path (Some code_block) None None
        (if String.eqb language "text" then None else Some language)).

(** ** parse_response *)

Fixpoint parse_blocks (response_text : string) (i : nat)
    (code_blocks : list (string * string)) : result (list FileOperation) :=
  match code_blocks with
  | [] => Ok []
  | (language, code) :: rest =>
      let* op := _detect_operation_for_block response_text code i language in
      let* ops := parse_blocks response_text (S i) rest in
      Ok (op :: ops)
  end.

Definition parse_response (response_text : string) : result (list FileOperation) :=
  parse_blocks response_text 0 (_extract_code_blocks response_text).

(** ** Mentions, for the statement that the most proximate mention wins *)

(** Every match of every pattern of FILE_PATTERNS in [text]. *)
Definition mentions (text : string) : list rmatch :=
  concat (map (fun pattern => finditer pattern text) FILE_PATTERNS).

(** The mention that starts last in the text. *)
Fixpoint latest (l : list rmatch) : option rmatch :=
  match l with
  | [] => None
  | m :: l' =>
      match latest l' with
      | Some m' => if m_start m' <? m_start m then Some m else Some m'
      | None => Some m
      end
  end.

Definition last_mention_path (text : string) : option string :=
  match latest (mentions text) with
  | Some m => Some (strip (group_str text m 1))
  | None => None
  end.

End CodeParser.

(* ===================================================================== *)
(** * pathlib paths and the file system *)
(* ===================================================================== *)

Module Fs.
Import PyStr Py.

(** ** [pathlib.PurePosixPath] *)

Record path : Type := Path {
  absolute : bool;
  parts : list string
}.

Definition slash : ascii := "/"%char.

Definition keep_part (c : string) : bool :=
  negb (is_empty c) && negb (String.eqb c ".").

(** [Path(s)]: empty components and [.] components are dropped, [..] is
    kept. *)
Definition parse (s : string) : path :=
  Path (startswith "/" s) (List.filter keep_part (split_char slash s)).

(** A plain component: not empty, not [.], free of slashes. *)
Fixpoint no_slash (s : string) : bool :=
  match s with
  | EmptyString => true
  | String a s' => negb (eqc a slash) && no_slash s'
  end.

Definition component (c : string) : bool := keep_part c && no_slash c.

(** [a / b]: an absolute right operand replaces the left one. *)
Definition joinpath (a b : path) : path :=
  if absolute b then b else Path (absolute a) (parts a ++ parts b).

Definition parent (p : path) : path :=
  Path (absolute p) (removelast (parts p)).

(** [p.name], the last component. *)
Definition name_of (p : path) : string := List.last (parts p) EmptyString.

(** [str(p)] *)
Definition str (p : path) : string :=
  if absolute p then "/" +:+ join "/" (parts p)
  else match parts p with
       | [] => "."
       | _ => join "/" (parts p)
       end.

Fixpoint strip_prefix (pre l : list string) : option (list string) :=
  match pre, l with
  | [], _ => Some l
  | a :: pre', b :: l' => if String.eqb a b then strip_prefix pre' l' else None
  | _ :: _, [] => None
  end.

(** [p.relative_to(base)], a comparison of components. *)
Definition relative_to (p base : path) : result path :=
  if Bool.eqb (absolute p) (absolute base) then
    match strip_prefix (parts base) (parts p) with
    | Some rest => Ok (Path false rest)
    | None => Raise (ValueError "not in the subpath")
    end
  else Raise (ValueError "not in the subpath").

(** ** The file system *)

Inductive node : Type :=
| File (data : string)
| Dir.

(** A key is the list of components of a resolved absolute path; the root
    is the empty list and is always a directory. *)
Abbreviation key := (list string).
Abbreviation FS := (gmap (list string) node).

Definition node_at (fs : FS) (k : key) : option node :=
  match k with
  | [] => Some Dir
  | _ => fs !! k
  end.

(** Path resolution: every component before the last must name a
    directory; [..] steps to the parent. *)
Fixpoint walk (fs : FS) (cur : key) (comps : list string) : result key :=
  match comps with
  | [] => Ok cur
  | c :: rest =>
      match node_at fs cur with
      | Some Dir =>
          if String.eqb c ".." then walk fs (removelast cur) rest
          else walk fs (cur ++ [c]) rest
      | Some (File _) => Raise NotADirectoryError
      | None => Raise FileNotFoundError
      end
  end.

Definition resolve (fs : FS) (p : path) : result key := walk fs [] (parts p).

(** ** File-system actions: state that survives an exception *)

Definition M (A : Type) : Type := FS -> result A * FS.

Definition ret {A : Type} (a : A) : M A := fun fs => (Ok a, fs).
Definition raise {A : Type} (e : exn) : M A := fun fs => (Raise e, fs).

Definition mbind {A B : Type} (m : M A) (f : A -> M B) : M B :=
  fun fs =>
    match m fs with
    | (Ok a, fs') => f a fs'
    | (Raise e, fs') => (Raise e, fs')
    end.

(** [try: m  except Exception as e: h e] *)
Definition try_except {A : Type} (m : M A) (h : exn -> M A) : M A :=
  fun fs =>
    match m fs with
    | (Ok a, fs') => (Ok a, fs')
    | (Raise e, fs') => h e fs'
    end.

(** A read-only query that can raise. *)
Definition query {A : Type} (f : FS -> result A) : M A := fun fs => (f fs, fs).

(** A pure read. *)
Definition gets {A : Type} (f : FS -> A) : M A := fun fs => (Ok (f fs), fs).

End Fs.

Notation "'let!' x ':=' m 'in' k" := (Fs.mbind m (fun x => k))
  (at level 10, x name, m at level 100, k at level 200).
Notation "m ';;' k" := (Fs.mbind m (fun _ => k))
  (at level 100, k at level 200, right associativity, only parsing).

Module FsOps.
Import PyStr Py Fs.

(** [os.stat] *)
Definition stat (p : path) (fs : FS) : result node :=
  let* k := resolve fs p in
  match node_at fs k with
  | Some n => Ok n
  | None => Raise FileNotFoundError
  end.

(** [Path.exists()] *)
Definition exists_ (p : path) (fs : FS) : bool := is_ok (stat p fs).

(** [Path.is_dir()] *)
Definition is_dir (p : path) (fs : FS) : bool :=
  match stat p fs with
  | Ok Dir => true
  | _ => false
  end.

(** [os.mkdir]; [resolve] has already found the parent to be a
    directory. *)
Definition os_mkdir (p : path) : M unit := fun fs =>
  match resolve fs p with
  | Raise e => (Raise e, fs)
  | Ok k =>
      match node_at fs k with
      | Some _ => (Raise FileExistsError, fs)
      | None => (Ok tt, <[k := Dir]> fs)
      end
  end.

Definition is_not_found (e : exn) : bool :=
  match e with FileNotFoundError => true | _ => false end.

(** [Path.mkdir(parents=False, exist_ok=True)] *)
Definition mkdir_exist_ok (p : path) : M unit :=
  try_except (os_mkdir p) (fun e =>
    if is_not_found e then raise e
    else let! d := gets (is_dir p) in
         if d then ret tt else raise e).

(** [Path.mkdir(parents=True, exist_ok=True)], as pathlib does it: try
    [os.mkdir]; on [FileNotFoundError] make the parent first and try again;
    on another [OSError] succeed when the path is a directory. *)
Fixpoint mkdir_parents_go (fuel : nat) (p : path) : M unit :=
  try_except (os_mkdir p) (fun e =>
    if is_not_found e then
      match fuel, parts p with
      | S fuel', _ :: _ => mkdir_parents_go fuel' (parent p) ;; mkdir_exist_ok p
      | _, _ => raise e
      end
    else let! d := gets (is_dir p) in
         if d then ret tt else raise e).

Definition mkdir_parents (p : path) : M unit :=
  mkdir_parents_go (List.length (parts p)) p.

(** [Path.write_text(data)] *)
Definition write_text (p : path) (data : string) : M unit := fun fs =>
  match resolve fs p with
  | Raise e => (Raise e, fs)
  | Ok k =>
      match node_at fs k with
      | Some Dir => (Raise IsADirectoryError, fs)
      | _ => (Ok tt, <[k := File data]> fs)
      end
  end.

(** [Path.read_bytes()], and the reading [shutil] does: the bytes as they
    are. *)
Definition read_bytes (p : path) : M string := query (fun fs =>
  let* n := stat p fs in
  match n with
  | File data => Ok data
  | Dir => Raise IsADirectoryError
  end).

(** [Path.read_text()]: the file is opened in text mode, with universal
    newlines.  ([Path.write_text] writes LF as it is, the line separator
    of a POSIX system.) *)
Definition read_text (p : path) : M string :=
  let! data := read_bytes p in ret (universal_newlines data).

(** [Path.unlink()] *)
Definition unlink (p : path) : M unit := fun fs =>
  match resolve fs p with
  | Raise e => (Raise e, fs)
  | Ok k =>
      match node_at fs k with
      | Some (File _) => (Ok tt, delete k fs)
      | Some Dir => (Raise IsADirectoryError, fs)
      | None => (Raise FileNotFoundError, fs)
      end
  end.

(** [os.path.samefile], with a failing [stat] read as [False] as
    [shutil._samefile] does. *)
Definition samefile (a b : path) (fs : FS) : bool :=
  match resolve fs a, resolve fs b with
  | Ok ka, Ok kb =>
      match node_at fs ka, node_at fs kb with
      | Some _, Some _ => bool_decide (ka = kb)
      | _, _ => false
      end
  | _, _ => false
  end.

Definition basename (p : path) : path :=
  Path false (match List.last (parts p) EmptyString with
              | EmptyString => []
              | n => [n]
              end).

(** [shutil.copy2(src, dst)]: a directory [dst] receives the file under the
    base name of [src]; copying a file onto itself raises. *)
Definition copy2 (src dst : path) : M unit :=
  let! d := gets (is_dir dst) in
  let dst := if d then joinpath dst (basename src) else dst in
  let! same := gets (samefile src dst) in
  if same then raise SameFileError
  else let! data := read_bytes src in write_text dst data.

(** [p.stat().st_size]; the size of a directory entry is not modelled and
    reads as 0. *)
Definition st_size (p : path) : M nat := query (fun fs =>
  let* n := stat p fs in
  match n with
  | File data => Ok (String.length data)
  | Dir => Ok 0
  end).

(** [shutil.rmtree(p)]: the directory and all that lies below it go; a
    path that is no directory raises.  The root has no entry of its own in
    the map: removing it empties the tree. *)
Definition rmtree (p : path) : M unit := fun fs =>
  match resolve fs p with
  | Raise e => (Raise e, fs)
  | Ok k =>
      match node_at fs k with
      | Some Dir => (Ok tt, filter (fun entry => ~ k `prefix_of` entry.1) fs)
      | Some (File _) => (Raise NotADirectoryError, fs)
      | None => (Raise FileNotFoundError, fs)
      end
  end.

(** ** Vocabulary of the statements *)

(** [fs'] is [fs] with some directories added. *)
Definition grows (fs fs' : FS) : Prop :=
  forall k, fs' !! k = fs !! k \/ (fs !! k = None /\ fs' !! k = Some Dir).

(** Every directory of [fs] is a directory of [fs']. *)
Definition keeps_dirs (fs fs' : FS) : Prop :=
  forall k, node_at fs k = Some Dir -> node_at fs' k = Some Dir.

(** Nothing of [fs] is gone in [fs']: a directory is still a directory and
    a regular file is still a regular file, whatever its content. *)
Definition keeps_kinds (fs fs' : FS) : Prop :=
  forall k,
    match fs !! k with
    | Some Dir => fs' !! k = Some Dir
    | Some (File _) => exists data, fs' !! k = Some (File data)
    | None => True
    end.

(** No component is [..]. *)
Definition clean (k : key) : Prop := Forall (fun c => c <> "..") k.

(** No regular file stands at [k]. *)
Definition no_file_at (fs : FS) (k : key) : Prop :=
  forall data, node_at fs k <> Some (File data).

(** The way to [k] is free: the path is clean and none of its proper
    ancestors is a regular file (each is a directory or missing). *)
Definition free_way (fs : FS) (k : key) : Prop :=
  clean k /\ forall q, q `prefix_of` k -> q <> k -> no_file_at fs q.

End FsOps.

(* ===================================================================== *)
(** * utils/diff_generator.py *)
(* ===================================================================== *)

Module DiffGenerator.
Import PyStr Py Fs FsOps CodeParser.

(** The [stats] dictionary of a diff. *)
Record Stats : Type := mkStats {
  old_lines : Z;
  new_lines : Z;
  lines_added : Z;
  lines_removed : Z;
  chars_added : Z;
  chars_removed : Z
}.

Record FileDiff : Type := mkFileDiff {
  operation : OperationType;
  file_path : string;
  old_content : option string;
  new_content : option string;
  unified_diff : string;
  stats : Stats
}.

(** [content.splitlines() if content else []] *)
Definition lines_of (content : option string) : list string :=
  if truthy content then
    match content with Some s => splitlines s | None => [] end
  else [].

(** [len(content) if content else 0] *)
Definition chars_of (content : option string) : Z :=
  if truthy content then
    match content with Some s => Z.of_nat (py_len s) | None => 0%Z end
  else 0%Z.

Definition len {A : Type} (l : list A) : Z := Z.of_nat (List.length l).

Definition _calculate_stats (old_content new_content : option string) : Stats :=
  let old_lines := lines_of old_content in
  let new_lines := lines_of new_content in
  mkStats (len old_lines) (len new_lines)
          (Z.max 0 (len new_lines - len old_lines))
          (Z.max 0 (len old_lines - len new_lines))
          (chars_of new_content) (chars_of old_content).

(** [content.splitlines(keepends=True) if content else []] *)
Definition keep_lines_of (content : option string) : list string :=
  if truthy content then
    match content with Some s => splitlines_keep s | None => [] end
  else [].

(** [f"{sign}{line}" if not line.startswith(sign) else line] *)
Definition mark (sign : string) (line : string) : string :=
  if startswith sign line then line else sign +:+ line.

Section WithDifflib.

(** [list(difflib.unified_diff(a, b, fromfile=f, tofile=t, lineterm=""))] *)
Context (difflib_unified_diff :
           list string -> list string -> string -> string -> list string).

(** [_create_unified_diff].  The last branch serves every operation type
    that is neither CREATE nor DELETE. *)
Definition _create_unified_diff (file_path : string)
    (old_content new_content : option string) (op_type : OperationType)
    : string :=
  let old_lines := keep_lines_of old_content in
  let new_lines := keep_lines_of new_content in
  match op_type with
  | CREATE =>
      let header := "+++ " +:+ file_path +:+ " (new file)" +:+ nl_str in
      match new_lines with
      | [] => header +:+ "// New file" +:+ nl_str
      | _ => header +:+ concat_str (map (mark "+") new_lines)
      end
  | DELETE =>
      let header := "--- " +:+ file_path +:+ " (deleted)" +:+ nl_str in
      match old_lines with
      | [] => header +:+ "// Deleted file" +:+ nl_str
      | _ => header +:+ concat_str (map (mark "-") old_lines)
      end
  | _ =>
      let diff_lines :=
        difflib_unified_diff old_lines new_lines
          ("a/" +:+ file_path) ("b/" +:+ file_path) in
      match diff_lines with
      | [] => "--- " +:+ file_path +:+ nl_str +:+ "+++ " +:+ file_path +:+ nl_str
              +:+ "// No changes" +:+ nl_str
      | _ => concat_str diff_lines
      end
  end.

(** The reading of the existing file in [_generate_diff_for_operation]:
    only for MODIFY and DELETE, and any exception gives [None]. *)
Definition read_old_content (file_path : path) (op_type : OperationType)
    : M (option string) :=
  match op_type with
  | MODIFY | DELETE =>
      try_except (let! text := read_text file_path in ret (Some text))
                 (fun _ => ret None)
  | _ => ret None
  end.

(** [_generate_diff_for_operation] *)
Definition _generate_diff_for_operation (working_dir : path)
    (operation : FileOperation) : M FileDiff :=
  let file_path := joinpath working_dir (parse (CodeParser.file_path operation)) in
  let! old_content := read_old_content file_path (op_type operation) in
  let new_content := CodeParser.content operation in
  let diff_text :=
    _create_unified_diff (CodeParser.file_path operation)
      old_content new_content (op_type operation) in
  let stats := _calculate_stats old_content new_content in
  ret (mkFileDiff (op_type operation) (CodeParser.file_path operation)
         old_content new_content diff_text stats).

(** [generate_diffs]: a diff object is always true, so that every operation
    contributes one. *)
Fixpoint generate_diffs (working_dir : path) (operations : list FileOperation)
    : M (list FileDiff) :=
  match operations with
  | [] => ret []
  | op :: rest =>
      let! diff := _generate_diff_for_operation working_dir op in
      let! diffs := generate_diffs working_dir rest in
      ret (diff :: diffs)
  end.

End WithDifflib.

(** The three lists returned by [apply_changes]. *)
Record Results : Type := mkResults {
  success : list string;
  failed : list (string * exn);
  skipped : list string
}.

Definition no_results : Results := mkResults [] [] [].

Inductive outcome : Type :=
| Succeeded
| Skipped.

Definition record (path : string) (o : result outcome) (r : Results) : Results :=
  match o with
  | Ok Succeeded => mkResults (success r ++ [path]) (failed r) (skipped r)
  | Ok Skipped => mkResults (success r) (failed r) (skipped r ++ [path])
  | Raise e => mkResults (success r) (failed r ++ [(path, e)]) (skipped r)
  end.

(** [diff.new_content or ""] *)
Definition content_or_empty (c : option string) : string :=
  match c with Some s => s | None => EmptyString end.

(** The body of the [try] of [apply_changes] for one diff. *)
Definition apply_one (working_dir : path) (dry_run : bool) (diff : FileDiff)
    : M outcome :=
  let file_path := joinpath working_dir (parse (file_path diff)) in
  if dry_run then ret Succeeded
  else
    mkdir_parents (Fs.parent file_path) ;;
    match operation diff with
    | DELETE =>
        let! present := gets (exists_ file_path) in
        if present then unlink file_path ;; ret Succeeded
        else ret Skipped
    | _ =>
        write_text file_path (content_or_empty (new_content diff)) ;;
        ret Succeeded
    end.

(** The loop of [apply_changes]: the [except Exception] of every iteration
    turns a failure into an entry of [failed]. *)
Fixpoint apply_loop (working_dir : path) (dry_run : bool)
    (diffs : list FileDiff) (results : Results) (fs : FS) : Results * FS :=
  match diffs with
  | [] => (results, fs)
  | diff :: rest =>
      let '(o, fs') := apply_one working_dir dry_run diff fs in
      apply_loop working_dir dry_run rest
        (record (file_path diff) o results) fs'
  end.

Definition apply_changes (working_dir : path) (diffs : list FileDiff)
    (dry_run : bool) (fs : FS) : Results * FS :=
  apply_loop working_dir dry_run diffs no_results fs.

(** ** Vocabulary of the statements *)

(** [self.working_dir / diff.file_path] *)
Definition target (working_dir : path) (diff : FileDiff) : path :=
  joinpath working_dir (parse (file_path diff)).

(** The three lists of two runs, one after the other. *)
Definition merge (a b : Results) : Results :=
  mkResults (success a ++ success b) (failed a ++ failed b) (skipped a ++ skipped b).

(** Every path a run reported, in any of the three lists. *)
Definition reported (r : Results) : list string :=
  success r ++ map fst (failed r) ++ skipped r.

End DiffGenerator.

(* ===================================================================== *)
(** * utils/backup_manager.py *)
(* ===================================================================== *)

Module BackupManager.
Import PyStr Py Fs FsOps.

(** An entry of the manifest's [files] list. *)
Record FileInfo : Type := mkFileInfo {
  original_path : string;
  fi_backup_path : string;
  size : nat
}.

Record Manifest : Type := mkManifest {
  timestamp : string;
  backup_path : string;
  files : list FileInfo
}.

(** The two directories a [BackupManager] holds, both resolved. *)
Record manager : Type := mkManager {
  working_dir : path;
  backup_dir : path
}.

(** The summary returned by [restore_backup]. *)
Record Restored : Type := mkRestored {
  restored : list string;
  failed : list (string * exn)
}.

Section WithJson.

(** [json.dumps(manifest, indent=2)] and [json.loads] followed by the reads
    of the manifest's fields; [None] stands for an exception of the
    decoder or of a field access.  The manifest goes through a file: it is
    written with [write_text] and decoded from what [read_text] gives. *)
Context (json_dumps : Manifest -> string)
        (json_loads : string -> option Manifest).

(** One iteration of the loop of [create_backup]; [files] is the list
    [manifest["files"]]. *)
Definition backup_one (mgr : manager) (backup_path : path)
    (file_path : string) (files : list FileInfo) : M (list FileInfo) :=
  let full_path := joinpath (working_dir mgr) (parse file_path) in
  let! present := gets (exists_ full_path) in
  if negb present then ret files
  else
    try_except
      (let backup_file_path := joinpath backup_path (parse file_path) in
       mkdir_parents (Fs.parent backup_file_path) ;;
       copy2 full_path backup_file_path ;;
       let! rel := query (fun _ => relative_to backup_file_path backup_path) in
       let! sz := st_size full_path in
       ret (files ++ [mkFileInfo file_path (str rel) sz]))
      (fun _ => ret files).

Fixpoint backup_loop (mgr : manager) (backup_path : path)
    (file_paths : list string) (files : list FileInfo) : M (list FileInfo) :=
  match file_paths with
  | [] => ret files
  | file_path :: rest =>
      let! files' := backup_one mgr backup_path file_path files in
      backup_loop mgr backup_path rest files'
  end.

(** [create_backup(file_paths)]; [now] is the reading of the clock,
    formatted. *)
Definition create_backup (mgr : manager) (now : string)
    (file_paths : list string) : M string :=
  let timestamp := now in
  let backup_name := "backup_" +:+ timestamp in
  let backup_path := joinpath (backup_dir mgr) (parse backup_name) in
  mkdir_exist_ok backup_path ;;
  let! files := backup_loop mgr backup_path file_paths [] in
  let manifest := mkManifest timestamp (str backup_path) files in
  let manifest_path := joinpath backup_path (parse "manifest.json") in
  write_text manifest_path (json_dumps manifest) ;;
  ret (str backup_path).

(** [file_paths and original_path not in file_paths] *)
Definition filtered_out (file_paths : option (list string))
    (original_path : string) : bool :=
  match file_paths with
  | Some (p :: l) => negb (existsb (String.eqb original_path) (p :: l))
  | _ => false
  end.

Definition restore_one (mgr : manager) (backup_path : path)
    (file_info : FileInfo) : M unit :=
  let backup_file_path := joinpath backup_path (parse (fi_backup_path file_info)) in
  let target_file_path := joinpath (working_dir mgr) (parse (original_path file_info)) in
  mkdir_parents (Fs.parent target_file_path) ;;
  copy2 backup_file_path target_file_path.

Fixpoint restore_loop (mgr : manager) (backup_path : path)
    (file_paths : option (list string)) (infos : list FileInfo)
    (results : Restored) (fs : FS) : Restored * FS :=
  match infos with
  | [] => (results, fs)
  | file_info :: rest =>
      let original_path := original_path file_info in
      if filtered_out file_paths original_path then
        restore_loop mgr backup_path file_paths rest results fs
      else
        match restore_one mgr backup_path file_info fs with
        | (Ok _, fs') =>
            restore_loop mgr backup_path file_paths rest
              (mkRestored (restored results ++ [original_path]) (failed results)) fs'
        | (Raise e, fs') =>
            restore_loop mgr backup_path file_paths rest
              (mkRestored (restored results) (failed results ++ [(original_path, e)])) fs'
        end
  end.

(** The first part of [restore_backup]: the two existence checks and the
    reading of the manifest. *)
Definition read_manifest (mgr : manager) (backup_name : string) : M Manifest :=
  let backup_path := joinpath (backup_dir mgr) (parse backup_name) in
  let! present := gets (exists_ backup_path) in
  if negb present then raise (ValueError ("Backup '" +:+ backup_name +:+ "' not found"))
  else
    let manifest_path := joinpath backup_path (parse "manifest.json") in
    let! present := gets (exists_ manifest_path) in
    if negb present then raise (ValueError "Backup manifest not found")
    else
      let! text := read_text manifest_path in
      match json_loads text with
      | None => raise JSONDecodeError
      | Some manifest => ret manifest
      end.

(** [restore_backup(backup_name, file_paths)] *)
Definition restore_backup (mgr : manager) (backup_name : string)
    (file_paths : option (list string)) : M Restored :=
  let backup_path := joinpath (backup_dir mgr) (parse backup_name) in
  let! manifest := read_manifest mgr backup_name in
  fun fs =>
    let '(results, fs') :=
      restore_loop mgr backup_path file_paths (files manifest)
        (mkRestored [] []) fs in
    (Ok results, fs').

(** The experiment of the round trip: back up [f], change the working
    tree, restore the backup by the identifier [create_backup] returned,
    read the bytes of [f]. *)
Definition backup_round_trip (mgr : manager) (now f : string)
    (change : M unit) : M string :=
  let! id := create_backup mgr now [f] in
  change ;;
  let! _ := restore_backup mgr id None in
  read_bytes (joinpath (working_dir mgr) (parse f)).

End WithJson.

(** ** Listing and pruning the snapshots *)

(** The value [manifest.get("timestamp")]: a string, a number (with [True]
    and [False] counting as 1 and 0), or a value that [<] compares with
    nothing, itself included: [None], for a manifest without the key or
    with [null] there, and an object.  A list there and a number that is
    not finite are outside the model. *)
Inductive stamp : Type :=
| Text (s : string)
| Number (q : Q)
| Unordered.

(** An element of the list [list_backups] returns. *)
Record BackupEntry : Type := mkBackupEntry {
  entry_name : string;
  entry_timestamp : stamp;
  file_count : nat;
  entry_path : string
}.

(** [a <= b], where [<] compares the two. *)
Definition stamp_leb (a b : stamp) : bool :=
  match a, b with
  | Text s, Text t => String.leb s t
  | Number p, Number q => Qle_bool p q
  | _, _ => false
  end.

Definition is_text (e : BackupEntry) : bool :=
  match entry_timestamp e with Text _ => true | _ => false end.

Definition is_number (e : BackupEntry) : bool :=
  match entry_timestamp e with Number _ => true | _ => false end.

(** The sort raises no [TypeError].  A sort compares every element of a
    list of two or more with another one, and elements from two runs with
    one another: it meets a pair that [<] does not compare unless the time
    stamps are all strings or all numbers. *)
Definition sortable (l : list BackupEntry) : bool :=
  (List.length l <=? 1) || forallb is_text l || forallb is_number l.

(** [l[k:]] for an integer [k] of either sign. *)
Definition slice_from {A : Type} (k : Z) (l : list A) : list A :=
  if (0 <=? k)%Z then drop (Z.to_nat k) l
  else drop (Z.to_nat (Z.max 0 (Z.of_nat (List.length l) + k))) l.

(** [list.sort(key=lambda x: x["timestamp"], reverse=True)] on a list that
    can be sorted: a stable sort into descending order of the time stamps;
    of two entries with one time stamp the one that came first stays
    first. *)
Fixpoint insert_newest (x : BackupEntry) (l : list BackupEntry) : list BackupEntry :=
  match l with
  | [] => [x]
  | y :: l' =>
      if stamp_leb (entry_timestamp y) (entry_timestamp x) then x :: y :: l'
      else y :: insert_newest x l'
  end.

Fixpoint sort_newest (l : list BackupEntry) : list BackupEntry :=
  match l with
  | [] => []
  | x :: l' => insert_newest x (sort_newest l')
  end.

Section WithListing.

(** [listdir fs k]: the names [os.listdir] gives for the directory at [k],
    in the order the system gives them.  [summary_loads]: [json.loads]
    followed by the reads [manifest.get("timestamp")] and
    [len(manifest.get("files", []))]; [None] stands for an exception of
    either.  [sort_error]: the text of the [TypeError] of the sort, which
    names the types of the two values it compared. *)
Context (listdir : FS -> key -> list string)
        (summary_loads : string -> option (stamp * nat))
        (sort_error : list BackupEntry -> string).

(** [p.iterdir()] *)
Definition iterdir (p : path) : M (list path) := query (fun fs =>
  let* k := resolve fs p in
  match node_at fs k with
  | Some Dir => Ok (map (fun c => joinpath p (Path false [c])) (listdir fs k))
  | Some (File _) => Raise NotADirectoryError
  | None => Raise FileNotFoundError
  end).

(** One iteration of the loop of [list_backups]. *)
Definition list_one (item : path) (backups : list BackupEntry) : M (list BackupEntry) :=
  let! d := gets (is_dir item) in
  if negb d then ret backups
  else
    let manifest_path := joinpath item (parse "manifest.json") in
    let! present := gets (exists_ manifest_path) in
    if negb present then ret backups
    else
      try_except
        (let! text := read_text manifest_path in
         match summary_loads text with
         | Some (timestamp, count) =>
             ret (backups ++ [mkBackupEntry (name_of item) timestamp count (str item)])
         | None => raise JSONDecodeError
         end)
        (fun _ => ret backups).

Fixpoint list_loop (items : list path) (backups : list BackupEntry)
    : M (list BackupEntry) :=
  match items with
  | [] => ret backups
  | item :: rest =>
      let! backups' := list_one item backups in
      list_loop rest backups'
  end.

(** [list_backups()]; the sort stands outside the [try]. *)
Definition list_backups (mgr : manager) : M (list BackupEntry) :=
  let! items := iterdir (backup_dir mgr) in
  let! backups := list_loop items [] in
  if sortable backups then ret (sort_newest backups)
  else raise (TypeError (sort_error backups)).

Fixpoint cleanup_loop (old : list BackupEntry) : M unit :=
  match old with
  | [] => ret tt
  | backup :: rest =>
      let backup_path := parse (entry_path backup) in
      try_except (rmtree backup_path) (fun _ => ret tt) ;;
      cleanup_loop rest
  end.

(** [cleanup_old_backups(keep_count)] *)
Definition cleanup_old_backups (mgr : manager) (keep_count : Z) : M unit :=
  let! backups := list_backups mgr in
  cleanup_loop (slice_from keep_count backups).

(** [get_latest_backup()] *)
Definition get_latest_backup (mgr : manager) : M (option string) :=
  let! backups := list_backups mgr in
  ret (match backups with
       | backup :: _ => Some (entry_name backup)
       | [] => None
       end).

(** [list_backups] makes the entry [e] of the directory [item]: [item] is a
    directory, its manifest can be read and decoded, and [e] carries what
    was read. *)
Definition lists (fs : FS) (item : path) (e : BackupEntry) : Prop :=
  is_dir item fs = true /\
  (exists text,
     read_text (joinpath item (parse "manifest.json")) fs = (Ok text, fs) /\
     summary_loads text = Some (entry_timestamp e, file_count e)) /\
  entry_name e = name_of item /\
  entry_path e = str item.

End WithListing.


(** The key of the snapshot [name] of the manager's backup directory. *)
Definition snapshot_key (mgr : manager) (name : string) : key :=
  parts (backup_dir mgr) ++ [name].

(** The entry [e] names a snapshot directory of [fs] by a plain name and
    carries its path. *)
Definition is_snapshot (mgr : manager) (fs : FS) (e : BackupEntry) : Prop :=
  component (entry_name e) = true /\ entry_name e <> ".." /\
  entry_path e = str (Path (absolute (backup_dir mgr)) (snapshot_key mgr (entry_name e))) /\
  node_at fs (snapshot_key mgr (entry_name e)) = Some Dir.

(** ** Vocabulary of the statements *)

(** The manifest with only the entries of the listed paths. *)
Definition restrict (file_paths : list string) (m : Manifest) : Manifest :=
  mkManifest (timestamp m) (backup_path m)
    (List.filter (fun fi => existsb (String.eqb (original_path fi)) file_paths)
       (files m)).

(** The paths a restore dealt with: those restored and those that failed. *)
Definition attempted (r : Restored) : list string :=
  restored r ++ map fst (failed r).

(** [original_path in file_paths] *)
Definition listed (file_paths : list string) (original_path : string) : bool :=
  existsb (String.eqb original_path) file_paths.

(** The copy of an entry in the snapshot, and the file it is restored
    to. *)
Definition source_path (backup_path : path) (file_info : FileInfo) : path :=
  joinpath backup_path (parse (fi_backup_path file_info)).

Definition target_path (mgr : manager) (file_info : FileInfo) : path :=
  joinpath (working_dir mgr) (parse (original_path file_info)).

(** The entries a restore deals with: all of them for [None] and for the
    empty list, those whose original path is listed otherwise. *)
Definition selected (file_paths : option (list string)) (infos : list FileInfo)
    : list FileInfo :=
  match file_paths with
  | Some (p :: l) => List.filter (fun fi => listed (p :: l) (original_path fi)) infos
  | _ => infos
  end.

(** The entry can be restored in [fs]: its copy is a regular file, found
    by a path without [..]; the way to its target is free and no directory
    stands there. *)
Definition restorable (mgr : manager) (backup_path : path) (fs : FS)
    (file_info : FileInfo) : Prop :=
  clean (parts (source_path backup_path file_info)) /\
  (exists data, read_bytes (source_path backup_path file_info) fs = (Ok data, fs)) /\
  free_way fs (parts (target_path mgr file_info)) /\
  node_at fs (parts (target_path mgr file_info)) <> Some Dir.

(** The targets of two entries do not lie on one another's way. *)
Definition apart (mgr : manager) (a b : FileInfo) : Prop :=
  ~ parts (target_path mgr a) `prefix_of` parts (target_path mgr b) /\
  ~ parts (target_path mgr b) `prefix_of` parts (target_path mgr a).

(** ** A reference codec

    A self-delimiting encoding of manifests in the two characters [0] and
    [1]: a number is written in unary, a string as its length followed by
    the eight bits of each of its characters.  It shows that the law asked
    of the JSON functions can be met. *)

Fixpoint enc_nat (n : nat) (k : string) : string :=
  match n with
  | 0 => String "0" k
  | S n' => String "1" (enc_nat n' k)
  end.

Definition bit (b : bool) : ascii := if b then "1"%char else "0"%char.

Definition enc_char (c : ascii) (k : string) : string :=
  match c with
  | Ascii b0 b1 b2 b3 b4 b5 b6 b7 =>
      String (bit b0) (String (bit b1) (String (bit b2) (String (bit b3)
        (String (bit b4) (String (bit b5) (String (bit b6) (String (bit b7) k)))))))
  end.

Fixpoint enc_chars (s : string) (k : string) : string :=
  match s with
  | EmptyString => k
  | String c s' => enc_char c (enc_chars s' k)
  end.

Definition enc_str (s : string) (k : string) : string :=
  enc_nat (String.length s) (enc_chars s k).

Definition enc_info (fi : FileInfo) (k : string) : string :=
  enc_str (original_path fi) (enc_str (fi_backup_path fi) (enc_nat (size fi) k)).

Fixpoint enc_infos (l : list FileInfo) (k : string) : string :=
  match l with
  | [] => k
  | fi :: l' => enc_info fi (enc_infos l' k)
  end.

Definition ref_dumps (m : Manifest) : string :=
  enc_str (timestamp m) (enc_str (backup_path m)
    (enc_nat (List.length (files m)) (enc_infos (files m) EmptyString))).

Fixpoint dec_nat (s : string) : option (nat * string) :=
  match s with
  | String c s' =>
      if eqc c "0" then Some (0, s')
      else if eqc c "1" then
        match dec_nat s' with
        | Some (n, k) => Some (S n, k)
        | None => None
        end
      else None
  | EmptyString => None
  end.

Definition dec_bit (s : string) : option (bool * string) :=
  match s with
  | String c k =>
      if eqc c "0" then Some (false, k)
      else if eqc c "1" then Some (true, k)
      else None
  | EmptyString => None
  end.

Definition dec_char (s : string) : option (ascii * string) :=
  '(b0, s) ← dec_bit s; '(b1, s) ← dec_bit s; '(b2, s) ← dec_bit s;
  '(b3, s) ← dec_bit s; '(b4, s) ← dec_bit s; '(b5, s) ← dec_bit s;
  '(b6, s) ← dec_bit s; '(b7, s) ← dec_bit s;
  Some (Ascii b0 b1 b2 b3 b4 b5 b6 b7, s).

Fixpoint dec_chars (n : nat) (s : string) : option (string * string) :=
  match n with
  | 0 => Some (EmptyString, s)
  | S n' =>
      match dec_char s with
      | Some (c, s') =>
          match dec_chars n' s' with
          | Some (r, k) => Some (String c r, k)
          | None => None
          end
      | None => None
      end
  end.

Definition dec_str (s : string) : option (string * string) :=
  match dec_nat s with
  | Some (n, k) => dec_chars n k
  | None => None
  end.

Definition dec_info (s : string) : option (FileInfo * string) :=
  match dec_str s with
  | Some (o, k1) =>
      match dec_str k1 with
      | Some (b, k2) =>
          match dec_nat k2 with
          | Some (n, k3) => Some (mkFileInfo o b n, k3)
          | None => None
          end
      | None => None
      end
  | None => None
  end.

Fixpoint dec_infos (n : nat) (s : string) : option (list FileInfo * string) :=
  match n with
  | 0 => Some ([], s)
  | S n' =>
      match dec_info s with
      | Some (fi, k) =>
          match dec_infos n' k with
          | Some (l, k') => Some (fi :: l, k')
          | None => None
          end
      | None => None
      end
  end.

Definition ref_loads (s : string) : option Manifest :=
  match dec_str s with
  | Some (t, k1) =>
      match dec_str k1 with
      | Some (b, k2) =>
          match dec_nat k2 with
          | Some (n, k3) =>
              match dec_infos n k3 with
              | Some (l, EmptyString) => Some (mkManifest t b l)
              | _ => None
              end
          | None => None
          end
      | None => None
      end
  | None => None
  end.

(** The summary [list_backups] reads, with the reference codec. *)
Definition ref_summary (s : string) : option (stamp * nat) :=
  match ref_loads s with
  | Some m => Some (Text (timestamp m), List.length (files m))
  | None => None
  end.

End BackupManager.

(* ===================================================================== *)
(** * agents/base.py *)
(* ===================================================================== *)

Module Agents.
Import PyStr Py Re.

(** A value of the [metadata] dictionary. *)
Inductive meta : Type :=
| MBool (b : bool)
| MStr (s : string).

(** [AgentResponse]; the [timestamp] field, a default fixed when the class
    is defined, is left out. *)
Record AgentResponse : Type := mkAgentResponse {
  agent_name : string;
  agent_type : string;
  content : string;
  code : option string;
  explanation : option string;
  confidence : option Q;
  metadata : list (string * meta);
  tokens_used : option Z;
  latency_ms : option Z
}.

Abbreviation Context := (option (list (string * string))).

(** [BaseAgent]: the two attributes and the two abstract coroutines used by
    the dispatcher and the evaluator.  A coroutine either returns or raises
    an [Exception]. *)
Record BaseAgent : Type := mkBaseAgent {
  name : string;
  type_name : string;
  query : string -> Context -> result AgentResponse;
  evaluate : string -> AgentResponse -> list AgentResponse -> result Q
}.

(** [str(e)] *)
Definition str_exn (e : exn) : string :=
  match e with
  | ValueError msg => msg
  | RuntimeError msg => msg
  | TypeError msg => msg
  | FileNotFoundError => "No such file or directory"
  | FileExistsError => "File exists"
  | NotADirectoryError => "Not a directory"
  | IsADirectoryError => "Is a directory"
  | SameFileError => "are the same file"
  | JSONDecodeError => "Expecting value"
  end.

(** The response built in every [except Exception as e] branch:
    [AgentResponse(agent_name=..., agent_type=..., content=f"Error: {str(e)}",
    metadata=...)]; the remaining fields keep their defaults. *)
Definition error_response (name type_name : string) (e : exn) : AgentResponse :=
  mkAgentResponse name type_name ("Error: " +:+ str_exn e)
    None None None [("error", MBool true)] None None.

(** ** The API agents (claude_agent.py, openai_agent.py, gemini_agent.py) *)

(** What the remote service answers to one request. *)
Record Reply : Type := mkReply {
  reply_text : string;
  reply_tokens : Z
}.

Definition context_line (kv : string * string) : string :=
  fst kv +:+ ": " +:+ snd kv.

(** [_build_prompt] *)
Definition _build_prompt (prompt : string) (context : Context) : string :=
  match context with
  | None | Some [] => prompt
  | Some items =>
      "Context:" +:+ nl_str +:+ join nl_str (map context_line items)
      +:+ nl_str +:+ nl_str +:+ "Request:" +:+ nl_str +:+ prompt
  end.

(** The pattern of [_extract_code]: three backticks, an optional run of
    word characters, a newline, group 1 (a lazy run of any characters),
    three backticks; under [re.DOTALL]. *)
Definition pat_code : regex :=
  seqs [ lit CodeParser.fence; opt (plus word_char); chr nl;
         Grp 1 (StarLazy any_char); lit CodeParser.fence ].

Definition _extract_code (content : string) : option string :=
  match findall pat_code content with
  | c :: _ => Some c
  | [] => None
  end.

Definition _extract_explanation (content : string) : option string :=
  if contains CodeParser.fence content
  then Some (strip (before_first CodeParser.fence content))
  else Some content.

(** [query] of an API agent.  [client] is the remote service, [elapsed] the
    measured latency. *)
Definition api_query (name type_name model : string)
    (client : string -> result Reply) (elapsed : Z)
    (prompt : string) (context : Context) : result AgentResponse :=
  let full_prompt := _build_prompt prompt context in
  match client full_prompt with
  | Ok response =>
      let content := reply_text response in
      Ok (mkAgentResponse name type_name content
            (_extract_code content) (_extract_explanation content)
            None [("model", MStr model)]
            (Some (reply_tokens response)) (Some elapsed))
  | Raise e => Ok (error_response name type_name e)
  end.

(** [float(s)] for a string of digits and dots: at most one dot and at
    least one digit, else [ValueError]. *)
Definition digit_val (c : ascii) : Z := Z.of_nat (PyStr.code c - 48).

Definition digits_val (l : list ascii) : Z :=
  fold_left (fun acc c => (acc * 10 + digit_val c)%Z) l 0%Z.

Fixpoint split_dot (l : list ascii) : list ascii * option (list ascii) :=
  match l with
  | [] => ([], None)
  | c :: l' =>
      if eqc c "." then ([], Some l')
      else let '(a, b) := split_dot l' in (c :: a, b)
  end.

Definition float_of (s : string) : result Q :=
  let '(ip, fp) := split_dot (list_ascii_of_string s) in
  match fp with
  | None =>
      match ip with
      | [] => Raise (ValueError "could not convert string to float")
      | _ => Ok (inject_Z (digits_val ip))
      end
  | Some fp =>
      if forallb is_digit fp && negb (is_empty (string_of_list_ascii (ip ++ fp)))
      then Ok (Qmake (digits_val (ip ++ fp))
                     (Z.to_pos (10 ^ Z.of_nat (List.length fp))))
      else Raise (ValueError "could not convert string to float")
  end.

Fixpoint keep_digits_dots (s : string) : string :=
  match s with
  | EmptyString => EmptyString
  | String c s' =>
      if is_digit c || eqc c "." then String c (keep_digits_dots s')
      else keep_digits_dots s'
  end.

Definition Qmin (a b : Q) : Q := if Qle_bool a b then a else b.
Definition Qmax (a b : Q) : Q := if Qle_bool b a then a else b.

(** [max(0, min(100, score))] *)
Definition clamp (score : Q) : Q := Qmax 0 (Qmin 100 score).

(** [evaluate] of an API agent: the digits and dots of the answer are read
    as a number and clamped; any exception gives the neutral 50.0. *)
Definition api_evaluate (client : string -> result Reply)
    (evaluation_prompt : string -> AgentResponse -> list AgentResponse -> string)
    (original_prompt : string) (solution_to_evaluate : AgentResponse)
    (other_solutions : list AgentResponse) : result Q :=
  match client (evaluation_prompt original_prompt solution_to_evaluate other_solutions) with
  | Ok response =>
      let score_text := strip (reply_text response) in
      match float_of (keep_digits_dots score_text) with
      | Ok score => Ok (clamp score)
      | Raise _ => Ok (50 # 1)
      end
  | Raise _ => Ok (50 # 1)
  end.

(** An API agent as a [BaseAgent]. *)
Definition api_agent (name type_name model : string)
    (client : string -> result Reply) (elapsed : Z)
    (evaluation_prompt : string -> AgentResponse -> list AgentResponse -> string)
    : BaseAgent :=
  mkBaseAgent name type_name
    (api_query name type_name model client elapsed)
    (api_evaluate client evaluation_prompt).

End Agents.

(* ===================================================================== *)
(** * dispatcher/parallel_dispatcher.py *)
(* ===================================================================== *)

Module ParallelDispatcher.
Import PyStr Py Agents.

(** [asyncio.gather] over the tasks with [return_exceptions=True].  The tasks finish in
    the order [order] (a list of task indices); each one, when it finishes,
    stores its outcome in the slot of its own index.  The call returns once
    every slot is filled; [None] stands for a call still waiting. *)
Definition complete {A : Type} (tasks : list A) (slots : list (option A))
    (i : nat) : list (option A) :=
  match tasks !! i with
  | Some outcome => <[i := Some outcome]> slots
  | None => slots
  end.

Definition gather {A : Type} (order : list nat) (tasks : list A)
    : option (list A) :=
  let slots := fold_left (complete tasks) order (replicate (List.length tasks) None) in
  mapM id slots.

(** The body of the loop over [enumerate(responses)]; [agent] is
    [self.agents[i]]. *)
Definition wrap (agent : BaseAgent) (response : result AgentResponse)
    : AgentResponse :=
  match response with
  | Raise e => error_response (name agent) (type_name agent) e
  | Ok r => r
  end.

Definition dispatch_all (agents : list BaseAgent) (order : list nat)
    (prompt : string) (context : Context)
    : option (result (list AgentResponse)) :=
  match agents with
  | [] => Some (Raise (ValueError
            "No agents available. Please configure at least one API key."))
  | _ =>
      let tasks := map (fun agent => query agent prompt context) agents in
      match gather order tasks with
      | Some responses => Some (Ok (zip_with wrap agents responses))
      | None => None
      end
  end.

(** The list comprehension at the head of [dispatch_to_agents]: the agents
    of the roster whose lowercased name is among the lowercased
    [agent_names], in roster order. *)
Definition selected_agents (agents : list BaseAgent) (agent_names : list string)
    : list BaseAgent :=
  List.filter
    (fun agent => existsb (String.eqb (lower (name agent))) (map lower agent_names))
    agents.

(** [dispatch_to_agents]; [repr] is Python's [repr] of a list of strings,
    used in the error message only. *)
Definition dispatch_to_agents (repr : list string -> string)
    (agents : list BaseAgent) (order : list nat)
    (prompt : string) (agent_names : list string) (context : Context)
    : option (result (list AgentResponse)) :=
  let selected := selected_agents agents agent_names in
  match selected with
  | [] =>
      let available := join ", " (map name agents) in
      Some (Raise (ValueError
              ("No agents found matching " +:+ repr agent_names +:+ ". "
               +:+ "Available agents: " +:+ available)))
  | _ =>
      let tasks := map (fun agent => query agent prompt context) selected in
      match gather order tasks with
      | Some responses => Some (Ok (zip_with wrap selected responses))
      | None => None
      end
  end.

(** [get_available_agents] *)
Definition get_available_agents (agents : list BaseAgent) : list string :=
  map name agents.

(** [add_agent]: the new roster. *)
Definition add_agent (agents : list BaseAgent) (agent : BaseAgent) : list BaseAgent :=
  agents ++ [agent].

(** [remove_agent]: the returned flag and the new roster.  The loop stops
    at the first agent whose lowercased name is the lowercased
    [agent_name]. *)
Fixpoint remove_agent (agents : list BaseAgent) (agent_name : string)
    : bool * list BaseAgent :=
  match agents with
  | [] => (false, [])
  | agent :: rest =>
      if String.eqb (lower (name agent)) (lower agent_name) then (true, rest)
      else let '(found, rest') := remove_agent rest agent_name in
           (found, agent :: rest')
  end.

(** The test of [remove_agent] and of the selection, as a proposition. *)
Definition answers_to (agent_name : string) (agent : BaseAgent) : Prop :=
  lower (name agent) = lower agent_name.

(** A response is authored by an agent when it carries its name and type. *)
Definition authored_by (agent : BaseAgent) (r : AgentResponse) : Prop :=
  agent_name r = name agent /\ agent_type r = type_name agent.

(** An explicitly failed response: the content is the error text after the
    prefix, and the metadata carry the error flag. *)
Definition failed_with (e : exn) (r : AgentResponse) : Prop :=
  content r = "Error: " +:+ str_exn e /\ metadata r = [("error", MBool true)].

(** The contract every agent class of the repository follows: a response
    returned by [query] carries the agent's own name and type. *)
Definition signs_own (agent : BaseAgent) : Prop :=
  forall prompt context r,
    query agent prompt context = Ok r -> authored_by agent r.

End ParallelDispatcher.

(* ===================================================================== *)
(** * evaluator/cross_evaluator.py *)
(* ===================================================================== *)

Module CrossEvaluator.
Import PyStr Py Agents.

(** A [Dict[str, float]] in insertion order. *)
Abbreviation scores_dict := (list (string * Q)).

(** [d[k] = v]: an existing key keeps its place. *)
Fixpoint dict_set (d : scores_dict) (k : string) (v : Q) : scores_dict :=
  match d with
  | [] => [(k, v)]
  | (k', v') :: d' =>
      if String.eqb k' k then (k', v) :: d' else (k', v') :: dict_set d' k v
  end.

Fixpoint dict_get (d : scores_dict) (k : string) : option Q :=
  match d with
  | [] => None
  | (k', v') :: d' => if String.eqb k' k then Some v' else dict_get d' k
  end.

Record EvaluationResult : Type := mkEvaluationResult {
  response : AgentResponse;
  scores : scores_dict;
  average_score : Q;
  rank : nat
}.

(** [[r for j, r in enumerate(responses) if j != i]] *)
Definition others (i : nat) (responses : list AgentResponse) : list AgentResponse :=
  take i responses ++ drop (S i) responses.

(** One pass of the inner loop: the agent that wrote the response is
    skipped, a raising evaluator gets the neutral 50.0, a returned score is
    stored as it is. *)
Definition cell (original_prompt : string) (response_to_eval : AgentResponse)
    (other_responses : list AgentResponse) (row : scores_dict)
    (agent : BaseAgent) : scores_dict :=
  if String.eqb (lower (name agent)) (lower (agent_name response_to_eval)) then row
  else
    match evaluate agent original_prompt response_to_eval other_responses with
    | Ok score => dict_set row (name agent) score
    | Raise _ => dict_set row (name agent) (50 # 1)
    end.

Definition matrix_row (agents : list BaseAgent) (original_prompt : string)
    (responses : list AgentResponse) (i : nat)
    (response_to_eval : AgentResponse) : scores_dict :=
  fold_left (cell original_prompt response_to_eval (others i responses)) agents [].

(** [_create_evaluation_matrix].  The keys of the matrix are [str(i)] for
    the indices [i] of the responses; the index itself is the key here. *)
Definition _create_evaluation_matrix (agents : list BaseAgent)
    (original_prompt : string) (responses : list AgentResponse)
    : gmap nat scores_dict :=
  fold_left (fun matrix '(i, response_to_eval) =>
               <[i := matrix_row agents original_prompt responses i response_to_eval]> matrix)
            (imap (fun i r => (i, r)) responses) ∅.

Definition Qsum (l : list Q) : Q := fold_left Qplus l 0%Q.

(** [sum(scores.values()) / len(scores)], or 75.0 for an empty dictionary. *)
Definition average (scores : scores_dict) : Q :=
  match scores with
  | [] => 75 # 1
  | _ => (Qsum (map snd scores) / inject_Z (Z.of_nat (List.length scores)))%Q
  end.

(** [_calculate_results] *)
Definition _calculate_results (responses : list AgentResponse)
    (evaluation_matrix : gmap nat scores_dict) : list EvaluationResult :=
  imap (fun i response =>
          let scores := default [] (evaluation_matrix !! i) in
          mkEvaluationResult response scores (average scores) 0)
       responses.

(** [list.sort(key=lambda x: x.average_score, reverse=True)]: a stable sort
    into descending order; of two results with equal averages the one that
    came first stays first. *)
Fixpoint insert_desc (x : EvaluationResult) (l : list EvaluationResult)
    : list EvaluationResult :=
  match l with
  | [] => [x]
  | y :: l' =>
      if Qle_bool (average_score y) (average_score x) then x :: y :: l'
      else y :: insert_desc x l'
  end.

Fixpoint sort_desc (l : list EvaluationResult) : list EvaluationResult :=
  match l with
  | [] => []
  | x :: l' => insert_desc x (sort_desc l')
  end.

(** [for i, result in enumerate(results, 1): result.rank = i] *)
Definition set_rank (i : nat) (r : EvaluationResult) : EvaluationResult :=
  mkEvaluationResult (response r) (scores r) (average_score r) i.

Fixpoint rank_from (i : nat) (results : list EvaluationResult)
    : list EvaluationResult :=
  match results with
  | [] => []
  | result :: rest => set_rank i result :: rank_from (S i) rest
  end.

Definition assign_ranks (results : list EvaluationResult) : list EvaluationResult :=
  rank_from 1 results.

Definition evaluate_responses (agents : list BaseAgent)
    (original_prompt : string) (responses : list AgentResponse)
    : list EvaluationResult :=
  match responses with
  | [] => []
  | [r] => [mkEvaluationResult r [("self", 85 # 1)] (85 # 1) 1]
  | _ =>
      let evaluation_matrix :=
        _create_evaluation_matrix agents original_prompt responses in
      let results := _calculate_results responses evaluation_matrix in
      assign_ranks (sort_desc results)
  end.

(** [get_best_solution]: the head of the results sorted again by
    descending average. *)
Definition get_best_solution (evaluation_results : list EvaluationResult)
    : result EvaluationResult :=
  match evaluation_results with
  | [] => Raise (ValueError "No evaluation results available")
  | first :: _ =>
      let sorted_results := sort_desc evaluation_results in
      Ok (List.hd first sorted_results)
  end.

(** ** Vocabulary of the statements *)

(** What a cell holds for an evaluator: the score it returned, or the
    neutral 50.0 when it raised. *)
Definition cell_value (agent : BaseAgent) (original_prompt : string)
    (r : AgentResponse) (other_responses : list AgentResponse) : Q :=
  match evaluate agent original_prompt r other_responses with
  | Ok score => score
  | Raise _ => 50 # 1
  end.

(** One step of the outer loop of [_create_evaluation_matrix]. *)
Definition matrix_step (agents : list BaseAgent) (p : string)
    (responses : list AgentResponse) (matrix : gmap nat scores_dict)
    (ir : nat * AgentResponse) : gmap nat scores_dict :=
  let '(i, response_to_eval) := ir in
  <[i := matrix_row agents p responses i response_to_eval]> matrix.

(** A score within the range the evaluators are asked for. *)
Definition percent (q : Q) : Prop := (0 <= q /\ q <= 100)%Q.

(** [a] may stand before [b] in a descending ranking. *)
Definition desc (a b : EvaluationResult) : Prop :=
  (average_score b <= average_score a)%Q.

(** The results whose average equals [q]. *)
Definition has_average (q : Q) (r : EvaluationResult) : bool :=
  Qeq_bool (average_score r) q.

End CrossEvaluator.

(* ===================================================================== *)
(** * Concrete inputs used in the examples *)
(* ===================================================================== *)

Module ExamplesParser.
Import PyStr Re Py CodeParser.

(** The text of scenario A: a file marker, then a fenced Python block. *)
Definition scenario_A : string :=
  "File: foo.py" +:+ nl_str +:+ fence +:+ "python" +:+ nl_str
  +:+ "def f(): pass" +:+ nl_str +:+ fence.

(** Two mentions before a block: a marker line for [a.py], then a sentence
    that names [b.py]. *)
Definition mention_text : string :=
  "File: a.py" +:+ nl_str +:+ "Now update b.py:" +:+ nl_str
  +:+ fence +:+ "python" +:+ nl_str.

(** Two marker lines, then a sentence that names a third file, then a
    block. *)
Definition mentions_response : string :=
  "File: a.py" +:+ nl_str +:+ "File: c.py" +:+ nl_str +:+ "Now update b.py:" +:+ nl_str
  +:+ fence +:+ "python" +:+ nl_str +:+ "x = 1" +:+ nl_str +:+ fence.

End ExamplesParser.

Module ExamplesAgents.
Import PyStr Py Agents ParallelDispatcher CrossEvaluator.

(** A remote service that answers every request. *)
Definition echo_client (p : string) : result Reply :=
  Ok (mkReply ("echo: " +:+ p) 7).

(** A remote service whose answer to an evaluation request is 150. *)
Definition generous_client (p : string) : result Reply :=
  Ok (mkReply "150" 3).

Definition plain_prompt (p : string) (r : AgentResponse)
    (o : list AgentResponse) : string := p.

Definition claude : BaseAgent :=
  api_agent "Claude" "ClaudeAgent" "claude-3-sonnet-20240229"
    echo_client 12 plain_prompt.

Definition gpt : BaseAgent :=
  api_agent "GPT-4" "OpenAIAgent" "gpt-4" generous_client 30 plain_prompt.

(** An agent whose coroutines raise. *)
Definition broken : BaseAgent :=
  mkBaseAgent "Gemini" "GeminiAgent"
    (fun _ _ => Raise (RuntimeError "boom"))
    (fun _ _ _ => Raise (RuntimeError "boom")).

(** An agent whose [evaluate] returns 150.0. *)
Definition judge : BaseAgent :=
  mkBaseAgent "Judge" "JudgeAgent"
    (fun _ _ => Raise (RuntimeError "no answer"))
    (fun _ _ _ => Ok (150 # 1)).

Definition answer (who : string) : AgentResponse :=
  mkAgentResponse who "Agent" "print(1)" None None None [] None None.

(** Python's [repr] of a list of strings that need no escaping. *)
Definition repr_plain (names : list string) : string :=
  "[" +:+ join ", " (map (fun n => "'" +:+ n +:+ "'") names) +:+ "]".

(** A remote service that declines to give a mark. *)
Definition shy_client (p : string) : result Reply :=
  Ok (mkReply "n/a" 2).

(** A remote service that marks every solution 85 out of 100. *)
Definition fraction_client (p : string) : result Reply :=
  Ok (mkReply (" 85/100" +:+ nl_str) 5).

End ExamplesAgents.

Module ExamplesFs.
Import PyStr Py Fs FsOps CodeParser DiffGenerator.

(** A project directory [/proj] and nothing else. *)
Definition proj : path := Path true ["proj"].
Definition empty_tree : FS := {[ ["proj"] := Dir ]}.

Definition create_new : FileDiff :=
  mkFileDiff CREATE "new.py" None (Some "x = 1") EmptyString
    (_calculate_stats None (Some "x = 1")).

Definition delete_gone : FileDiff :=
  mkFileDiff DELETE "gone.py" None None EmptyString (_calculate_stats None None).

(** A Delete whose target lies in a directory that does not exist. *)
Definition delete_nested : FileDiff :=
  mkFileDiff DELETE "old/gone.py" None None EmptyString (_calculate_stats None None).

(** A Create whose target lies in directories that do not exist. *)
Definition create_nested : FileDiff :=
  mkFileDiff CREATE "src/app/new.py" None (Some "x = 1") EmptyString
    (_calculate_stats None (Some "x = 1")).

(** A Create whose parent is a regular file. *)
Definition create_under_file : FileDiff :=
  mkFileDiff CREATE "new.py/inner.py" None (Some "y = 2") EmptyString
    (_calculate_stats None (Some "y = 2")).

(** A Create under an absolute path, and another working directory. *)
Definition create_absolute : FileDiff :=
  mkFileDiff CREATE "/srv/new.py" None (Some "x = 1") EmptyString
    (_calculate_stats None (Some "x = 1")).

Definition elsewhere : path := Path true ["elsewhere"].

(** A Delete of the file [notes.txt]. *)
Definition delete_notes : FileDiff :=
  mkFileDiff DELETE "notes.txt" None None EmptyString (_calculate_stats None None).

(** The operation a parser returns for a new module two directories down. *)
Definition new_module : FileOperation :=
  mkFileOperation CREATE "src/app/new.py" (Some "x = 1") None None (Some "python").

(** The same with two lines that end in CR LF. *)
Definition crlf_str : string := String cr nl_str.

Definition dos_module : FileOperation :=
  mkFileOperation CREATE "src/app/new.py"
    (Some ("x = 1" +:+ crlf_str +:+ "y = 2" +:+ crlf_str)) None None (Some "python").

(** A stand-in for [difflib.unified_diff] that gives the two header lines
    only. *)
Definition headers_only (a b : list string) (fromfile tofile : string)
    : list string :=
  ["--- " +:+ fromfile; "+++ " +:+ tofile].

Definition backups : path := Path true ["proj"; ".multi-agent-coder-backups"].
Definition mgr : BackupManager.manager := BackupManager.mkManager proj backups.
Definition now : string := "20240101_120000".

(** The project with its backup directory and one file [manifest.json]. *)
Definition tree_with_manifest (data : string) : FS :=
  {[ ["proj"] := Dir;
     ["proj"; ".multi-agent-coder-backups"] := Dir;
     ["proj"; "manifest.json"] := File data ]}.

(** The project with its backup directory and one file [notes.txt]. *)
Definition tree_with_notes (data : string) : FS :=
  {[ ["proj"] := Dir;
     ["proj"; ".multi-agent-coder-backups"] := Dir;
     ["proj"; "notes.txt"] := File data ]}.

(** The manifest written for a backup of the one file [f] of size [n]. *)
Definition manifest_of (f : string) (n : nat) : BackupManager.Manifest :=
  BackupManager.mkManifest now
    "/proj/.multi-agent-coder-backups/backup_20240101_120000"
    [BackupManager.mkFileInfo f f n].

(** The tree after a backup of [notes.txt] with the reference codec and
    the making of a new file [later.txt]. *)
Definition later_tree : FS :=
  <[ ["proj"; "later.txt"] := File "new" ]>
    (snd (BackupManager.create_backup BackupManager.ref_dumps mgr now ["notes.txt"]
            (tree_with_notes "orig"))).

(** The names below [k], in the order of the map: a stand-in for
    [os.listdir]. *)
Definition children (fs : FS) (k : key) : list string :=
  omap (fun entry : key * node =>
          match strip_prefix k entry.1 with
          | Some [c] => Some c
          | _ => None
          end)
       (map_to_list fs).

Definition later : string := "20240102_090000".

(** The project after two backups of [notes.txt]. *)
Definition two_snapshots : FS :=
  snd (BackupManager.create_backup BackupManager.ref_dumps mgr later ["notes.txt"]
         (snd (BackupManager.create_backup BackupManager.ref_dumps mgr now ["notes.txt"]
                 (tree_with_notes "orig")))).

Definition newer_entry : BackupManager.BackupEntry :=
  BackupManager.mkBackupEntry "backup_20240102_090000" (BackupManager.Text later) 1
    "/proj/.multi-agent-coder-backups/backup_20240102_090000".

Definition older_entry : BackupManager.BackupEntry :=
  BackupManager.mkBackupEntry "backup_20240101_120000" (BackupManager.Text now) 1
    "/proj/.multi-agent-coder-backups/backup_20240101_120000".

(** The project with its backup directory and two files. *)
Definition tree_with_two : FS :=
  {[ ["proj"] := Dir;
     ["proj"; ".multi-agent-coder-backups"] := Dir;
     ["proj"; "notes.txt"] := File "orig";
     ["proj"; "todo.txt"] := File "first" ]}.

(** The same after a backup of both files and a change of both. *)
Definition edited_tree : FS :=
  <[ ["proj"; "todo.txt"] := File "second" ]>
    (<[ ["proj"; "notes.txt"] := File "edited" ]>
       (snd (BackupManager.create_backup BackupManager.ref_dumps mgr now ["notes.txt"; "todo.txt"] tree_with_two))).

Definition manifest_of_two : BackupManager.Manifest :=
  BackupManager.mkManifest now "/proj/.multi-agent-coder-backups/backup_20240101_120000"
    [BackupManager.mkFileInfo "notes.txt" "notes.txt" 4; BackupManager.mkFileInfo "todo.txt" "todo.txt" 5].

(** The text of the [TypeError] of a comparison with [None]. *)
Definition none_error (l : list BackupManager.BackupEntry) : string :=
  "'<' not supported between instances of 'NoneType' and 'NoneType'".

(** Two snapshots whose manifests are the empty object. *)
Definition bare_snapshots : FS :=
  {[ ["proj"] := Dir;
     ["proj"; ".multi-agent-coder-backups"] := Dir;
     ["proj"; ".multi-agent-coder-backups"; "backup_a"] := Dir;
     ["proj"; ".multi-agent-coder-backups"; "backup_a"; "manifest.json"] := File "{}";
     ["proj"; ".multi-agent-coder-backups"; "backup_b"] := Dir;
     ["proj"; ".multi-agent-coder-backups"; "backup_b"; "manifest.json"] := File "{}" ]}.

(** The summary of the empty object, and of a text of the reference codec. *)
Definition bare_summary (s : string) : option (BackupManager.stamp * nat) :=
  if String.eqb s "{}" then Some (BackupManager.Unordered, 0) else BackupManager.ref_summary s.

End ExamplesFs.


(* ===================================================================== *)
(** * Properties *)
(* ===================================================================== *)

(** ** Strings *)

Section StringFacts.
Import PyStr.

Lemma prefix_app (p s : string) :
  String.prefix p s = true <-> exists rest, s = p +:+ rest.
Proof.
  revert s. induction p as [|c p IH]; intros s.
  - destruct s; simpl; (split; [intros _; eexists; reflexivity | reflexivity]).
  - destruct s as [|d s]; simpl; [split; [discriminate | intros [r Hr]; discriminate]|].
    destruct (Ascii.ascii_dec c d) as [->|Hne].
    + rewrite IH. split; intros [r Hr]; exists r.
      * rewrite Hr. reflexivity.
      * injection Hr as ->. reflexivity.
    + split; [discriminate | intros [r Hr]; injection Hr; congruence].
Qed.

Lemma str_app_nil (b : string) : EmptyString +:+ b = b.
Proof. reflexivity. Qed.

Lemma str_app_cons (c : ascii) (a b : string) :
  String c a +:+ b = String c (a +:+ b).
Proof. reflexivity. Qed.

(** [before_first] cuts the subject at the position [find] reports, and no
    occurrence of the separator starts before it. *)
Lemma find_before_first (sep s : string) (n : nat) :
  find sep s = Some n ->
  (exists rest, s = before_first sep s +:+ sep +:+ rest) /\
  String.length (before_first sep s) = n /\
  (forall pre rest, s = pre +:+ sep +:+ rest -> n <= String.length pre).
Proof.
  revert n. induction s as [|c s IH]; intros n; cbn [find before_first].
  - destruct (String.prefix sep EmptyString) eqn:P; [|discriminate].
    intros [= <-]. apply prefix_app in P as [r Hr].
    split; [exists r; exact Hr|]. split; [reflexivity | intros; lia].
  - destruct (String.prefix sep (String c s)) eqn:P.
    + intros [= <-]. apply prefix_app in P as [r Hr].
      split; [exists r; exact Hr|]. split; [reflexivity | intros; lia].
    + destruct (find sep s) as [m|] eqn:F; [|discriminate].
      cbn [option_map]. intros [= <-].
      destruct (IH m eq_refl) as ([r Hr] & Hlen & Hmin).
      split; [|split].
      * exists r. rewrite str_app_cons. f_equal. exact Hr.
      * cbn [String.length]. f_equal. exact Hlen.
      * intros pre rest Hs. destruct pre as [|d pre].
        -- exfalso. rewrite str_app_nil in Hs.
           assert (String.prefix sep (String c s) = true) as Q
             by (apply prefix_app; exists rest; exact Hs).
           congruence.
        -- rewrite str_app_cons in Hs. injection Hs as -> Hs.
           cbn [String.length]. specialize (Hmin _ _ Hs). lia.
Qed.

Lemma contains_find (sep s : string) :
  contains sep s = true -> exists n, find sep s = Some n.
Proof.
  unfold contains. destruct (find sep s) as [n|]; [eauto | discriminate].
Qed.

End StringFacts.

(** ** The extraction engine *)

Section ParserFacts.
Import PyStr Re Py CodeParser ExamplesParser.

(** C3.  On the text of scenario A, [parse_response] returns exactly one
    operation: a Create of [foo.py], in Python, whose content is the line
    of the block. *)
Theorem parse_response_scenario_A :
  parse_response scenario_A =
  Ok [ mkFileOperation CREATE "foo.py" (Some "def f(): pass") None None
         (Some "python") ].
Proof. vm_compute. reflexivity. Qed.

(** The patterns are tried in order; the answer is the last match of the
    first pattern that matches at all. *)
Lemma extract_with_spec (patterns : list regex) (text : string) :
  match extract_with patterns text with
  | Some p =>
      exists before pattern after,
        patterns = before ++ pattern :: after /\
        Forall (fun q => findall q text = []) before /\
        findall pattern text <> [] /\
        p = strip (last_str (findall pattern text))
  | None => Forall (fun q => findall q text = []) patterns
  end.
Proof.
  induction patterns as [|pattern rest IH]; simpl.
  - constructor.
  - destruct (findall pattern text) as [|m ms] eqn:E.
    + destruct (extract_with rest text) as [p|].
      * destruct IH as (before & q & after & -> & Hb & Hq & ->).
        exists (pattern :: before), q, after.
        split; [reflexivity|]. split; [constructor; assumption|].
        split; [assumption|reflexivity].
      * constructor; assumption.
    + exists [], pattern, rest. rewrite E.
      split; [reflexivity|]. split; [constructor|].
      split; [discriminate|reflexivity].
Qed.

(** C6 as stated: whenever the text before the block mentions paths, the
    path returned is the one of the mention that comes last.  It fails on
    [mention_text]: the marker pattern is tried first and finds [a.py], so
    the later mention of [b.py], which only the second pattern matches, is
    never looked at.  The comment in [_extract_file_path] says that the
    last mentioned file is returned. *)
Lemma last_mention_does_not_win :
  ~ (forall text : string,
       mentions text <> [] -> _extract_file_path text = last_mention_path text).
Proof.
  intros H. specialize (H mention_text).
  assert (mentions mention_text <> []) as Hm by (vm_compute; discriminate).
  specialize (H Hm). vm_compute in H. discriminate H.
Qed.

(** C6, what the code does in place of it.  For a non-empty block that
    occurs in the response, the extractor looks only at the text before the
    first occurrence of the block; the patterns of FILE_PATTERNS are tried
    in order, and the path is the last match of the first pattern that
    matches anywhere in that text.  A later mention that only a later
    pattern matches is not looked at. *)
Theorem path_is_last_match_of_first_matching_pattern
    (full_response code_block language : string) (block_index : nat) :
  code_block <> EmptyString ->
  contains code_block full_response = true ->
  exists op text_before rest,
    _detect_operation_for_block full_response code_block block_index language = Ok op /\
    full_response = text_before +:+ code_block +:+ rest /\
    (forall pre post, full_response = pre +:+ code_block +:+ post ->
                      String.length text_before <= String.length pre) /\
    match _extract_file_path text_before with
    | Some p =>
        (exists before pattern after,
           FILE_PATTERNS = before ++ pattern :: after /\
           Forall (fun q => findall q text_before = []) before /\
           findall pattern text_before <> [] /\
           p = strip (last_str (findall pattern text_before))) /\
        (p <> EmptyString -> file_path op = p)
    | None => Forall (fun q => findall q text_before = []) FILE_PATTERNS
    end.
Proof.
  intros Hne Hin.
  destruct (contains_find _ _ Hin) as [n Hn].
  destruct (find_before_first _ _ _ Hn) as ([rest Hrest] & Hlen & Hmin).
  unfold _detect_operation_for_block, text_before_block. rewrite Hin.
  destruct code_block as [|c cb]; [congruence|]. cbn [is_empty Py.bind].
  eexists _, (before_first (String c cb) full_response), rest.
  split; [reflexivity|]. split; [exact Hrest|].
  split; [intros pre post Hs; rewrite Hlen; eapply Hmin; exact Hs|].
  pose proof (extract_with_spec FILE_PATTERNS (before_first (String c cb) full_response)) as S.
  fold (_extract_file_path (before_first (String c cb) full_response)) in S.
  cbn [file_path]. unfold choose_path.
  destruct (_extract_file_path (before_first (String c cb) full_response)) as [p|]; [|exact S].
  split; [exact S|].
  intros Hp. destruct p as [|x p]; [congruence|]. reflexivity.
Qed.

(** At a response with two marker lines and a later mention of a third
    file: the first pattern matches twice, the second pattern once and
    later. *)
Lemma path_is_last_match_witness :
  "x = 1" <> EmptyString /\
  contains "x = 1" mentions_response = true /\
  exists op text_before rest,
    _detect_operation_for_block mentions_response "x = 1" 0 "python" = Ok op /\
    mentions_response = text_before +:+ "x = 1" +:+ rest /\
    (forall pre post, mentions_response = pre +:+ "x = 1" +:+ post ->
                      String.length text_before <= String.length pre) /\
    match _extract_file_path text_before with
    | Some p =>
        (exists before pattern after,
           FILE_PATTERNS = before ++ pattern :: after /\
           Forall (fun q => findall q text_before = []) before /\
           findall pattern text_before <> [] /\
           p = strip (last_str (findall pattern text_before))) /\
        (p <> EmptyString -> file_path op = p)
    | None => Forall (fun q => findall q text_before = []) FILE_PATTERNS
    end.
Proof.
  split; [discriminate|]. split; [vm_compute; reflexivity|].
  apply (path_is_last_match_of_first_matching_pattern mentions_response "x = 1" "python" 0).
  - discriminate.
  - vm_compute. reflexivity.
Defined.

(** There the path is [c.py], the last of the two marker lines, and not
    [b.py], the file mentioned last. *)
Example marker_line_beats_the_last_mention :
  parse_response mentions_response
  = Ok [ mkFileOperation MODIFY "c.py" (Some "x = 1") None None (Some "python") ] /\
  map (fun pattern => findall pattern (before_first "x = 1" mentions_response)) FILE_PATTERNS
  = [["a.py"; "c.py"]; ["b.py"]; []; []; []] /\
  last_mention_path (before_first "x = 1" mentions_response) = Some "b.py".
Proof. repeat split; vm_compute; reflexivity. Qed.

End ParserFacts.

Section StatsFacts.
Import PyStr Py DiffGenerator.

(** C8.  For every pair of old and new contents the statistics record the
    two line counts, [lines_added] is the positive part of new minus old and
    [lines_removed] the positive part of old minus new; with equal line
    counts both are zero, whatever the contents. *)
Theorem calculate_stats_line_delta (old_content new_content : option string) :
  let s := _calculate_stats old_content new_content in
  let old_count := len (lines_of old_content) in
  let new_count := len (lines_of new_content) in
  (old_lines s = old_count /\ new_lines s = new_count /\
   lines_added s = Z.max 0 (new_count - old_count) /\
   lines_removed s = Z.max 0 (old_count - new_count) /\
   (new_count = old_count -> lines_added s = 0 /\ lines_removed s = 0))%Z.
Proof.
  cbn [_calculate_stats old_lines new_lines lines_added lines_removed].
  repeat split; try reflexivity; lia.
Qed.

(** Two lines replaced by two other lines: nothing added, nothing removed. *)
Example pure_replacement_counts_nothing :
  let s := _calculate_stats (Some ("a" +:+ nl_str +:+ "b")) (Some ("c" +:+ nl_str +:+ "d")) in
  (old_lines s = 2 /\ new_lines s = 2 /\ lines_added s = 0 /\ lines_removed s = 0)%Z.
Proof. vm_compute. repeat split. Qed.

(** Characters are counted as code points: the two bytes C3 A9 are one
    letter. *)
Example chars_are_code_points :
  chars_added (_calculate_stats None (Some (String "195" (String "169" "!")))) = 2%Z.
Proof. reflexivity. Qed.

End StatsFacts.

Section DispatchFacts.
Import PyStr Py Agents ParallelDispatcher.

Lemma complete_length {A : Type} (tasks : list A) (slots : list (option A)) (i : nat) :
  length (complete tasks slots i) = length slots.
Proof.
  unfold complete. destruct (tasks !! i); [apply length_insert | reflexivity].
Qed.

Lemma fold_complete_length {A : Type} (tasks : list A) (order : list nat)
    (slots : list (option A)) :
  length (fold_left (complete tasks) order slots) = length slots.
Proof.
  revert slots. induction order as [|i order IH]; intros slots; simpl.
  - reflexivity.
  - rewrite IH. apply complete_length.
Qed.

(** A slot holds the outcome of its own task once that task has finished,
    whatever finished before or after it. *)
Lemma fold_complete_lookup {A : Type} (tasks : list A) (order : list nat)
    (slots : list (option A)) (i : nat) (x : A) :
  length slots = length tasks ->
  tasks !! i = Some x ->
  (slots !! i = Some (Some x) \/ i ∈ order) ->
  fold_left (complete tasks) order slots !! i = Some (Some x).
Proof.
  revert slots. induction order as [|j order IH]; intros slots Hlen Hx Hi; simpl.
  - destruct Hi as [Hi|Hi]; [exact Hi | inversion Hi].
  - apply IH; [rewrite complete_length; exact Hlen | exact Hx |].
    destruct (decide (i = j)) as [<-|Hne].
    + left. unfold complete. rewrite Hx. apply list_lookup_insert_eq.
      rewrite Hlen. eapply lookup_lt_Some; exact Hx.
    + destruct Hi as [Hi|Hi].
      * left. unfold complete. destruct (tasks !! j); [|exact Hi].
        rewrite list_lookup_insert_ne; [exact Hi | congruence].
      * right. apply elem_of_cons in Hi as [Hi|Hi]; [congruence | exact Hi].
Qed.

Lemma mapM_id_Some {A : Type} (l : list A) : mapM id (map Some l) = Some l.
Proof.
  apply mapM_Some. induction l; constructor; auto.
Qed.

(** The result of [gather] is the list of outcomes in task order, for every
    order of completion that lets each task finish. *)
Lemma gather_all {A : Type} (order : list nat) (tasks : list A) :
  (forall i, i < length tasks -> i ∈ order) ->
  gather order tasks = Some tasks.
Proof.
  intros Hall. unfold gather.
  replace (fold_left (complete tasks) order (replicate (length tasks) None))
    with (map Some tasks); [apply mapM_id_Some|].
  apply list_eq. intros i.
  destruct (tasks !! i) as [x|] eqn:Hx.
  - rewrite (fold_complete_lookup tasks order _ i x).
    + rewrite list_lookup_fmap, Hx. reflexivity.
    + apply length_replicate.
    + exact Hx.
    + right. apply Hall. eapply lookup_lt_Some; exact Hx.
  - rewrite list_lookup_fmap, Hx. simpl. symmetry.
    apply lookup_ge_None. rewrite fold_complete_length, length_replicate.
    apply lookup_ge_None. exact Hx.
Qed.

Lemma perm_seq_covers (order : list nat) (n : nat) :
  order ≡ₚ seq 0 n -> forall i, i < n -> i ∈ order.
Proof.
  intros Hp i Hi. rewrite Hp. apply elem_of_seq. lia.
Qed.

(** C1.  For a non-empty agent list and every order in which the queries
    complete, [dispatch_all] returns as many responses as there are agents.
    The response in slot [i] is decided by agent [i] alone: it is the
    response its query returned, which carries the agent's name and type as
    every agent class signs its responses, or, when the query raised, a
    failed response with the agent's name and type whose content is the
    error text. *)
Theorem dispatch_all_one_response_per_agent
    (agents : list BaseAgent) (order : list nat) (prompt : string) (context : Context) :
  agents <> [] ->
  order ≡ₚ seq 0 (length agents) ->
  exists out,
    dispatch_all agents order prompt context = Some (Ok out) /\
    length out = length agents /\
    forall i agent, agents !! i = Some agent ->
      exists r, out !! i = Some r /\
        match query agent prompt context with
        | Ok r' => r = r' /\ (signs_own agent -> authored_by agent r)
        | Raise e => authored_by agent r /\ failed_with e r
        end.
Proof.
  intros Hne Hp. unfold dispatch_all.
  destruct agents as [|a0 agents0] eqn:Eag; [congruence|]. rewrite <- Eag in *.
  clear Hne.
  rewrite gather_all.
  2:{ rewrite length_map. apply perm_seq_covers. exact Hp. }
  eexists. split; [reflexivity|]. split.
  - rewrite length_zip_with, length_map. lia.
  - intros i agent Hi. rewrite lookup_zip_with, Hi. simpl.
    rewrite list_lookup_fmap, Hi. simpl. eexists. split; [reflexivity|].
    destruct (query agent prompt context) as [r|e] eqn:Q; simpl.
    + split; [reflexivity|]. intros Hs. eapply Hs. exact Q.
    + split; split; reflexivity.
Qed.

End DispatchFacts.

Section DispatchExamples.
Import PyStr Py Agents ParallelDispatcher ExamplesAgents.

(** Every agent class of the repository signs its responses. *)
Lemma api_agent_signs_own (name type_name model : string)
    (client : string -> result Reply) (elapsed : Z)
    (evaluation_prompt : string -> AgentResponse -> list AgentResponse -> string) :
  signs_own (api_agent name type_name model client elapsed evaluation_prompt).
Proof.
  intros prompt context r. cbn [api_agent query]. unfold api_query.
  destruct (client _); intros [= <-]; split; reflexivity.
Qed.

(** Two agents, the second of which raises and completes first. *)
Lemma dispatch_all_witness :
  [claude; broken] <> [] /\
  [1; 0] ≡ₚ seq 0 (length [claude; broken]) /\
  exists out,
    dispatch_all [claude; broken] [1; 0] "sort a list" None = Some (Ok out) /\
    length out = length [claude; broken] /\
    forall i agent, [claude; broken] !! i = Some agent ->
      exists r, out !! i = Some r /\
        match query agent "sort a list" None with
        | Ok r' => r = r' /\ (signs_own agent -> authored_by agent r)
        | Raise e => authored_by agent r /\ failed_with e r
        end.
Proof.
  split; [discriminate|]. split; [apply Permutation_swap|].
  apply (dispatch_all_one_response_per_agent [claude; broken] [1; 0] "sort a list" None).
  - discriminate.
  - apply Permutation_swap.
Defined.

Example dispatch_all_two_agents :
  dispatch_all [claude; broken] [1; 0] "sort a list" None
  = Some (Ok [ mkAgentResponse "Claude" "ClaudeAgent" "echo: sort a list"
                 None (Some "echo: sort a list") None
                 [("model", MStr "claude-3-sonnet-20240229")] (Some 7%Z) (Some 12%Z);
               mkAgentResponse "Gemini" "GeminiAgent" "Error: boom"
                 None None None [("error", MBool true)] None None ]).
Proof. vm_compute. reflexivity. Qed.

Example dispatch_all_no_agents (order : list nat) :
  dispatch_all [] order "sort a list" None
  = Some (Raise (ValueError "No agents available. Please configure at least one API key.")).
Proof. reflexivity. Qed.

End DispatchExamples.

Section MatrixFacts.
Import PyStr Py Agents CrossEvaluator.

Lemma dict_get_set_eq (d : scores_dict) (k : string) (v : Q) :
  dict_get (dict_set d k v) k = Some v.
Proof.
  induction d as [|[k' v'] d IH]; simpl.
  - rewrite String.eqb_refl. reflexivity.
  - destruct (String.eqb k' k) eqn:E; simpl; rewrite E; [reflexivity | exact IH].
Qed.

Lemma dict_get_set_ne (d : scores_dict) (k k0 : string) (v : Q) :
  k <> k0 -> dict_get (dict_set d k v) k0 = dict_get d k0.
Proof.
  intros Hne. induction d as [|[k' v'] d IH]; simpl.
  - destruct (String.eqb k k0) eqn:E; [apply String.eqb_eq in E; congruence | reflexivity].
  - destruct (String.eqb k' k) eqn:E; simpl.
    + apply String.eqb_eq in E. subst k'.
      destruct (String.eqb k k0) eqn:E'; [apply String.eqb_eq in E'; congruence | reflexivity].
    + destruct (String.eqb k' k0); [reflexivity | exact IH].
Qed.


Lemma cell_other (p : string) (r : AgentResponse) (o : list AgentResponse)
    (row : scores_dict) (agent : BaseAgent) (k : string) :
  name agent <> k -> dict_get (cell p r o row agent) k = dict_get row k.
Proof.
  intros Hne. unfold cell.
  destruct (String.eqb _ _); [reflexivity|].
  destruct (evaluate agent p r o); apply dict_get_set_ne; exact Hne.
Qed.

Lemma cell_own (p : string) (r : AgentResponse) (o : list AgentResponse)
    (row : scores_dict) (agent : BaseAgent) :
  lower (name agent) <> lower (agent_name r) ->
  dict_get (cell p r o row agent) (name agent) = Some (cell_value agent p r o).
Proof.
  intros Hne. unfold cell, cell_value.
  destruct (String.eqb _ _) eqn:E; [apply String.eqb_eq in E; congruence|].
  destruct (evaluate agent p r o); apply dict_get_set_eq.
Qed.

Lemma fold_cell_other (p : string) (r : AgentResponse) (o : list AgentResponse)
    (agents : list BaseAgent) (row : scores_dict) (k : string) :
  k ∉ map name agents ->
  dict_get (fold_left (cell p r o) agents row) k = dict_get row k.
Proof.
  revert row. induction agents as [|a agents IH]; intros row Hk; simpl; [reflexivity|].
  rewrite IH.
  - apply cell_other. intros Heq. apply Hk. simpl.
    apply elem_of_cons. left. symmetry. exact Heq.
  - intros Hin. apply Hk. simpl. apply elem_of_cons. right. exact Hin.
Qed.

Lemma fold_cell_own (p : string) (r : AgentResponse) (o : list AgentResponse)
    (agents : list BaseAgent) (row : scores_dict) (agent : BaseAgent) :
  NoDup (map name agents) ->
  agent ∈ agents ->
  lower (name agent) <> lower (agent_name r) ->
  dict_get (fold_left (cell p r o) agents row) (name agent)
  = Some (cell_value agent p r o).
Proof.
  revert row. induction agents as [|a agents IH]; intros row Hnd Hin Hne.
  - inversion Hin.
  - simpl in Hnd. apply NoDup_cons in Hnd as [Hfresh Hnd]. simpl.
    apply elem_of_cons in Hin as [->|Hin].
    + rewrite fold_cell_other; [apply cell_own; exact Hne | exact Hfresh].
    + apply IH; assumption.
Qed.


Lemma matrix_fold_lookup (agents : list BaseAgent) (p : string)
    (responses l : list AgentResponse) (k : nat) (matrix : gmap nat scores_dict)
    (i : nat) :
  fold_left (matrix_step agents p responses) (imap (fun j r => (k + j, r)) l) matrix !! i
  = match l !! (i - k) with
    | Some r => if decide (k <= i) then Some (matrix_row agents p responses i r)
                else matrix !! i
    | None => matrix !! i
    end.
Proof.
  revert k matrix. induction l as [|x l IH]; intros k matrix.
  - simpl. destruct (i - k); reflexivity.
  - rewrite imap_cons. cbn [fold_left].
    erewrite imap_ext; [rewrite (IH (S k))|intros j y _; simpl; f_equal; lia].
    cbn [matrix_step]. replace (k + 0) with k by lia.
    destruct (decide (i = k)) as [->|Hne].
    + replace (k - S k) with 0 by lia. replace (k - k) with 0 by lia. simpl.
      destruct (l !! 0).
      * destruct (decide (S k <= k)); [lia|]. destruct (decide (k <= k)); [|lia].
        apply lookup_insert_eq.
      * destruct (decide (k <= k)); [|lia]. apply lookup_insert_eq.
    + destruct (decide (k <= i)) as [Hle|Hgt].
      * replace (i - k) with (S (i - S k)) by lia. simpl.
        destruct (l !! (i - S k)).
        -- destruct (decide (S k <= i)); [reflexivity | lia].
        -- rewrite lookup_insert_ne by congruence.
           (* out of range: both sides are the old lookup *)
           reflexivity.
      * replace (i - S k) with 0 by lia. replace (i - k) with 0 by lia. simpl.
        destruct (l !! 0).
        -- destruct (decide (S k <= i)); [lia|]. apply lookup_insert_ne. congruence.
        -- apply lookup_insert_ne. congruence.
Qed.

Lemma create_evaluation_matrix_lookup (agents : list BaseAgent) (p : string)
    (responses : list AgentResponse) (i : nat) :
  _create_evaluation_matrix agents p responses !! i
  = (fun r => matrix_row agents p responses i r) <$> responses !! i.
Proof.
  unfold _create_evaluation_matrix.
  change (fun (matrix : gmap nat scores_dict) '(i0, response_to_eval) =>
            <[i0 := matrix_row agents p responses i0 response_to_eval]> matrix)
    with (matrix_step agents p responses).
  pose proof (matrix_fold_lookup agents p responses responses 0 ∅ i) as H.
  cbn [Nat.add] in H. rewrite H. replace (i - 0) with i by lia.
  destruct (responses !! i); simpl.
  - destruct (decide (0 <= i)); [reflexivity | lia].
  - apply lookup_empty.
Qed.


Lemma matrix_total (agents : list BaseAgent) (p : string)
    (responses : list AgentResponse) (i : nat) :
  i < length responses ->
  is_Some (_create_evaluation_matrix agents p responses !! i).
Proof.
  intros Hi. rewrite create_evaluation_matrix_lookup.
  destruct (lookup_lt_is_Some_2 responses i Hi) as [r ->]. simpl. eauto.
Qed.

(** C5, amended.  The matrix has a row for every response, and in the row
    of response [i] the cell of an evaluator other than its author holds
    the neutral 50.0 when [evaluate] raised and the returned score, as
    returned, when it returned: no range check is made here. *)
Theorem matrix_cell_is_returned_score_or_neutral
    (agents : list BaseAgent) (original_prompt : string)
    (responses : list AgentResponse) (i : nat) (r : AgentResponse)
    (agent : BaseAgent) :
  NoDup (map name agents) ->
  agent ∈ agents ->
  responses !! i = Some r ->
  lower (name agent) <> lower (agent_name r) ->
  (forall j, j < length responses ->
     is_Some (_create_evaluation_matrix agents original_prompt responses !! j)) /\
  exists row,
    _create_evaluation_matrix agents original_prompt responses !! i = Some row /\
    (forall e, evaluate agent original_prompt r (others i responses) = Raise e ->
       dict_get row (name agent) = Some (50 # 1)) /\
    (forall score, evaluate agent original_prompt r (others i responses) = Ok score ->
       dict_get row (name agent) = Some score).
Proof.
  intros Hnd Hin Hr Hne. split; [intros j; apply matrix_total|].
  rewrite create_evaluation_matrix_lookup, Hr. simpl. eexists. split; [reflexivity|].
  unfold matrix_row. rewrite (fold_cell_own _ _ _ _ _ _ Hnd Hin Hne).
  unfold cell_value. split.
  - intros e ->. reflexivity.
  - intros score ->. reflexivity.
Qed.

Lemma Qle_bool_false (x y : Q) : Qle_bool x y = false -> (y < x)%Q.
Proof.
  intros H. apply Qnot_le_lt. intros Hle. apply Qle_bool_iff in Hle. congruence.
Qed.

Lemma clamp_range (s : Q) : (0 <= clamp s /\ clamp s <= 100)%Q.
Proof.
  unfold clamp, Qmax, Qmin.
  destruct (Qle_bool 100 s) eqn:E1.
  - destruct (Qle_bool 100 0) eqn:E2; [discriminate E2|].
    split; [discriminate | apply Qle_refl].
  - apply Qle_bool_false in E1.
    destruct (Qle_bool s 0) eqn:E2.
    + split; [apply Qle_refl | discriminate].
    + apply Qle_bool_false in E2. split; apply Qlt_le_weak; assumption.
Qed.

(** The API agents never hand an out-of-range score to the matrix. *)
Lemma api_evaluate_in_range (client : string -> result Reply)
    (evaluation_prompt : string -> AgentResponse -> list AgentResponse -> string)
    (p : string) (r : AgentResponse) (o : list AgentResponse) :
  exists s, api_evaluate client evaluation_prompt p r o = Ok s /\ (0 <= s /\ s <= 100)%Q.
Proof.
  unfold api_evaluate.
  destruct (client _) as [reply|e].
  - destruct (float_of _) as [score|e].
    + eexists. split; [reflexivity | apply clamp_range].
    + eexists. split; [reflexivity|]. split; discriminate.
  - eexists. split; [reflexivity|]. split; discriminate.
Qed.

End MatrixFacts.

Section MatrixExamples.
Import PyStr Py Agents CrossEvaluator ExamplesAgents.

(** C5 as stated: an out-of-range result of [evaluate] is replaced by 50.0.
    It fails for an evaluator that returns 150.0: the cell holds 150.0. *)
Lemma out_of_range_score_is_kept :
  ~ (forall (agents : list BaseAgent) (original_prompt : string)
            (responses : list AgentResponse) (i : nat) (r : AgentResponse)
            (agent : BaseAgent) (score : Q) (row : scores_dict),
       NoDup (map name agents) ->
       agent ∈ agents ->
       responses !! i = Some r ->
       lower (name agent) <> lower (agent_name r) ->
       evaluate agent original_prompt r (others i responses) = Ok score ->
       ~ (0 <= score /\ score <= 100)%Q ->
       _create_evaluation_matrix agents original_prompt responses !! i = Some row ->
       dict_get row (name agent) = Some (50 # 1)).
Proof.
  intros H.
  specialize (H [judge] "sort a list" [answer "Alice"; answer "Bob"] 0
                (answer "Alice") judge (150 # 1) [("Judge", 150 # 1)]).
  assert (dict_get [("Judge", 150 # 1)] (name judge) = Some (50 # 1)) as Hbad.
  { apply H.
    - repeat constructor. intros Hin. inversion Hin.
    - apply list_elem_of_singleton. reflexivity.
    - reflexivity.
    - vm_compute. discriminate.
    - reflexivity.
    - intros [_ Hle]. vm_compute in Hle. apply Hle. reflexivity.
    - vm_compute. reflexivity. }
  vm_compute in Hbad. discriminate Hbad.
Qed.

(** The answer 150 of the service behind an API agent reaches the matrix
    as 100, not as 50. *)
Example api_agent_clamps :
  _create_evaluation_matrix [gpt] "sort a list" [answer "Alice"; answer "Bob"] !! 0
  = Some [("GPT-4", 100 # 1)].
Proof. vm_compute. reflexivity. Qed.

(** An evaluator that raises, next to one that answers. *)
Lemma matrix_cell_witness :
  NoDup (map name [claude; broken]) /\
  broken ∈ [claude; broken] /\
  [answer "Claude"; answer "Bob"] !! 1 = Some (answer "Bob") /\
  lower (name broken) <> lower (agent_name (answer "Bob")) /\
  (forall j, j < length [answer "Claude"; answer "Bob"] ->
     is_Some (_create_evaluation_matrix [claude; broken] "sort a list"
                [answer "Claude"; answer "Bob"] !! j)) /\
  exists row,
    _create_evaluation_matrix [claude; broken] "sort a list"
      [answer "Claude"; answer "Bob"] !! 1 = Some row /\
    (forall e, evaluate broken "sort a list" (answer "Bob")
                 (others 1 [answer "Claude"; answer "Bob"]) = Raise e ->
       dict_get row (name broken) = Some (50 # 1)) /\
    (forall score, evaluate broken "sort a list" (answer "Bob")
                 (others 1 [answer "Claude"; answer "Bob"]) = Ok score ->
       dict_get row (name broken) = Some score).
Proof.
  assert (NoDup (map name [claude; broken])) as Hnd.
  { simpl. repeat constructor.
    - intros Hin. apply list_elem_of_singleton in Hin. discriminate Hin.
    - intros Hin. inversion Hin. }
  assert (broken ∈ [claude; broken]) as Hin
    by (apply elem_of_cons; right; apply list_elem_of_singleton; reflexivity).
  assert (lower (name broken) <> lower (agent_name (answer "Bob"))) as Hne
    by (vm_compute; discriminate).
  split; [exact Hnd|]. split; [exact Hin|]. split; [reflexivity|]. split; [exact Hne|].
  exact (matrix_cell_is_returned_score_or_neutral [claude; broken] "sort a list"
           [answer "Claude"; answer "Bob"] 1 (answer "Bob") broken
           Hnd Hin eq_refl Hne).
Defined.

End MatrixExamples.

Section RankingFacts.
Import PyStr Py Agents CrossEvaluator.


Lemma insert_desc_perm (x : EvaluationResult) (l : list EvaluationResult) :
  insert_desc x l ≡ₚ x :: l.
Proof.
  induction l as [|y l IH]; simpl; [reflexivity|].
  destruct (Qle_bool _ _); [reflexivity|].
  rewrite IH. apply Permutation_swap.
Qed.

Lemma sort_desc_perm (l : list EvaluationResult) : sort_desc l ≡ₚ l.
Proof.
  induction l as [|x l IH]; simpl; [reflexivity|].
  rewrite insert_desc_perm, IH. reflexivity.
Qed.

Lemma insert_desc_sorted (x : EvaluationResult) (l : list EvaluationResult) :
  StronglySorted desc l -> StronglySorted desc (insert_desc x l).
Proof.
  induction l as [|y l IH]; intros Hs; simpl.
  - repeat constructor.
  - apply StronglySorted_inv in Hs as [Hs Hy].
    destruct (Qle_bool (average_score y) (average_score x)) eqn:E.
    + apply Qle_bool_iff in E. constructor; [constructor; assumption|].
      constructor; [exact E|].
      eapply Forall_impl; [exact Hy|]. intros z Hz. unfold desc in *.
      eapply Qle_trans; eassumption.
    + apply Qle_bool_false in E. constructor; [apply IH; exact Hs|].
      rewrite insert_desc_perm. constructor; [|exact Hy].
      apply Qlt_le_weak. exact E.
Qed.

Lemma sort_desc_sorted (l : list EvaluationResult) : StronglySorted desc (sort_desc l).
Proof.
  induction l as [|x l IH]; simpl; [constructor | apply insert_desc_sorted; exact IH].
Qed.

(** Stability: among the results of one average the order is untouched. *)
Lemma insert_desc_stable (q : Q) (x : EvaluationResult) (l : list EvaluationResult) :
  List.filter (has_average q) (insert_desc x l) = List.filter (has_average q) (x :: l).
Proof.
  induction l as [|y l IH]; [reflexivity|].
  cbn [insert_desc].
  destruct (Qle_bool (average_score y) (average_score x)) eqn:E; [reflexivity|].
  apply Qle_bool_false in E.
  cbn [List.filter] in *. rewrite IH.
  destruct (has_average q x) eqn:Hx; [|reflexivity].
  destruct (has_average q y) eqn:Hy; [|reflexivity].
  exfalso. unfold has_average in *.
  apply Qeq_bool_iff in Hx, Hy. rewrite Hx, Hy in E.
  exact (Qlt_irrefl _ E).
Qed.

Lemma sort_desc_stable (q : Q) (l : list EvaluationResult) :
  List.filter (has_average q) (sort_desc l) = List.filter (has_average q) l.
Proof.
  induction l as [|x l IH]; [reflexivity|].
  cbn [sort_desc]. rewrite insert_desc_stable. cbn [List.filter]. rewrite IH. reflexivity.
Qed.


Lemma filter_sublist {A : Type} (f : A -> bool) (l : list A) :
  List.filter f l `sublist_of` l.
Proof.
  induction l as [|x l IH]; simpl; [constructor|].
  destruct (f x); [apply sublist_skip | apply sublist_cons]; exact IH.
Qed.

Lemma map_sublist {A B : Type} (f : A -> B) (l k : list A) :
  l `sublist_of` k -> map f l `sublist_of` map f k.
Proof.
  induction 1; simpl; [constructor | apply sublist_skip | apply sublist_cons]; assumption.
Qed.

Lemma sorted_lookup {A : Type} (R : A -> A -> Prop) (l : list A) (i j : nat) (a b : A) :
  StronglySorted R l -> i < j -> l !! i = Some a -> l !! j = Some b -> R a b.
Proof.
  intros Hs. revert i j. induction Hs as [|x l Hs IH Hx]; intros i j Hij Ha Hb.
  - rewrite lookup_nil in Ha. discriminate.
  - destruct j as [|j]; [lia|]. destruct i as [|i]; simpl in *.
    + injection Ha as <-. rewrite Forall_forall in Hx. apply Hx.
      eapply list_elem_of_lookup_2. exact Hb.
    + eapply IH; [|exact Ha|exact Hb]. lia.
Qed.


Lemma rank_from_length (k : nat) (l : list EvaluationResult) :
  length (rank_from k l) = length l.
Proof. revert k. induction l as [|x l IH]; intros k; simpl; [reflexivity | now rewrite IH]. Qed.

Lemma rank_from_ranks (k : nat) (l : list EvaluationResult) :
  map rank (rank_from k l) = seq k (length l).
Proof. revert k. induction l as [|x l IH]; intros k; simpl; [reflexivity | now rewrite IH]. Qed.

Lemma rank_from_response (k : nat) (l : list EvaluationResult) :
  map response (rank_from k l) = map response l.
Proof. revert k. induction l as [|x l IH]; intros k; simpl; [reflexivity | now rewrite IH]. Qed.

Lemma rank_from_forall_desc (x : EvaluationResult) (j k : nat) (l : list EvaluationResult) :
  Forall (desc x) l -> Forall (desc (set_rank j x)) (rank_from k l).
Proof.
  revert k. induction l as [|y l IH]; intros k Hf; simpl; [constructor|].
  apply Forall_cons in Hf as [Hy Hf]. constructor; [exact Hy | apply IH; exact Hf].
Qed.

Lemma rank_from_sorted (k : nat) (l : list EvaluationResult) :
  StronglySorted desc l -> StronglySorted desc (rank_from k l).
Proof.
  intros Hs. revert k. induction Hs as [|x l Hs IH Hx]; intros k; simpl; constructor.
  - apply IH.
  - apply rank_from_forall_desc. exact Hx.
Qed.

Lemma rank_from_filter (q : Q) (k : nat) (l : list EvaluationResult) :
  map response (List.filter (has_average q) (rank_from k l))
  = map response (List.filter (has_average q) l).
Proof.
  revert k. induction l as [|x l IH]; intros k; simpl; [reflexivity|].
  change (has_average q (set_rank k x)) with (has_average q x).
  destruct (has_average q x); simpl; now rewrite IH.
Qed.

Lemma imap_response (g : nat -> AgentResponse -> EvaluationResult)
    (l : list AgentResponse) :
  (forall i r, response (g i r) = r) -> map response (imap g l) = l.
Proof.
  revert g. induction l as [|x l IH]; intros g Hg; [reflexivity|].
  rewrite imap_cons. simpl. rewrite Hg. f_equal. apply IH. intros i r. apply Hg.
Qed.

Lemma calculate_results_response (responses : list AgentResponse)
    (m : gmap nat scores_dict) :
  map response (_calculate_results responses m) = responses.
Proof. unfold _calculate_results. apply imap_response. reflexivity. Qed.

(** C2.  [evaluate_responses] returns one result per response; the ranks
    are 1, 2, ..., N in the order of the list; the responses are those
    given, reordered; the averages descend along the list; results with
    equal averages keep the order in which their responses were given; so
    a better rank never has a lower average. *)
Theorem evaluate_responses_fully_ranked
    (agents : list BaseAgent) (original_prompt : string)
    (responses : list AgentResponse) :
  let out := evaluate_responses agents original_prompt responses in
  length out = length responses /\
  map rank out = seq 1 (length responses) /\
  map response out ≡ₚ responses /\
  StronglySorted desc out /\
  (forall q, map response (List.filter (has_average q) out) `sublist_of` responses) /\
  (forall i j a b, out !! i = Some a -> out !! j = Some b ->
     rank a < rank b -> (average_score b <= average_score a)%Q).
Proof.
  intros out.
  assert (length out = length responses /\
          map rank out = seq 1 (length responses) /\
          map response out ≡ₚ responses /\
          StronglySorted desc out /\
          (forall q, map response (List.filter (has_average q) out) `sublist_of` responses))
    as (Hlen & Hrank & Hperm & Hsort & Hstable).
  { subst out. destruct responses as [|r1 [|r2 rest]].
    - simpl. split; [reflexivity|]. split; [reflexivity|]. split; [reflexivity|].
      split; [constructor|]. intros q. constructor.
    - simpl. split; [reflexivity|]. split; [reflexivity|]. split; [reflexivity|].
      split; [repeat constructor|].
      intros q. destruct (has_average q _); simpl; [reflexivity | apply sublist_nil_l].
    - set (responses := r1 :: r2 :: rest).
      change (evaluate_responses agents original_prompt responses)
        with (assign_ranks (sort_desc (_calculate_results responses
                (_create_evaluation_matrix agents original_prompt responses)))).
      set (calc := _calculate_results responses _).
      assert (map response calc = responses) as Hcalc
        by apply calculate_results_response.
      assert (length calc = length responses) as Hcl
        by (rewrite <- Hcalc; now rewrite length_map).
      unfold assign_ranks. split; [|split; [|split; [|split]]].
      + rewrite rank_from_length, (Permutation_length (sort_desc_perm calc)). exact Hcl.
      + rewrite rank_from_ranks, (Permutation_length (sort_desc_perm calc)), Hcl. reflexivity.
      + rewrite rank_from_response, (sort_desc_perm calc), Hcalc. reflexivity.
      + apply rank_from_sorted, sort_desc_sorted.
      + intros q. rewrite rank_from_filter, sort_desc_stable.
        rewrite <- Hcalc. apply map_sublist, filter_sublist. }
  repeat (split; [assumption|]).
  intros i j a b Ha Hb Hlt.
  assert (rank a = S i /\ rank b = S j) as [Ra Rb].
  { assert (forall k c, out !! k = Some c -> rank c = S k) as Hk.
    { intros k c Hc.
      assert (map rank out !! k = Some (rank c)) as H1
        by (rewrite list_lookup_fmap, Hc; reflexivity).
      rewrite Hrank in H1. apply lookup_seq in H1 as [H1 _]. lia. }
    split; apply Hk; assumption. }
  eapply (sorted_lookup desc out i j a b); [exact Hsort | lia | exact Ha | exact Hb].
Qed.

End RankingFacts.

(** ** The file system *)

Section FsFacts.
Import PyStr Py Fs FsOps.

Lemma node_at_nonroot (fs : FS) (k : key) : k <> [] -> node_at fs k = fs !! k.
Proof. destruct k; [congruence | reflexivity]. Qed.

Lemma node_at_None (fs : FS) (k : key) : node_at fs k = None -> fs !! k = None /\ k <> [].
Proof. destruct k; [discriminate | intros H; split; [exact H | discriminate]]. Qed.

Lemma keeps_dirs_refl (fs : FS) : keeps_dirs fs fs.
Proof. intros k H. exact H. Qed.

Lemma keeps_dirs_trans (a b c : FS) : keeps_dirs a b -> keeps_dirs b c -> keeps_dirs a c.
Proof. intros H1 H2 k H. apply H2, H1, H. Qed.

Lemma node_at_insert_ne (fs : FS) (k k' : key) (n : node) :
  k <> k' -> node_at (<[k := n]> fs) k' = node_at fs k'.
Proof.
  intros Hne. destruct k' as [|c k']; [reflexivity|]. simpl.
  apply lookup_insert_ne. exact Hne.
Qed.

Lemma node_at_insert_eq (fs : FS) (k : key) (n : node) :
  k <> [] -> node_at (<[k := n]> fs) k = Some n.
Proof.
  intros Hne. rewrite node_at_nonroot by exact Hne. apply lookup_insert_eq.
Qed.

(** Writing a node where no directory stood keeps every directory. *)
Lemma keeps_dirs_insert (fs : FS) (k : key) (n : node) :
  node_at fs k <> Some Dir -> keeps_dirs fs (<[k := n]> fs).
Proof.
  intros Hk k' Hd. destruct (decide (k = k')) as [<-|Hne]; [congruence|].
  rewrite node_at_insert_ne by exact Hne. exact Hd.
Qed.

Lemma keeps_dirs_delete (fs : FS) (k : key) :
  node_at fs k <> Some Dir -> keeps_dirs fs (delete k fs).
Proof.
  intros Hk k' Hd. destruct (decide (k = k')) as [<-|Hne]; [congruence|].
  destruct k' as [|c k']; [reflexivity|]. simpl in *.
  rewrite lookup_delete_ne by exact Hne. exact Hd.
Qed.

Lemma grows_refl (fs : FS) : grows fs fs.
Proof. intros k. left. reflexivity. Qed.

Lemma grows_trans (a b c : FS) : grows a b -> grows b c -> grows a c.
Proof.
  intros H1 H2 k. destruct (H2 k) as [E2|[N2 D2]], (H1 k) as [E1|[N1 D1]].
  - left. congruence.
  - right. split; congruence.
  - right. split; congruence.
  - congruence.
Qed.

Lemma grows_keeps_dirs (fs fs' : FS) : grows fs fs' -> keeps_dirs fs fs'.
Proof.
  intros Hg k Hd. destruct k as [|c k]; [reflexivity|]. simpl in *.
  destruct (Hg (c :: k)) as [E|[N _]]; congruence.
Qed.

Lemma grows_insert_dir (fs : FS) (k : key) :
  fs !! k = None -> grows fs (<[k := Dir]> fs).
Proof.
  intros Hk k'. destruct (decide (k = k')) as [<-|Hne].
  - right. split; [exact Hk | apply lookup_insert_eq].
  - left. apply lookup_insert_ne. exact Hne.
Qed.

(** Resolution only looks at directories, so it survives any change that
    keeps them. *)
Lemma walk_keeps (fs fs' : FS) (cur : key) (comps : list string) (k : key) :
  keeps_dirs fs fs' -> walk fs cur comps = Ok k -> walk fs' cur comps = Ok k.
Proof.
  intros Hk. revert cur. induction comps as [|c rest IH]; intros cur; simpl.
  - trivial.
  - destruct (node_at fs cur) as [[d|]|] eqn:E; try discriminate.
    rewrite (Hk _ E). destruct (String.eqb c ".."); apply IH.
Qed.

Lemma resolve_keeps (fs fs' : FS) (p : path) (k : key) :
  keeps_dirs fs fs' -> resolve fs p = Ok k -> resolve fs' p = Ok k.
Proof. apply walk_keeps. Qed.

Lemma is_dir_inv (p : path) (fs : FS) :
  is_dir p fs = true <-> exists k, resolve fs p = Ok k /\ node_at fs k = Some Dir.
Proof.
  unfold is_dir, stat. destruct (resolve fs p) as [k|e]; simpl.
  - destruct (node_at fs k) as [[d|]|] eqn:E.
    + split; [discriminate | intros (k' & [= <-] & H); congruence].
    + split; [intros _; exists k; split; [reflexivity | exact E] | reflexivity].
    + split; [discriminate | intros (k' & [= <-] & H); congruence].
  - split; [discriminate | intros (k & H & _); discriminate H].
Qed.

Lemma is_dir_keeps (fs fs' : FS) (p : path) :
  keeps_dirs fs fs' -> is_dir p fs = true -> is_dir p fs' = true.
Proof.
  intros Hk Hd. apply is_dir_inv in Hd as (k & Hr & Hn).
  apply is_dir_inv. exists k. split; [eapply resolve_keeps; eassumption | apply Hk, Hn].
Qed.

(** ** [os.mkdir] and [Path.mkdir] *)

Lemma os_mkdir_ok (p : path) (fs fs' : FS) :
  os_mkdir p fs = (Ok tt, fs') ->
  exists k, resolve fs p = Ok k /\ fs !! k = None /\ k <> [] /\ fs' = <[k := Dir]> fs.
Proof.
  unfold os_mkdir. destruct (resolve fs p) as [k|e]; [|discriminate].
  destruct (node_at fs k) as [n|] eqn:E; [discriminate|].
  apply node_at_None in E as [E Hk].
  intros [= <-]. exists k. auto.
Qed.

Lemma os_mkdir_raise (p : path) (fs fs' : FS) (e : exn) :
  os_mkdir p fs = (Raise e, fs') -> fs' = fs.
Proof.
  unfold os_mkdir. destruct (resolve fs p) as [k|e0]; [|congruence].
  destruct (node_at fs k) as [n|]; [congruence|]. discriminate.
Qed.

Lemma os_mkdir_post (p : path) (fs fs' : FS) :
  os_mkdir p fs = (Ok tt, fs') -> grows fs fs' /\ is_dir p fs' = true.
Proof.
  intros H. apply os_mkdir_ok in H as (k & Hr & Hk & Hne & ->).
  split; [apply grows_insert_dir; exact Hk|].
  apply is_dir_inv. exists k. split.
  - eapply resolve_keeps; [|exact Hr]. apply grows_keeps_dirs, grows_insert_dir, Hk.
  - apply node_at_insert_eq, Hne.
Qed.

Lemma mkdir_exist_ok_post (p : path) (fs fs' : FS) :
  mkdir_exist_ok p fs = (Ok tt, fs') -> grows fs fs' /\ is_dir p fs' = true.
Proof.
  unfold mkdir_exist_ok, try_except.
  destruct (os_mkdir p fs) as [[[]|e] fs1] eqn:E.
  - intros [= <-]. apply os_mkdir_post. exact E.
  - apply os_mkdir_raise in E as ->.
    destruct (is_not_found e); [discriminate|].
    unfold mbind, gets. destruct (is_dir p fs) eqn:D; [|discriminate].
    intros [= <-]. split; [apply grows_refl | exact D].
Qed.

Lemma mkdir_exist_ok_grows (p : path) (fs fs' : FS) (r : result unit) :
  mkdir_exist_ok p fs = (r, fs') -> grows fs fs'.
Proof.
  unfold mkdir_exist_ok, try_except.
  destruct (os_mkdir p fs) as [[[]|e] fs1] eqn:E.
  - intros [= <- <-]. apply (proj1 (os_mkdir_post _ _ _ E)).
  - apply os_mkdir_raise in E as ->.
    destruct (is_not_found e); [intros [= <- <-]; apply grows_refl|].
    unfold mbind, gets. destruct (is_dir p fs); intros [= <- <-]; apply grows_refl.
Qed.

Lemma mkdir_parents_go_grows (fuel : nat) (p : path) (fs fs' : FS) (r : result unit) :
  mkdir_parents_go fuel p fs = (r, fs') -> grows fs fs'.
Proof.
  revert p fs fs' r. induction fuel as [|fuel IH]; intros p fs fs' r; simpl;
    unfold try_except.
  - destruct (os_mkdir p fs) as [[[]|e] fs1] eqn:E.
    + intros [= <- <-]. apply (proj1 (os_mkdir_post _ _ _ E)).
    + apply os_mkdir_raise in E as ->.
      destruct (is_not_found e); [intros [= <- <-]; apply grows_refl|].
      unfold mbind, gets. destruct (is_dir p fs); intros [= <- <-]; apply grows_refl.
  - destruct (os_mkdir p fs) as [[[]|e] fs1] eqn:E.
    + intros [= <- <-]. apply (proj1 (os_mkdir_post _ _ _ E)).
    + apply os_mkdir_raise in E as ->.
      destruct (is_not_found e).
      * destruct (parts p) as [|c cs]; [intros [= <- <-]; apply grows_refl|].
        unfold mbind.
        destruct (mkdir_parents_go fuel (parent p) fs) as [[[]|e1] fs1] eqn:E1.
        -- intros H. eapply grows_trans; [eapply IH; exact E1|].
           eapply mkdir_exist_ok_grows; exact H.
        -- intros [= <- <-]. eapply IH; exact E1.
      * unfold mbind, gets. destruct (is_dir p fs); intros [= <- <-]; apply grows_refl.
Qed.

Lemma mkdir_parents_go_post (fuel : nat) (p : path) (fs fs' : FS) :
  mkdir_parents_go fuel p fs = (Ok tt, fs') -> is_dir p fs' = true.
Proof.
  destruct fuel as [|fuel]; simpl; unfold try_except.
  - destruct (os_mkdir p fs) as [[[]|e] fs1] eqn:E.
    + intros [= <-]. apply os_mkdir_post in E. apply E.
    + apply os_mkdir_raise in E as ->.
      destruct (is_not_found e); [discriminate|].
      unfold mbind, gets. destruct (is_dir p fs) eqn:D; [|discriminate].
      intros [= <-]. exact D.
  - destruct (os_mkdir p fs) as [[[]|e] fs1] eqn:E.
    + intros [= <-]. apply os_mkdir_post in E. apply E.
    + apply os_mkdir_raise in E as ->.
      destruct (is_not_found e).
      * destruct (parts p) as [|c cs]; [discriminate|].
        unfold mbind.
        destruct (mkdir_parents_go fuel (parent p) fs) as [[[]|e1] fs1]; [|discriminate].
        intros H. apply mkdir_exist_ok_post in H. apply H.
      * unfold mbind, gets. destruct (is_dir p fs) eqn:D; [|discriminate].
        intros [= <-]. exact D.
Qed.

(** What [mkdir(parents=True, exist_ok=True)] leaves behind: only
    directories are added, also when it raises, and after a success the
    path is a directory. *)
Lemma mkdir_parents_grows (p : path) (fs fs' : FS) (r : result unit) :
  mkdir_parents p fs = (r, fs') -> grows fs fs'.
Proof. apply mkdir_parents_go_grows. Qed.

Lemma mkdir_parents_post (p : path) (fs fs' : FS) :
  mkdir_parents p fs = (Ok tt, fs') -> is_dir p fs' = true.
Proof. apply mkdir_parents_go_post. Qed.

(** On an existing directory it does nothing. *)
Lemma mkdir_parents_existing (p : path) (fs : FS) :
  is_dir p fs = true -> mkdir_parents p fs = (Ok tt, fs).
Proof.
  intros D. pose proof D as D'. apply is_dir_inv in D' as (k & Hr & Hn).
  assert (os_mkdir p fs = (Raise FileExistsError, fs)) as E
    by (unfold os_mkdir; rewrite Hr, Hn; reflexivity).
  unfold mkdir_parents.
  destruct (length (parts p)); simpl; unfold try_except; rewrite E; simpl;
    unfold mbind, gets; rewrite D; reflexivity.
Qed.

End FsFacts.

(** ** The diff engine *)

Section ApplyFacts.
Import PyStr Py Fs FsOps CodeParser DiffGenerator.

Lemma record_merge (p : string) (o : result outcome) (acc : Results) :
  record p o acc = merge acc (record p o no_results).
Proof.
  destruct o as [[]|e]; unfold merge, record; simpl; rewrite ?app_nil_r; reflexivity.
Qed.

Lemma merge_assoc (a b c : Results) : merge (merge a b) c = merge a (merge b c).
Proof. unfold merge; simpl. rewrite <- !app_assoc. reflexivity. Qed.

Lemma merge_no_results_l (a : Results) : merge no_results a = a.
Proof. destruct a; reflexivity. Qed.

Lemma merge_no_results_r (a : Results) : merge a no_results = a.
Proof. destruct a; unfold merge; simpl. rewrite !app_nil_r. reflexivity. Qed.

(** The loop only ever appends to the lists it was given. *)
Lemma apply_loop_acc (wd : path) (dry_run : bool) (diffs : list FileDiff)
    (acc : Results) (fs : FS) :
  apply_loop wd dry_run diffs acc fs
  = (merge acc (fst (apply_loop wd dry_run diffs no_results fs)),
     snd (apply_loop wd dry_run diffs no_results fs)).
Proof.
  revert acc fs. induction diffs as [|d ds IH]; intros acc fs; simpl.
  - rewrite merge_no_results_r. reflexivity.
  - destruct (apply_one wd dry_run d fs) as [o fs1].
    rewrite (IH (record _ o acc)), (IH (record _ o no_results)). simpl.
    rewrite (record_merge _ o acc), merge_assoc. reflexivity.
Qed.

Lemma apply_changes_cons (wd : path) (dry_run : bool) (d : FileDiff)
    (ds : list FileDiff) (fs : FS) :
  apply_changes wd (d :: ds) dry_run fs
  = (merge (record (file_path d) (fst (apply_one wd dry_run d fs)) no_results)
           (fst (apply_changes wd ds dry_run (snd (apply_one wd dry_run d fs)))),
     snd (apply_changes wd ds dry_run (snd (apply_one wd dry_run d fs)))).
Proof.
  unfold apply_changes. simpl.
  destruct (apply_one wd dry_run d fs) as [o fs1]. simpl.
  apply apply_loop_acc.
Qed.

(** Applying a list of diffs is applying a first part and then the rest on
    the file system the first part left, whatever failed in the first
    part. *)
Lemma apply_changes_app (wd : path) (dry_run : bool) (ds1 ds2 : list FileDiff) (fs : FS) :
  apply_changes wd (ds1 ++ ds2) dry_run fs
  = (merge (fst (apply_changes wd ds1 dry_run fs))
           (fst (apply_changes wd ds2 dry_run (snd (apply_changes wd ds1 dry_run fs)))),
     snd (apply_changes wd ds2 dry_run (snd (apply_changes wd ds1 dry_run fs)))).
Proof.
  revert fs. induction ds1 as [|d ds1 IH]; intros fs.
  - simpl. rewrite merge_no_results_l. destruct (apply_changes wd ds2 dry_run fs); reflexivity.
  - rewrite <- app_comm_cons, !apply_changes_cons, IH. simpl.
    rewrite merge_assoc. reflexivity.
Qed.

Lemma reported_merge (a b : Results) :
  reported (merge a b) ≡ₚ reported a ++ reported b.
Proof.
  unfold reported, merge; simpl. rewrite !map_app. solve_Permutation.
Qed.

(** Every diff is reported exactly once. *)
Lemma apply_changes_reports_all (wd : path) (dry_run : bool) (diffs : list FileDiff) (fs : FS) :
  reported (fst (apply_changes wd diffs dry_run fs)) ≡ₚ map file_path diffs.
Proof.
  revert fs. induction diffs as [|d ds IH]; intros fs.
  - reflexivity.
  - rewrite apply_changes_cons. simpl fst. rewrite reported_merge, IH.
    destruct (fst (apply_one wd dry_run d fs)) as [[]|e]; reflexivity.
Qed.

Lemma apply_one_dry (wd : path) (d : FileDiff) (fs : FS) :
  apply_one wd true d fs = (Ok Succeeded, fs).
Proof. reflexivity. Qed.

Lemma apply_changes_dry_fs (wd : path) (diffs : list FileDiff) (fs : FS) :
  snd (apply_changes wd diffs true fs) = fs.
Proof.
  revert fs. induction diffs as [|d ds IH]; intros fs; [reflexivity|].
  rewrite apply_changes_cons. simpl. apply IH.
Qed.


Lemma apply_one_delete (wd : path) (d : FileDiff) (fs fs1 : FS) :
  operation d = DELETE ->
  mkdir_parents (parent (target wd d)) fs = (Ok tt, fs1) ->
  apply_one wd false d fs
  = if exists_ (target wd d) fs1
    then (let! _ := unlink (target wd d) in ret Succeeded) fs1
    else (Ok Skipped, fs1).
Proof.
  intros Hop H. unfold apply_one. fold (target wd d). unfold mbind at 1.
  rewrite H, Hop. unfold mbind at 1, gets.
  destruct (exists_ (target wd d) fs1); reflexivity.
Qed.

Lemma apply_one_write (wd : path) (d : FileDiff) (fs fs1 : FS) :
  operation d <> DELETE ->
  mkdir_parents (parent (target wd d)) fs = (Ok tt, fs1) ->
  apply_one wd false d fs
  = (let! _ := write_text (target wd d) (content_or_empty (new_content d)) in
     ret Succeeded) fs1.
Proof.
  intros Hop H. unfold apply_one. fold (target wd d). unfold mbind at 1.
  rewrite H. destruct (operation d); try reflexivity. congruence.
Qed.

Lemma unlink_ok_inv (p : path) (fs fs' : FS) :
  unlink p fs = (Ok tt, fs') ->
  exists k, node_at fs k <> Some Dir /\ fs' = delete k fs.
Proof.
  unfold unlink. destruct (resolve fs p) as [k|e]; [|discriminate].
  destruct (node_at fs k) as [[data|]|] eqn:E; try discriminate.
  intros [= <-]. exists k. split; [congruence | reflexivity].
Qed.

Lemma unlink_raise (p : path) (fs fs' : FS) (e : exn) :
  unlink p fs = (Raise e, fs') -> fs' = fs.
Proof.
  unfold unlink. destruct (resolve fs p) as [k|e0]; [|congruence].
  destruct (node_at fs k) as [[data|]|]; congruence.
Qed.

Lemma write_text_ok_inv (p : path) (data : string) (fs fs' : FS) :
  write_text p data fs = (Ok tt, fs') ->
  exists k, resolve fs p = Ok k /\ node_at fs k <> Some Dir /\ fs' = <[k := File data]> fs.
Proof.
  unfold write_text. destruct (resolve fs p) as [k|e]; [|discriminate].
  destruct (node_at fs k) as [[d|]|] eqn:E; try discriminate;
    intros [= <-]; exists k; (split; [reflexivity|]); (split; [congruence | reflexivity]).
Qed.


End ApplyFacts.

Section ApplyTheorems.
Import PyStr Py Fs FsOps CodeParser DiffGenerator ExamplesFs.

Lemma walk_app (fs : FS) (cur : key) (a b : list string) :
  walk fs cur (a ++ b) = let* k := walk fs cur a in walk fs k b.
Proof.
  revert cur. induction a as [|c a IH]; intros cur; simpl; [reflexivity|].
  destruct (node_at fs cur) as [[d|]|]; try reflexivity.
  destruct (String.eqb c ".."); apply IH.
Qed.

Lemma app_removelast_last_str (l : list string) :
  l <> [] -> l = removelast l ++ [List.last l EmptyString].
Proof. apply app_removelast_last. Qed.

(** A path whose parent is a directory resolves. *)
Lemma resolve_of_parent (p : path) (fs : FS) :
  is_dir (parent p) fs = true -> exists k, resolve fs p = Ok k.
Proof.
  intros D. apply is_dir_inv in D as (kp & Hr & Hn).
  unfold resolve in *. cbn [parent parts] in Hr.
  destruct (parts p) as [|c cs] eqn:E; [exists []; reflexivity|].
  rewrite (app_removelast_last_str (c :: cs)) by discriminate.
  rewrite walk_app, Hr. cbn [Py.bind walk]. rewrite Hn.
  destruct (String.eqb _ ".."); eexists; reflexivity.
Qed.

Lemma exists_false_inv (p : path) (fs : FS) (k : key) :
  resolve fs p = Ok k -> exists_ p fs = false -> node_at fs k = None.
Proof.
  unfold exists_, stat. intros ->. simpl.
  destruct (node_at fs k); [discriminate | reflexivity].
Qed.

Lemma exists_false_intro (p : path) (fs : FS) (k : key) :
  resolve fs p = Ok k -> node_at fs k = None -> exists_ p fs = false.
Proof. unfold exists_, stat. intros -> H. simpl. rewrite H. reflexivity. Qed.

Lemma is_dir_false_inv (p : path) (fs : FS) (k : key) :
  resolve fs p = Ok k -> is_dir p fs = false -> node_at fs k <> Some Dir.
Proof.
  unfold is_dir, stat. intros ->. simpl. intros H E. rewrite E in H. discriminate.
Qed.

Lemma write_text_ok (p : path) (data : string) (fs : FS) (k : key) :
  resolve fs p = Ok k -> node_at fs k <> Some Dir ->
  write_text p data fs = (Ok tt, <[k := File data]> fs).
Proof.
  intros Hr Hn. unfold write_text. rewrite Hr.
  destruct (node_at fs k) as [[d|]|]; try reflexivity. congruence.
Qed.

Lemma read_after_write (p : path) (data : string) (fs : FS) (k : key) :
  resolve fs p = Ok k -> node_at fs k <> Some Dir ->
  read_bytes p (<[k := File data]> fs) = (Ok data, <[k := File data]> fs).
Proof.
  intros Hr Hn. unfold read_bytes, query, stat.
  rewrite (resolve_keeps fs _ p k (keeps_dirs_insert fs k _ Hn) Hr). simpl.
  destruct k as [|c k]; [exfalso; apply Hn; reflexivity|].
  rewrite node_at_insert_eq by discriminate. reflexivity.
Qed.

(** A Create in an existing directory, onto a path that is not a
    directory. *)
Lemma apply_one_create_ok (wd : path) (c : FileDiff) (fs : FS) (k : key) :
  operation c <> DELETE ->
  is_dir (parent (target wd c)) fs = true ->
  resolve fs (target wd c) = Ok k ->
  node_at fs k <> Some Dir ->
  apply_one wd false c fs
  = (Ok Succeeded, <[k := File (content_or_empty (new_content c))]> fs).
Proof.
  intros Hop D Hr Hn.
  rewrite (apply_one_write wd c fs fs Hop (mkdir_parents_existing _ _ D)).
  unfold mbind. rewrite (write_text_ok _ _ _ _ Hr Hn). reflexivity.
Qed.

(** A Delete, in an existing directory, of a path that does not exist. *)
Lemma apply_one_delete_absent (wd : path) (d : FileDiff) (fs : FS) :
  operation d = DELETE ->
  is_dir (parent (target wd d)) fs = true ->
  exists_ (target wd d) fs = false ->
  apply_one wd false d fs = (Ok Skipped, fs).
Proof.
  intros Hop D He.
  rewrite (apply_one_delete wd d fs fs Hop (mkdir_parents_existing _ _ D)), He.
  reflexivity.
Qed.

(** Scenario C when the parents of both targets exist; the paths may then
    contain [..]. *)
Lemma scenario_C_existing_parents
    (wd : path) (c d : FileDiff) (diffs : list FileDiff) (fs : FS) :
  diffs = [c; d] \/ diffs = [d; c] ->
  operation c = CREATE ->
  operation d = DELETE ->
  is_dir (parent (target wd c)) fs = true ->
  is_dir (parent (target wd d)) fs = true ->
  is_dir (target wd c) fs = false ->
  exists_ (target wd d) fs = false ->
  resolve fs (target wd c) <> resolve fs (target wd d) ->
  exists fs',
    apply_changes wd diffs false fs
    = (mkResults [file_path c] [] [file_path d], fs') /\
    read_bytes (target wd c) fs' = (Ok (content_or_empty (new_content c)), fs') /\
    exists_ (target wd d) fs' = false.
Proof.
  intros Hd Hc Hdel Dc Dd Nc Ed Hne.
  destruct (resolve_of_parent _ _ Dc) as [kc Hkc].
  destruct (resolve_of_parent _ _ Dd) as [kd Hkd].
  pose proof (is_dir_false_inv _ _ _ Hkc Nc) as Hnc.
  pose proof (exists_false_inv _ _ _ Hkd Ed) as Hnd.
  assert (kc <> kd) as Hk by (intros ->; apply Hne; congruence).
  assert (operation c <> DELETE) as Hc' by (rewrite Hc; discriminate).
  set (data := content_or_empty (new_content c)).
  set (fs' := <[kc := File data]> fs).
  assert (keeps_dirs fs fs') as Hkeep by (apply keeps_dirs_insert; exact Hnc).
  assert (exists_ (target wd d) fs' = false) as Ed'.
  { apply (exists_false_intro _ _ kd); [eapply resolve_keeps; eassumption|].
    unfold fs'. rewrite node_at_insert_ne by exact Hk. exact Hnd. }
  exists fs'. split; [|split].
  + destruct Hd as [-> | ->].
    * rewrite !apply_changes_cons.
      rewrite (apply_one_create_ok wd c fs kc Hc' Dc Hkc Hnc). cbn [fst snd].
      fold data. fold fs'.
      rewrite (apply_one_delete_absent wd d fs' Hdel (is_dir_keeps _ _ _ Hkeep Dd) Ed').
      reflexivity.
    * rewrite !apply_changes_cons.
      rewrite (apply_one_delete_absent wd d fs Hdel Dd Ed). cbn [fst snd].
      rewrite (apply_one_create_ok wd c fs kc Hc' Dc Hkc Hnc). reflexivity.
  + apply read_after_write; assumption.
  + exact Ed'.
Qed.

(** One diff in the middle of a list: what came before is done, the diff
    is recorded by its own outcome, what comes after is applied to the file
    system it left. *)
Lemma apply_changes_isolates
    (wd : path) (dry_run : bool) (before after : list FileDiff)
    (d : FileDiff) (fs : FS) :
  let '(r1, fs1) := apply_changes wd before dry_run fs in
  let '(o, fs2) := apply_one wd dry_run d fs1 in
  let '(r2, fs3) := apply_changes wd after dry_run fs2 in
  apply_changes wd (before ++ d :: after) dry_run fs
  = (merge r1 (merge (record (file_path d) o no_results) r2), fs3) /\
  (forall e, o = Raise e -> (file_path d, e) ∈ failed (record (file_path d) o no_results)).
Proof.
  pose proof (apply_changes_app wd dry_run before (d :: after) fs) as H.
  destruct (apply_changes wd before dry_run fs) as [r1 fs1]. cbn [fst snd] in H.
  rewrite apply_changes_cons in H.
  destruct (apply_one wd dry_run d fs1) as [o fs2]. cbn [fst snd] in H.
  destruct (apply_changes wd after dry_run fs2) as [r2 fs3]. cbn [fst snd] in H.
  split; [exact H|].
  intros e ->. simpl. apply list_elem_of_singleton. reflexivity.
Qed.

(** A failing diff between the two: the Create under a regular file fails,
    the Delete after it is still handled. *)
Example apply_changes_goes_on_after_a_failure :
  fst (apply_changes proj [create_new; create_under_file; delete_gone] false empty_tree)
  = mkResults ["new.py"] [("new.py/inner.py", FileExistsError)] ["gone.py"].
Proof. vm_compute. reflexivity. Qed.


(** A dry run leaves the file system alone. *)
Lemma dry_run_touches_nothing (wd : path) (diffs : list FileDiff) (fs : FS) :
  snd (apply_changes wd diffs true fs) = fs.
Proof. apply apply_changes_dry_fs. Qed.

End ApplyTheorems.

Section CleanPaths.
Import PyStr Py Fs FsOps.

Lemma walk_clean_inv (fs : FS) (cur : key) (comps : list string) (k : key) :
  clean comps -> walk fs cur comps = Ok k -> k = cur ++ comps.
Proof.
  intros Hc. revert cur. induction Hc as [|c rest Hne Hc IH]; intros cur; simpl.
  - intros [= <-]. rewrite app_nil_r. reflexivity.
  - destruct (node_at fs cur) as [[d|]|]; try discriminate.
    apply String.eqb_neq in Hne. rewrite Hne. intros H.
    rewrite (IH _ H), <- app_assoc. reflexivity.
Qed.

(** On a clean path with no regular file among the proper ancestors,
    resolution either arrives or reports a missing directory. *)
Lemma walk_clean_cases (fs : FS) (cur : key) (comps : list string) :
  clean comps ->
  (forall q, q `prefix_of` comps -> q <> comps -> no_file_at fs (cur ++ q)) ->
  walk fs cur comps = Ok (cur ++ comps) \/ walk fs cur comps = Raise FileNotFoundError.
Proof.
  intros Hc. revert cur. induction Hc as [|c rest Hne Hc IH]; intros cur Hq; simpl.
  - left. rewrite app_nil_r. reflexivity.
  - pose proof (Hq [] (prefix_nil _)) as H0. rewrite app_nil_r in H0.
    destruct (node_at fs cur) as [[d|]|] eqn:E.
    + exfalso. apply (H0 ltac:(discriminate) d). exact E.
    + apply String.eqb_neq in Hne. rewrite Hne.
      destruct (IH (cur ++ [c])) as [W|W].
      * intros q Hp Hn. rewrite <- app_assoc. apply Hq.
        -- apply prefix_cons. exact Hp.
        -- simpl. congruence.
      * left. rewrite W, <- app_assoc. reflexivity.
      * right. exact W.
    + right. reflexivity.
Qed.

Lemma removelast_prefix (k : key) : removelast k `prefix_of` k.
Proof.
  destruct k as [|c k] using rev_ind; [reflexivity|].
  rewrite removelast_last. apply prefix_app_r. reflexivity.
Qed.

Lemma not_prefix_removelast (k : key) : k <> [] -> ~ k `prefix_of` removelast k.
Proof.
  intros Hne Hp. apply prefix_length in Hp.
  destruct k as [|c k] using rev_ind; [congruence|].
  rewrite removelast_last, length_app in Hp. simpl in Hp. lia.
Qed.

Lemma removelast_len (k : key) : length (removelast k) = length k - 1.
Proof.
  destruct k as [|c k] using rev_ind; [reflexivity|].
  rewrite removelast_last, length_app. simpl. lia.
Qed.

Lemma removelast_neq (k : key) : k <> [] -> removelast k <> k.
Proof.
  intros Hne H. apply (not_prefix_removelast k Hne). rewrite H. reflexivity.
Qed.

Lemma clean_removelast (k : key) : clean k -> clean (removelast k).
Proof.
  intros Hc. destruct k as [|c k] using rev_ind; [exact Hc|].
  rewrite removelast_last. unfold clean in *. apply Forall_app in Hc. apply Hc.
Qed.

Lemma free_way_parent (fs : FS) (k : key) :
  free_way fs k -> k <> [] ->
  clean (removelast k) /\ forall q, q `prefix_of` removelast k -> no_file_at fs q.
Proof.
  intros [Hc Hf] Hne. split; [apply clean_removelast; exact Hc|].
  intros q Hq. apply Hf.
  - etransitivity; [exact Hq | apply removelast_prefix].
  - intros ->. exact (not_prefix_removelast k Hne Hq).
Qed.

Lemma is_dir_intro (p : path) (fs : FS) (k : key) :
  resolve fs p = Ok k -> node_at fs k = Some Dir -> is_dir p fs = true.
Proof. intros Hr Hn. apply is_dir_inv. eauto. Qed.

(** Making the directories of a clean path that no regular file blocks:
    it succeeds, adds directories only, and only along the path. *)
Lemma mkdir_parents_go_clean (fuel : nat) (p : path) (fs : FS) :
  length (parts p) <= fuel ->
  clean (parts p) ->
  (forall q, q `prefix_of` parts p -> no_file_at fs q) ->
  exists fs1,
    mkdir_parents_go fuel p fs = (Ok tt, fs1) /\
    grows fs fs1 /\
    (forall q, ~ q `prefix_of` parts p -> fs1 !! q = fs !! q).
Proof.
  revert p fs. induction fuel as [|fuel IH]; intros p fs Hlen Hc Hp.
  - destruct (parts p) as [|c cs] eqn:E; [|simpl in Hlen; lia].
    assert (os_mkdir p fs = (Raise FileExistsError, fs)) as M
      by (unfold os_mkdir, resolve; rewrite E; reflexivity).
    exists fs. split; [|split; [apply grows_refl | reflexivity]].
    simpl. unfold try_except. rewrite M. simpl. unfold mbind, gets.
    rewrite (is_dir_intro p fs []); [reflexivity | unfold resolve; rewrite E; reflexivity | reflexivity].
  - assert (forall q, q `prefix_of` parts p -> q <> parts p -> no_file_at fs ([] ++ q)) as Hp'
      by (intros q Hq _; apply Hp; exact Hq).
    destruct (walk_clean_cases fs [] (parts p) Hc Hp') as [W|W]; cbn [app] in W.
    + (* the path resolves: it is there, or only the last directory is missing *)
      destruct (node_at fs (parts p)) as [[d|]|] eqn:N.
      * exfalso. apply (Hp (parts p) ltac:(reflexivity) d). exact N.
      * assert (os_mkdir p fs = (Raise FileExistsError, fs)) as M
          by (unfold os_mkdir, resolve; rewrite W, N; reflexivity).
        exists fs. split; [|split; [apply grows_refl | reflexivity]].
        simpl. unfold try_except. rewrite M. simpl. unfold mbind, gets.
        rewrite (is_dir_intro p fs (parts p) W N). reflexivity.
      * assert (os_mkdir p fs = (Ok tt, <[parts p := Dir]> fs)) as M
          by (unfold os_mkdir, resolve; rewrite W, N; reflexivity).
        apply node_at_None in N as [N Hne].
        exists (<[parts p := Dir]> fs). split; [|split].
        -- simpl. unfold try_except. rewrite M. reflexivity.
        -- apply grows_insert_dir. exact N.
        -- intros q Hq. apply lookup_insert_ne. intros Heq. apply Hq. rewrite Heq. reflexivity.
    + (* a directory is missing on the way: make the parent, then the path *)
      assert (os_mkdir p fs = (Raise FileNotFoundError, fs)) as M
        by (unfold os_mkdir, resolve; rewrite W; reflexivity).
      destruct (parts p) as [|c cs] eqn:E; [discriminate W|].
      assert (parts p <> []) as Hne by (rewrite E; discriminate).
      destruct (IH (parent p) fs) as (fs1 & M1 & G1 & F1).
      { cbn [parent parts]. rewrite E.
        pose proof (removelast_len (c :: cs)) as L.
        rewrite L. simpl in Hlen |- *. lia. }
      { cbn [parent parts]. rewrite E. apply clean_removelast. exact Hc. }
      { cbn [parent parts]. rewrite E. intros q Hq. apply Hp.
        etransitivity; [exact Hq | apply removelast_prefix]. }
      cbn [parent parts] in F1. rewrite E in F1.
      pose proof (mkdir_parents_go_post _ _ _ _ M1) as D1.
      destruct (resolve_of_parent _ _ D1) as [k' R1].
      assert (k' = c :: cs) as ->
        by (unfold resolve in R1; rewrite E in R1;
            rewrite (walk_clean_inv _ _ _ _ Hc R1); reflexivity).
      assert (fs1 !! (c :: cs) = fs !! (c :: cs)) as Same
        by (apply F1; apply not_prefix_removelast; discriminate).
      cbn [mkdir_parents_go]. unfold try_except. rewrite M. cbn [is_not_found].
      rewrite E. unfold mbind at 1. rewrite M1.
      unfold mkdir_exist_ok, try_except.
      destruct (fs !! (c :: cs)) as [[d|]|] eqn:N.
      * exfalso. apply (Hp (c :: cs) ltac:(reflexivity) d). exact N.
      * assert (os_mkdir p fs1 = (Raise FileExistsError, fs1)) as M2
          by (unfold os_mkdir; rewrite R1; cbn [node_at]; rewrite Same; reflexivity).
        exists fs1. split; [|split; [exact G1|]].
        -- rewrite M2. cbn [is_not_found]. unfold mbind, gets.
           rewrite (is_dir_intro p fs1 (c :: cs) R1); [reflexivity|].
           cbn [node_at]. exact Same.
        -- intros q Hq. apply F1. intros Hq'. apply Hq.
           etransitivity; [exact Hq' | apply removelast_prefix].
      * assert (os_mkdir p fs1 = (Ok tt, <[c :: cs := Dir]> fs1)) as M2
          by (unfold os_mkdir; rewrite R1; cbn [node_at]; rewrite Same; reflexivity).
        exists (<[c :: cs := Dir]> fs1). split; [|split].
        -- rewrite M2. reflexivity.
        -- eapply grows_trans; [exact G1 | apply grows_insert_dir; exact Same].
        -- intros q Hq. rewrite lookup_insert_ne by (intros Heq; apply Hq; rewrite <- Heq; reflexivity).
           apply F1. intros Hq'. apply Hq.
           etransitivity; [exact Hq' | apply removelast_prefix].
Qed.

Lemma mkdir_parents_clean (p : path) (fs : FS) :
  clean (parts p) ->
  (forall q, q `prefix_of` parts p -> no_file_at fs q) ->
  exists fs1,
    mkdir_parents p fs = (Ok tt, fs1) /\
    grows fs fs1 /\
    is_dir p fs1 = true /\
    (forall q, ~ q `prefix_of` parts p -> fs1 !! q = fs !! q).
Proof.
  intros Hc Hp.
  destruct (mkdir_parents_go_clean (length (parts p)) p fs (le_n _) Hc Hp)
    as (fs1 & M & G & F).
  exists fs1. split; [exact M|]. split; [exact G|].
  split; [eapply mkdir_parents_post; exact M | exact F].
Qed.


Lemma no_file_at_grows (fs fs' : FS) (q : key) :
  grows fs fs' -> no_file_at fs q -> no_file_at fs' q.
Proof.
  intros G H data. destruct q as [|c q]; [discriminate|]. cbn [node_at].
  destruct (G (c :: q)) as [E|[_ E]]; rewrite E; [apply (H data) | discriminate].
Qed.

Lemma free_way_grows (fs fs' : FS) (k : key) :
  grows fs fs' -> free_way fs k -> free_way fs' k.
Proof.
  intros G [Hc Hf]. split; [exact Hc|].
  intros q Hq Hne. eapply no_file_at_grows; [exact G | apply Hf; assumption].
Qed.

Lemma free_way_insert (fs : FS) (k k0 : key) (n : node) :
  ~ k0 `prefix_of` k -> free_way fs k -> free_way (<[k0 := n]> fs) k.
Proof.
  intros Hn [Hc Hf]. split; [exact Hc|].
  intros q Hq Hne data. rewrite node_at_insert_ne; [apply Hf; assumption|].
  intros ->. exact (Hn Hq).
Qed.

Lemma exists_false_clean (p : path) (fs : FS) :
  clean (parts p) -> node_at fs (parts p) = None -> exists_ p fs = false.
Proof.
  intros Hc Hn. unfold exists_, stat, resolve.
  destruct (walk fs [] (parts p)) as [k|e] eqn:W; [|reflexivity].
  rewrite (walk_clean_inv _ _ _ _ Hc W). cbn [app Py.bind]. rewrite Hn. reflexivity.
Qed.

Lemma read_bytes_file (p : path) (fs : FS) (k : key) (data : string) :
  resolve fs p = Ok k -> node_at fs k = Some (File data) ->
  read_bytes p fs = (Ok data, fs).
Proof.
  intros Hr Hn. unfold read_bytes, query, stat. rewrite Hr. cbn [Py.bind].
  rewrite Hn. reflexivity.
Qed.

End CleanPaths.

Section CleanApply.
Import PyStr Py Fs FsOps CodeParser DiffGenerator.

(** A Create whose way is free: the missing directories are made and the
    file is written. *)
Lemma apply_one_create_clean (wd : path) (c : FileDiff) (fs : FS) :
  let kc := parts (target wd c) in
  operation c <> DELETE ->
  free_way fs kc ->
  node_at fs kc <> Some Dir ->
  exists fs1,
    apply_one wd false c fs
    = (Ok Succeeded, <[kc := File (content_or_empty (new_content c))]> fs1) /\
    grows fs fs1 /\
    (forall q, ~ q `prefix_of` removelast kc -> fs1 !! q = fs !! q) /\
    resolve fs1 (target wd c) = Ok kc /\
    node_at fs1 kc <> Some Dir.
Proof.
  intros kc Hop Hw Hn.
  assert (kc <> []) as Hne by (intros E; apply Hn; rewrite E; reflexivity).
  destruct (free_way_parent fs kc Hw Hne) as [Hcp Hpp].
  destruct (mkdir_parents_clean (parent (target wd c)) fs Hcp Hpp) as (fs1 & M & G & D & F).
  cbn [parent parts] in F. fold kc in F.
  destruct (resolve_of_parent _ _ D) as [k' R].
  assert (k' = kc) as ->
    by (unfold resolve in R; rewrite (walk_clean_inv _ _ _ _ (proj1 Hw) R); reflexivity).
  assert (node_at fs1 kc <> Some Dir) as Hn1.
  { rewrite node_at_nonroot by exact Hne.
    rewrite (F kc (not_prefix_removelast kc Hne)).
    rewrite <- (node_at_nonroot fs kc Hne). exact Hn. }
  exists fs1. split; [|repeat split; assumption].
  rewrite (apply_one_write wd c fs fs1 Hop M). unfold mbind.
  rewrite (write_text_ok _ _ _ _ R Hn1). reflexivity.
Qed.

(** A Delete of an absent path whose way is free: the missing directories
    are made and the diff is skipped. *)
Lemma apply_one_delete_clean (wd : path) (d : FileDiff) (fs : FS) :
  let kd := parts (target wd d) in
  operation d = DELETE ->
  free_way fs kd ->
  node_at fs kd = None ->
  exists fs1,
    apply_one wd false d fs = (Ok Skipped, fs1) /\
    grows fs fs1 /\
    (forall q, ~ q `prefix_of` removelast kd -> fs1 !! q = fs !! q).
Proof.
  intros kd Hop Hw Hn.
  assert (kd <> []) as Hne by (intros E; rewrite E in Hn; discriminate Hn).
  destruct (free_way_parent fs kd Hw Hne) as [Hcp Hpp].
  destruct (mkdir_parents_clean (parent (target wd d)) fs Hcp Hpp) as (fs1 & M & G & D & F).
  cbn [parent parts] in F. fold kd in F.
  exists fs1. split; [|split; assumption].
  rewrite (apply_one_delete wd d fs fs1 Hop M).
  rewrite (exists_false_clean (target wd d) fs1 (proj1 Hw)); [reflexivity|].
  fold kd. rewrite node_at_nonroot by exact Hne.
  rewrite (F kd (not_prefix_removelast kd Hne)).
  rewrite <- (node_at_nonroot fs kd Hne). exact Hn.
Qed.

Lemma prefix_of_removelast (q k : key) : q `prefix_of` removelast k -> q `prefix_of` k.
Proof. intros H. etransitivity; [exact H | apply removelast_prefix]. Qed.

Lemma scenario_C_clean (wd : path) (c d : FileDiff) (diffs : list FileDiff) (fs : FS) :
  let kc := parts (target wd c) in
  let kd := parts (target wd d) in
  diffs = [c; d] \/ diffs = [d; c] ->
  operation c = CREATE ->
  operation d = DELETE ->
  free_way fs kc -> node_at fs kc <> Some Dir ->
  free_way fs kd -> node_at fs kd = None ->
  ~ kc `prefix_of` kd -> ~ kd `prefix_of` kc ->
  exists fs',
    apply_changes wd diffs false fs
    = (mkResults [file_path c] [] [file_path d], fs') /\
    read_bytes (target wd c) fs' = (Ok (content_or_empty (new_content c)), fs') /\
    exists_ (target wd d) fs' = false.
Proof.
  intros kc kd Hd Hc Hdel Wc Nc Wd Nd Hcd Hdc.
  assert (operation c <> DELETE) as Hc' by (rewrite Hc; discriminate).
  assert (kc <> []) as Hnec by (intros E; apply Nc; rewrite E; reflexivity).
  assert (kd <> []) as Hned by (intros E; rewrite E in Nd; discriminate Nd).
  assert (kc <> kd) as Hne by (intros E; apply Hcd; rewrite E; reflexivity).
  set (data := content_or_empty (new_content c)).
  destruct Hd as [-> | ->].
  - destruct (apply_one_create_clean wd c fs Hc' Wc Nc) as (fs1 & A1 & G1 & F1 & R1 & N1).
    fold kc in A1, F1, R1, N1. fold data in A1.
    set (fs2 := <[kc := File data]> fs1) in *.
    assert (fs1 !! kd = None) as Kd1.
    { rewrite (F1 kd); [rewrite <- (node_at_nonroot fs kd Hned); exact Nd|].
      intros Hp. apply Hdc. apply prefix_of_removelast. exact Hp. }
    assert (free_way fs2 kd) as Wd2
      by (apply free_way_insert; [exact Hcd | eapply free_way_grows; eassumption]).
    assert (node_at fs2 kd = None) as Nd2.
    { unfold fs2. rewrite node_at_insert_ne by exact Hne.
      rewrite node_at_nonroot by exact Hned. exact Kd1. }
    destruct (apply_one_delete_clean wd d fs2 Hdel Wd2 Nd2) as (fs3 & A2 & G2 & F2).
    fold kd in F2.
    exists fs3. split; [|split].
    + rewrite !apply_changes_cons, A1. cbn [fst snd]. fold fs2. rewrite A2. reflexivity.
    + apply (read_bytes_file _ _ kc).
      * eapply resolve_keeps; [apply grows_keeps_dirs; exact G2|].
        eapply resolve_keeps; [apply keeps_dirs_insert; exact N1 | exact R1].
      * rewrite node_at_nonroot by exact Hnec.
        destruct (G2 kc) as [E|[E _]]; unfold fs2 in E; rewrite lookup_insert_eq in E;
          [exact E | discriminate E].
    + apply exists_false_clean; [exact (proj1 Wd)|]. fold kd.
      rewrite node_at_nonroot by exact Hned.
      rewrite (F2 kd (not_prefix_removelast kd Hned)).
      rewrite <- (node_at_nonroot fs2 kd Hned). exact Nd2.
  - destruct (apply_one_delete_clean wd d fs Hdel Wd Nd) as (fs1 & A1 & G1 & F1).
    fold kd in F1.
    assert (free_way fs1 kc) as Wc1 by (eapply free_way_grows; eassumption).
    assert (node_at fs1 kc <> Some Dir) as Nc1.
    { rewrite node_at_nonroot by exact Hnec. rewrite (F1 kc).
      - rewrite <- (node_at_nonroot fs kc Hnec). exact Nc.
      - intros Hp. apply Hcd. apply prefix_of_removelast. exact Hp. }
    destruct (apply_one_create_clean wd c fs1 Hc' Wc1 Nc1) as (fs2 & A2 & G2 & F2 & R2 & N2).
    fold kc in A2, F2, R2, N2. fold data in A2.
    exists (<[kc := File data]> fs2). split; [|split].
    + rewrite !apply_changes_cons, A1. cbn [fst snd]. rewrite A2. reflexivity.
    + apply (read_bytes_file _ _ kc).
      * eapply resolve_keeps; [apply keeps_dirs_insert; exact N2 | exact R2].
      * apply node_at_insert_eq. exact Hnec.
    + apply exists_false_clean; [exact (proj1 Wd)|]. fold kd.
      rewrite node_at_insert_ne by exact Hne.
      rewrite node_at_nonroot by exact Hned.
      rewrite (F2 kd).
      * rewrite (F1 kd (not_prefix_removelast kd Hned)).
        rewrite <- (node_at_nonroot fs kd Hned). exact Nd.
      * intros Hp. apply Hdc. apply prefix_of_removelast. exact Hp.
Qed.

End CleanApply.

Section ScenarioC.
Import PyStr Py Fs FsOps CodeParser DiffGenerator ExamplesFs.

(** C7.  Scenario C: one Create and one Delete, in either order, in a real
    run.  The ways to both targets are free (no [..], no regular file among
    the ancestors; directories may be missing and are then made), the Create
    target is not a directory, the Delete target does not exist, and neither
    target lies on the way to the other.  Then [success] is the created
    path, [skipped] the deleted path, [failed] is empty, the created file
    holds the new content and the deleted path still does not exist.  For
    any list of diffs and either mode: what one diff does, raising included,
    is recorded in its own entry, the diffs after it are applied to the file
    system it left, and every diff is reported exactly once. *)
Theorem apply_changes_create_and_absent_delete :
  (forall (wd : path) (c d : FileDiff) (diffs : list FileDiff) (fs : FS),
     diffs = [c; d] \/ diffs = [d; c] ->
     operation c = CREATE ->
     operation d = DELETE ->
     free_way fs (parts (target wd c)) ->
     node_at fs (parts (target wd c)) <> Some Dir ->
     free_way fs (parts (target wd d)) ->
     node_at fs (parts (target wd d)) = None ->
     ~ parts (target wd c) `prefix_of` parts (target wd d) ->
     ~ parts (target wd d) `prefix_of` parts (target wd c) ->
     exists fs',
       apply_changes wd diffs false fs
       = (mkResults [file_path c] [] [file_path d], fs') /\
       read_bytes (target wd c) fs' = (Ok (content_or_empty (new_content c)), fs') /\
       exists_ (target wd d) fs' = false) /\
  (forall (wd : path) (dry_run : bool) (before after : list FileDiff)
          (d : FileDiff) (fs : FS),
     let '(r1, fs1) := apply_changes wd before dry_run fs in
     let '(o, fs2) := apply_one wd dry_run d fs1 in
     let '(r2, fs3) := apply_changes wd after dry_run fs2 in
     apply_changes wd (before ++ d :: after) dry_run fs
     = (merge r1 (merge (record (file_path d) o no_results) r2), fs3) /\
     (forall e, o = Raise e -> (file_path d, e) ∈ failed (record (file_path d) o no_results))) /\
  (forall (wd : path) (dry_run : bool) (diffs : list FileDiff) (fs : FS),
     reported (fst (apply_changes wd diffs dry_run fs)) ≡ₚ map file_path diffs).
Proof.
  split; [|split].
  - intros wd c d diffs fs. apply scenario_C_clean.
  - apply apply_changes_isolates.
  - intros wd dry_run diffs fs. apply apply_changes_reports_all.
Qed.

Lemma free_way_intro (fs : FS) (k : key) :
  clean k ->
  (forall n, n < length k -> no_file_at fs (take n k)) ->
  free_way fs k.
Proof.
  intros Hc Hn. split; [exact Hc|].
  intros q [r ->] Hne.
  replace q with (take (length q) (q ++ r)) by apply take_app_length.
  apply Hn. rewrite length_app.
  destruct r; [rewrite app_nil_r in Hne; congruence | simpl; lia].
Qed.

(** Scenario C in an empty project directory, the Create two directories
    down and the Delete one directory down, none of which exists. *)
Lemma apply_changes_scenario_witness :
  exists fs',
    apply_changes proj [create_nested; delete_nested] false empty_tree
    = (mkResults ["src/app/new.py"] [] ["old/gone.py"], fs') /\
    read_bytes (target proj create_nested) fs' = (Ok "x = 1", fs') /\
    exists_ (target proj delete_nested) fs' = false.
Proof.
  refine (proj1 apply_changes_create_and_absent_delete proj create_nested delete_nested
            [create_nested; delete_nested] empty_tree _ _ _ _ _ _ _ _ _).
  - left. reflexivity.
  - reflexivity.
  - reflexivity.
  - apply free_way_intro.
    + vm_compute. repeat constructor; discriminate.
    + intros n Hn data. vm_compute in Hn.
      destruct n as [|[|[|[|n]]]]; [vm_compute; discriminate..|lia].
  - vm_compute. discriminate.
  - apply free_way_intro.
    + vm_compute. repeat constructor; discriminate.
    + intros n Hn data. vm_compute in Hn.
      destruct n as [|[|[|n]]]; [vm_compute; discriminate..|lia].
  - vm_compute. reflexivity.
  - intros [r Hr]. vm_compute in Hr. discriminate Hr.
  - intros [r Hr]. vm_compute in Hr. discriminate Hr.
Defined.

End ScenarioC.

(** ** The backup engine *)

Section CodecFacts.
Import PyStr Py BackupManager.

Lemma dec_nat_enc (n : nat) (k : string) : dec_nat (enc_nat n k) = Some (n, k).
Proof. induction n as [|n IH]; simpl; [reflexivity | now rewrite IH]. Qed.

Lemma dec_char_enc (c : ascii) (k : string) : dec_char (enc_char c k) = Some (c, k).
Proof. destruct c as [[] [] [] [] [] [] [] []]; reflexivity. Qed.

Lemma dec_chars_enc (s k : string) :
  dec_chars (String.length s) (enc_chars s k) = Some (s, k).
Proof.
  induction s as [|c s IH]; [reflexivity|].
  cbn [String.length enc_chars dec_chars]. rewrite dec_char_enc, IH. reflexivity.
Qed.

Lemma dec_str_enc (s k : string) : dec_str (enc_str s k) = Some (s, k).
Proof. unfold dec_str, enc_str. rewrite dec_nat_enc. apply dec_chars_enc. Qed.

Lemma dec_info_enc (fi : FileInfo) (k : string) : dec_info (enc_info fi k) = Some (fi, k).
Proof.
  unfold dec_info, enc_info. rewrite !dec_str_enc, dec_nat_enc. destruct fi; reflexivity.
Qed.

Lemma dec_infos_enc (l : list FileInfo) (k : string) :
  dec_infos (length l) (enc_infos l k) = Some (l, k).
Proof.
  induction l as [|fi l IH]; simpl; [reflexivity|].
  rewrite dec_info_enc, IH. reflexivity.
Qed.

(** The reference codec reads back what it wrote. *)
Lemma ref_loads_dumps (m : Manifest) : ref_loads (ref_dumps m) = Some m.
Proof.
  unfold ref_loads, ref_dumps. rewrite !dec_str_enc, dec_nat_enc, dec_infos_enc.
  destruct m; reflexivity.
Qed.

(** A text without CR and LF is read as it is. *)
Lemma newlines_go_one_line (after_cr : bool) (s : string) :
  one_line s = true -> newlines_go after_cr s = s.
Proof.
  revert after_cr. induction s as [|c s IH]; intros after_cr; [reflexivity|].
  cbn [one_line newlines_go]. intros H.
  apply andb_prop in H as [H Hs]. apply andb_prop in H as [Hcr Hnl].
  apply negb_true_iff in Hcr, Hnl. rewrite Hcr, Hnl, (IH false Hs). reflexivity.
Qed.

Lemma one_line_enc_nat (n : nat) (k : string) : one_line (enc_nat n k) = one_line k.
Proof. induction n as [|n IH]; [reflexivity | exact IH]. Qed.

Lemma one_line_enc_char (c : ascii) (k : string) : one_line (enc_char c k) = one_line k.
Proof. destruct c as [[] [] [] [] [] [] [] []]; reflexivity. Qed.

Lemma one_line_enc_chars (s k : string) : one_line (enc_chars s k) = one_line k.
Proof.
  induction s as [|c s IH]; [reflexivity|]. cbn [enc_chars].
  rewrite one_line_enc_char. exact IH.
Qed.

Lemma one_line_enc_str (s k : string) : one_line (enc_str s k) = one_line k.
Proof. unfold enc_str. rewrite one_line_enc_nat. apply one_line_enc_chars. Qed.

Lemma one_line_enc_infos (l : list FileInfo) (k : string) :
  one_line (enc_infos l k) = one_line k.
Proof.
  induction l as [|fi l IH]; [reflexivity|]. cbn [enc_infos]. unfold enc_info.
  rewrite !one_line_enc_str, one_line_enc_nat. exact IH.
Qed.

(** The same through a file: what was written is read in text mode and
    decoded. *)
Lemma ref_file_law (m : Manifest) : ref_loads (universal_newlines (ref_dumps m)) = Some m.
Proof.
  unfold universal_newlines. rewrite newlines_go_one_line; [apply ref_loads_dumps|].
  unfold ref_dumps. rewrite !one_line_enc_str, one_line_enc_nat, one_line_enc_infos.
  reflexivity.
Qed.

End CodecFacts.

Section RestoreFacts.
Import PyStr Py Fs FsOps BackupManager.
Context (json_loads : string -> option Manifest).

Lemma restore_loop_empty_list (mgr : manager) (bp : path) (infos : list FileInfo)
    (acc : Restored) (fs : FS) :
  restore_loop mgr bp (Some []) infos acc fs = restore_loop mgr bp None infos acc fs.
Proof.
  revert acc fs. induction infos as [|fi infos IH]; intros acc fs; simpl; [reflexivity|].
  destruct (restore_one mgr bp fi fs) as [[[]|e] fs1]; apply IH.
Qed.

Lemma restore_loop_filter (mgr : manager) (bp : path) (p : string) (l : list string)
    (infos : list FileInfo) (acc : Restored) (fs : FS) :
  restore_loop mgr bp (Some (p :: l)) infos acc fs
  = restore_loop mgr bp None
      (List.filter (fun fi => listed (p :: l) (original_path fi)) infos) acc fs.
Proof.
  revert acc fs. induction infos as [|fi infos IH]; intros acc fs; [reflexivity|].
  cbn [restore_loop List.filter filtered_out].
  change (existsb (String.eqb (original_path fi)) (p :: l))
    with (listed (p :: l) (original_path fi)).
  destruct (listed (p :: l) (original_path fi)); cbn [negb].
  - cbn [restore_loop filtered_out].
    destruct (restore_one mgr bp fi fs) as [[[]|e] fs1]; apply IH.
  - apply IH.
Qed.

Lemma restore_loop_attempted (mgr : manager) (bp : path) (infos : list FileInfo)
    (acc : Restored) (fs : FS) :
  attempted (fst (restore_loop mgr bp None infos acc fs))
  ≡ₚ attempted acc ++ map original_path infos.
Proof.
  revert acc fs. induction infos as [|fi infos IH]; intros acc fs.
  - simpl. rewrite app_nil_r. reflexivity.
  - cbn [restore_loop filtered_out].
    destruct (restore_one mgr bp fi fs) as [[[]|e] fs1]; rewrite IH;
      unfold attempted; simpl; rewrite ?map_app; simpl; solve_Permutation.
Qed.

Lemma read_bytes_readonly (p : path) (fs : FS) :
  read_bytes p fs = (fst (read_bytes p fs), fs).
Proof. reflexivity. Qed.

Lemma read_text_readonly (p : path) (fs : FS) :
  read_text p fs = (fst (read_text p fs), fs).
Proof.
  unfold read_text, mbind. rewrite read_bytes_readonly.
  destruct (fst (read_bytes p fs)); reflexivity.
Qed.

(** The text read is the bytes with their line ends made LF. *)
Lemma read_text_of_bytes (p : path) (fs fs' : FS) (data : string) :
  read_bytes p fs = (Ok data, fs') ->
  read_text p fs = (Ok (universal_newlines data), fs').
Proof. intros H. unfold read_text, mbind. rewrite H. reflexivity. Qed.

Lemma read_manifest_readonly (mgr : manager) (name : string) (fs fs' : FS)
    (r : result Manifest) :
  read_manifest json_loads mgr name fs = (r, fs') -> fs' = fs.
Proof.
  unfold read_manifest, mbind, gets, raise, ret.
  destruct (negb _); [congruence|].
  destruct (negb _); [congruence|].
  rewrite read_text_readonly.
  destruct (fst (read_text _ fs)) as [text|e]; [|congruence].
  destruct (json_loads text); congruence.
Qed.

Lemma read_manifest_map (f : Manifest -> Manifest) (mgr : manager) (name : string) (fs : FS) :
  read_manifest (fun s => f <$> json_loads s) mgr name fs
  = match read_manifest json_loads mgr name fs with
    | (Ok m, fs') => (Ok (f m), fs')
    | (Raise e, fs') => (Raise e, fs')
    end.
Proof.
  unfold read_manifest, mbind, gets, raise, ret.
  destruct (negb _); [reflexivity|].
  destruct (negb _); [reflexivity|].
  rewrite read_text_readonly.
  destruct (fst (read_text _ fs)) as [text|e]; [|reflexivity].
  destruct (json_loads text); reflexivity.
Qed.

Lemma filter_original_path (f : string -> bool) (infos : list FileInfo) :
  map original_path (List.filter (fun fi => f (original_path fi)) infos)
  = List.filter f (map original_path infos).
Proof.
  induction infos as [|fi infos IH]; [reflexivity|].
  cbn [List.filter map]. destruct (f (original_path fi)); cbn [map]; rewrite IH; reflexivity.
Qed.

End RestoreFacts.

Section RoundTrip.
Import PyStr Py Fs FsOps BackupManager ExamplesFs.

(** [restore_backup] asks the decoder about one text only: the content of
    the manifest file. *)
Lemma restore_backup_agree (loads loads' : string -> option Manifest)
    (mgr : manager) (name : string) (file_paths : option (list string))
    (fs : FS) (text : string) :
  fst (read_text (joinpath (joinpath (backup_dir mgr) (parse name))
                    (parse "manifest.json")) fs) = Ok text ->
  loads text = loads' text ->
  restore_backup loads mgr name file_paths fs
  = restore_backup loads' mgr name file_paths fs.
Proof.
  intros Ht Hl. unfold restore_backup, read_manifest, mbind, gets.
  destruct (negb _); [reflexivity|].
  destruct (negb _); [reflexivity|].
  rewrite read_text_readonly, Ht, Hl. reflexivity.
Qed.

Section Codec.
Context (json_dumps : Manifest -> string) (json_loads : string -> option Manifest).
Hypothesis json_law : forall m, json_loads (universal_newlines (json_dumps m)) = Some m.

(** The experiment may be run with the decoder replaced by the constant
    answer, once the manifest file is known to hold the encoding of that
    answer. *)
Lemma round_trip_eval (f : string) (change : M unit) (fs0 : FS)
    (id : string) (m : Manifest) (out : result string) :
  fst (create_backup json_dumps mgr now [f] fs0) = Ok id ->
  fst (change (snd (create_backup json_dumps mgr now [f] fs0))) = Ok tt ->
  fst (read_text (joinpath (joinpath (backup_dir mgr) (parse id)) (parse "manifest.json"))
         (snd (change (snd (create_backup json_dumps mgr now [f] fs0)))))
    = Ok (universal_newlines (json_dumps m)) ->
  fst (backup_round_trip json_dumps (fun _ => Some m) mgr now f change fs0) = out ->
  fst (backup_round_trip json_dumps json_loads mgr now f change fs0) = out.
Proof.
  intros Hc Hch Hr Hout. rewrite <- Hout. clear Hout.
  unfold backup_round_trip, mbind.
  destruct (create_backup json_dumps mgr now [f] fs0) as [r1 fs1]. simpl in Hc, Hch, Hr.
  subst r1. destruct (change fs1) as [r2 fs2]. simpl in Hch, Hr. subst r2.
  rewrite (restore_backup_agree json_loads (fun _ => Some m) mgr id None fs2 _ Hr (json_law m)).
  reflexivity.
Qed.

(** C4 at a failing input.  A file of the working directory that is named
    [manifest.json] is copied into the snapshot and then overwritten there
    by the manifest of the snapshot; after the restore the file holds the
    text of the manifest, not what it held when the backup was made. *)
Theorem manifest_json_comes_back_as_the_manifest (data edited : string) :
  fst (backup_round_trip json_dumps json_loads mgr now "manifest.json"
         (write_text (joinpath proj (parse "manifest.json")) edited)
         (tree_with_manifest data))
  = Ok (json_dumps (manifest_of "manifest.json" (String.length data))).
Proof.
  apply (round_trip_eval _ _ _
           "/proj/.multi-agent-coder-backups/backup_20240101_120000"
           (manifest_of "manifest.json" (String.length data)));
    vm_compute; reflexivity.
Qed.

(** For an ordinary file of the same tree the round trip holds. *)
Lemma plain_file_round_trip (data edited : string) :
  fst (backup_round_trip json_dumps json_loads mgr now "notes.txt"
         (write_text (joinpath proj (parse "notes.txt")) edited)
         (tree_with_notes data))
  = Ok data.
Proof.
  apply (round_trip_eval _ _ _
           "/proj/.multi-agent-coder-backups/backup_20240101_120000"
           (manifest_of "notes.txt" (String.length data)));
    vm_compute; reflexivity.
Qed.

(** The same when the file is deleted instead of edited. *)
Lemma manifest_json_deleted_comes_back_as_the_manifest (data : string) :
  fst (backup_round_trip json_dumps json_loads mgr now "manifest.json"
         (unlink (joinpath proj (parse "manifest.json")))
         (tree_with_manifest data))
  = Ok (json_dumps (manifest_of "manifest.json" (String.length data))).
Proof.
  apply (round_trip_eval _ _ _
           "/proj/.multi-agent-coder-backups/backup_20240101_120000"
           (manifest_of "manifest.json" (String.length data)));
    vm_compute; reflexivity.
Qed.

(** A file named by its absolute path is not backed up at all: the copy
    would go onto the file itself, [copy2] raises, the entry is left out of
    the manifest, and the restore leaves the edited content in place. *)
Lemma absolute_path_is_not_backed_up (data edited : string) :
  fst (backup_round_trip json_dumps json_loads mgr now "/proj/notes.txt"
         (write_text (joinpath proj (parse "/proj/notes.txt")) edited)
         (tree_with_notes data))
  = Ok edited.
Proof.
  apply (round_trip_eval _ _ _
           "/proj/.multi-agent-coder-backups/backup_20240101_120000"
           (mkManifest now "/proj/.multi-agent-coder-backups/backup_20240101_120000" []));
    vm_compute; reflexivity.
Qed.

End Codec.

(** With the reference codec and the content [orig]. *)
Lemma manifest_json_witness :
  (forall m, ref_loads (universal_newlines (ref_dumps m)) = Some m) /\
  fst (backup_round_trip ref_dumps ref_loads mgr now "manifest.json"
         (write_text (joinpath proj (parse "manifest.json")) "edited")
         (tree_with_manifest "orig"))
  = Ok (ref_dumps (manifest_of "manifest.json" (String.length "orig"))) /\
  ref_dumps (manifest_of "manifest.json" (String.length "orig")) <> "orig".
Proof.
  split; [exact ref_file_law|]. split.
  - exact (manifest_json_comes_back_as_the_manifest ref_dumps ref_loads
             ref_file_law "orig" "edited").
  - vm_compute. discriminate.
Defined.

End RoundTrip.

(* ===================================================================== *)
(** * Further properties of the same modules *)
(* ===================================================================== *)

Section DispatcherRoster.
Import PyStr Py Agents ParallelDispatcher.

Lemma existsb_lower_names (x : string) (names : list string) :
  existsb (String.eqb x) (map lower names) = true
  <-> exists n, n ∈ names /\ x = lower n.
Proof.
  rewrite existsb_exists. split.
  - intros (y & Hy & E). apply String.eqb_eq in E. subst y.
    apply in_map_iff in Hy as (n & <- & Hn). exists n. split; [|reflexivity].
    apply list_elem_of_In. exact Hn.
  - intros (n & Hn & ->). exists (lower n). split; [|apply String.eqb_refl].
    apply in_map. apply list_elem_of_In. exact Hn.
Qed.

Lemma selected_agents_elem (agents : list BaseAgent) (names : list string) (a : BaseAgent) :
  a ∈ selected_agents agents names
  <-> a ∈ agents /\ exists n, n ∈ names /\ answers_to n a.
Proof.
  unfold selected_agents, answers_to.
  rewrite list_elem_of_In, filter_In, existsb_lower_names, <- list_elem_of_In.
  reflexivity.
Qed.

(** X1.  [dispatch_to_agents] answers for the agents of the roster whose
    name is among the given names, letter case aside.  For every order in
    which the queries complete it returns one response per selected agent,
    in roster order, each decided by that agent alone: the response its
    query returned, or the failed response built from its exception. *)
Theorem dispatch_to_agents_one_response_per_selected_agent
    (repr : list string -> string) (agents : list BaseAgent) (order : list nat)
    (prompt : string) (agent_names : list string) (context : Context) :
  let selected := selected_agents agents agent_names in
  selected <> [] ->
  order ≡ₚ seq 0 (length selected) ->
  dispatch_to_agents repr agents order prompt agent_names context
  = Some (Ok (map (fun agent => wrap agent (query agent prompt context)) selected)) /\
  selected `sublist_of` agents /\
  (forall agent, agent ∈ selected <->
     agent ∈ agents /\ exists n, n ∈ agent_names /\ answers_to n agent).
Proof.
  intros selected Hne Hp. split; [|split].
  - unfold dispatch_to_agents. fold selected.
    destruct selected as [|a0 rest] eqn:E; [congruence|]. rewrite <- E in *.
    rewrite gather_all.
    2:{ rewrite length_map. apply perm_seq_covers. exact Hp. }
    do 2 f_equal. clear. induction selected as [|a l IH]; simpl; [reflexivity|].
    f_equal. exact IH.
  - apply filter_sublist.
  - intros agent. apply selected_agents_elem.
Qed.

(** X2.  When no agent of the roster answers to any of the given names,
    [dispatch_to_agents] raises [ValueError] before any query is sent,
    whatever the roster holds; the message lists the available names. *)
Theorem dispatch_to_agents_without_a_match
    (repr : list string -> string) (agents : list BaseAgent) (order : list nat)
    (prompt : string) (agent_names : list string) (context : Context) :
  (forall agent n, agent ∈ agents -> n ∈ agent_names -> ~ answers_to n agent) ->
  dispatch_to_agents repr agents order prompt agent_names context
  = Some (Raise (ValueError
            ("No agents found matching " +:+ repr agent_names +:+ ". "
             +:+ "Available agents: " +:+ join ", " (get_available_agents agents)))).
Proof.
  intros Hno. unfold dispatch_to_agents.
  destruct (selected_agents agents agent_names) as [|a l] eqn:E; [reflexivity|].
  exfalso.
  assert (a ∈ selected_agents agents agent_names) as Ha by (rewrite E; left).
  apply selected_agents_elem in Ha as (Hin & n & Hn & Hans).
  exact (Hno a n Hin Hn Hans).
Qed.

(** X3.  [remove_agent] removes the first agent whose name matches, letter
    case aside, and only that one; it returns [True] exactly when there is
    one and leaves the roster as it is otherwise. *)
Theorem remove_agent_removes_the_first_match
    (agents : list BaseAgent) (agent_name : string) :
  match remove_agent agents agent_name with
  | (true, agents') =>
      exists before agent after,
        agents = before ++ agent :: after /\
        agents' = before ++ after /\
        answers_to agent_name agent /\
        Forall (fun a => ~ answers_to agent_name a) before
  | (false, agents') =>
      agents' = agents /\ Forall (fun a => ~ answers_to agent_name a) agents
  end.
Proof.
  induction agents as [|a l IH]; simpl.
  - split; [reflexivity | constructor].
  - destruct (String.eqb (lower (name a)) (lower agent_name)) eqn:E.
    + apply String.eqb_eq in E. exists [], a, l. repeat split; [exact E | constructor].
    + apply String.eqb_neq in E.
      destruct (remove_agent l agent_name) as [[|] l'].
      * destruct IH as (before & agent & after & -> & -> & Hans & Hbefore).
        exists (a :: before), agent, after. repeat split; [exact Hans|].
        constructor; [exact E | exact Hbefore].
      * destruct IH as [-> Hall]. split; [reflexivity|].
        constructor; [exact E | exact Hall].
Qed.

End DispatcherRoster.

Section BestSolution.
Import PyStr Py Agents CrossEvaluator.

Lemma filter_head_split {A : Type} (f : A -> bool) (l : list A) (b : A) (t : list A) :
  List.filter f l = b :: t ->
  exists pre post, l = pre ++ b :: post /\ Forall (fun x => f x = false) pre.
Proof.
  induction l as [|x l IH]; simpl; [discriminate|].
  destruct (f x) eqn:E.
  - intros [= -> <-]. exists [], l. split; [reflexivity | constructor].
  - intros H. destruct (IH H) as (pre & post & -> & Hpre).
    exists (x :: pre), post. split; [reflexivity|]. constructor; assumption.
Qed.

Lemma sort_desc_head (x : EvaluationResult) (l : list EvaluationResult) :
  exists b t, sort_desc (x :: l) = b :: t.
Proof.
  pose proof (Permutation_length (sort_desc_perm (x :: l))) as H.
  destruct (sort_desc (x :: l)) as [|b t]; [discriminate H | eauto].
Qed.

(** X4.  [get_best_solution] raises [ValueError] on the empty list and on
    no other.  Otherwise no result has a higher average than the one it
    returns, and that one is the first of the list with its average: every
    result before it has a strictly lower average. *)
Theorem get_best_solution_is_the_first_maximum (results : list EvaluationResult) :
  match get_best_solution results with
  | Raise e => results = [] /\ e = ValueError "No evaluation results available"
  | Ok best =>
      Forall (fun r => (average_score r <= average_score best)%Q) results /\
      exists before after,
        results = before ++ best :: after /\
        Forall (fun r => (average_score r < average_score best)%Q) before
  end.
Proof.
  destruct results as [|x l]; [split; reflexivity|].
  unfold get_best_solution.
  destruct (sort_desc_head x l) as (b & t & E). rewrite E. cbn [hd].
  pose proof (sort_desc_sorted (x :: l)) as Hs. rewrite E in Hs.
  apply StronglySorted_inv in Hs as [_ Hb].
  assert (Forall (fun r => (average_score r <= average_score b)%Q) (x :: l)) as Hmax.
  { rewrite <- (sort_desc_perm (x :: l)), E. constructor; [apply Qle_refl | exact Hb]. }
  split; [exact Hmax|].
  pose proof (sort_desc_stable (average_score b) (x :: l)) as Hst.
  rewrite E in Hst.
  assert (has_average (average_score b) b = true) as Hbb
    by (apply Qeq_bool_iff; reflexivity).
  change (List.filter (has_average (average_score b)) (b :: t))
    with (if has_average (average_score b) b
          then b :: List.filter (has_average (average_score b)) t
          else List.filter (has_average (average_score b)) t) in Hst.
  rewrite Hbb in Hst. symmetry in Hst.
  apply filter_head_split in Hst as (pre & post & Hl & Hpre).
  exists pre, post. split; [exact Hl|].
  rewrite Hl in Hmax. apply Forall_app in Hmax as [Hmax _].
  rewrite Forall_forall in *. intros r Hr.
  pose proof (Hmax r Hr) as Hle.
  apply Qle_lteq in Hle. destruct Hle as [Hlt|Heq]; [exact Hlt|].
  apply Hpre in Hr. unfold has_average in Hr.
  apply Qeq_bool_iff in Heq. congruence.
Qed.

Lemma insert_desc_head (x : EvaluationResult) (l : list EvaluationResult) :
  Forall (desc x) l -> insert_desc x l = x :: l.
Proof.
  destruct l as [|y l]; [reflexivity|]. intros H. apply Forall_cons in H as [H _].
  simpl. unfold desc in H. apply Qle_bool_iff in H. rewrite H. reflexivity.
Qed.

Lemma sort_desc_sorted_id (l : list EvaluationResult) :
  StronglySorted desc l -> sort_desc l = l.
Proof.
  induction 1 as [|x l Hs IH Hx]; simpl; [reflexivity|].
  rewrite IH. apply insert_desc_head. exact Hx.
Qed.

(** X5.  On the ranking [evaluate_responses] returns for at least one
    response, [get_best_solution] returns the head of the ranking, whose
    rank is 1. *)
Theorem best_solution_of_a_ranking_has_rank_one
    (agents : list BaseAgent) (original_prompt : string)
    (responses : list AgentResponse) :
  responses <> [] ->
  exists best,
    get_best_solution (evaluate_responses agents original_prompt responses) = Ok best /\
    evaluate_responses agents original_prompt responses !! 0 = Some best /\
    rank best = 1.
Proof.
  intros Hne.
  destruct responses as [|r1 [|r2 rest]]; [congruence| |].
  - eexists. split; [reflexivity|]. split; reflexivity.
  - set (responses := r1 :: r2 :: rest).
    change (evaluate_responses agents original_prompt responses)
      with (assign_ranks (sort_desc (_calculate_results responses
              (_create_evaluation_matrix agents original_prompt responses)))).
    set (calc := _calculate_results responses _).
    assert (exists c l, calc = c :: l) as (c & l & Ec).
    { destruct calc as [|c l] eqn:E; [|eauto].
      pose proof (calculate_results_response responses
        (_create_evaluation_matrix agents original_prompt responses)) as H.
      fold calc in H. rewrite E in H. discriminate H. }
    rewrite Ec. destruct (sort_desc_head c l) as (b & t & Es).
    pose proof (sort_desc_sorted (c :: l)) as Hs. rewrite Es in *.
    unfold assign_ranks. cbn [rank_from].
    unfold get_best_solution.
    rewrite sort_desc_sorted_id.
    2:{ apply (rank_from_sorted 1 (b :: t)). exact Hs. }
    eexists. split; [reflexivity|]. split; reflexivity.
Qed.

End BestSolution.

Section Averages.
Import PyStr Py Agents CrossEvaluator.

Lemma dict_set_values (P : Q -> Prop) (d : scores_dict) (k : string) (v : Q) :
  Forall P (map snd d) -> P v -> Forall P (map snd (dict_set d k v)).
Proof.
  intros Hd Hv. induction d as [|[k' v'] d IH]; simpl.
  - constructor; [exact Hv | constructor].
  - simpl in Hd. apply Forall_cons in Hd as [H1 H2].
    destruct (String.eqb k' k); simpl; constructor; auto.
Qed.

Lemma Qsum_acc_bounds (l : list Q) (acc : Q) :
  Forall percent l ->
  (acc <= fold_left Qplus l acc /\
   fold_left Qplus l acc <= acc + 100 * inject_Z (Z.of_nat (length l)))%Q.
Proof.
  revert acc. induction l as [|x l IH]; intros acc Hl.
  - cbn [fold_left length]. change (inject_Z (Z.of_nat 0)) with 0%Q. lra.
  - apply Forall_cons in Hl as [[H0 H1] Hl]. cbn [fold_left length].
    destruct (IH (acc + x)%Q Hl) as [A B].
    rewrite Nat2Z.inj_succ, <- Z.add_1_r, inject_Z_plus. split.
    + lra.
    + change (inject_Z 1) with 1%Q. lra.
Qed.

Lemma average_percent (row : scores_dict) :
  Forall percent (map snd row) -> percent (average row).
Proof.
  intros H. unfold average. destruct row as [|kv row]; [split; discriminate|].
  set (l := kv :: row) in *.
  destruct (Qsum_acc_bounds (map snd l) 0%Q H) as [A B].
  rewrite length_map in B.
  assert (0 < inject_Z (Z.of_nat (length l)))%Q as Hpos.
  { change 0%Q with (inject_Z 0). rewrite <- Zlt_Qlt. simpl. lia. }
  unfold Qsum. split.
  - apply Qle_shift_div_l; [exact Hpos|]. lra.
  - apply Qle_shift_div_r; [exact Hpos|]. lra.
Qed.

Lemma cell_values (agents : list BaseAgent) (p : string) (r : AgentResponse)
    (o : list AgentResponse) (row : scores_dict) (agent : BaseAgent) :
  (forall s, evaluate agent p r o = Ok s -> percent s) ->
  Forall percent (map snd row) ->
  Forall percent (map snd (cell p r o row agent)).
Proof.
  intros Ha Hrow. unfold cell. destruct (String.eqb _ _); [exact Hrow|].
  destruct (evaluate agent p r o) as [s|e].
  - apply dict_set_values; [exact Hrow | apply Ha; reflexivity].
  - apply dict_set_values; [exact Hrow | split; discriminate].
Qed.

Lemma matrix_row_values (agents : list BaseAgent) (p : string)
    (responses : list AgentResponse) (i : nat) (r : AgentResponse) :
  (forall a p r o s, a ∈ agents -> evaluate a p r o = Ok s -> percent s) ->
  Forall percent (map snd (matrix_row agents p responses i r)).
Proof.
  intros Hag. unfold matrix_row.
  assert (Forall percent (map snd ([] : scores_dict))) as Hrow by constructor.
  revert Hrow. generalize ([] : scores_dict).
  induction agents as [|a agents IH]; intros row Hrow; simpl; [exact Hrow|].
  apply IH.
  - intros a' p' r' o' s Hin. apply Hag. right. exact Hin.
  - apply (cell_values (a :: agents)); [|exact Hrow].
    intros s. apply Hag. left.
Qed.

Lemma Forall_imap_intro {A B : Type} (P : B -> Prop) (g : nat -> A -> B) (l : list A) :
  (forall i x, P (g i x)) -> Forall P (imap g l).
Proof.
  revert g. induction l as [|x l IH]; intros g Hg; [constructor|].
  rewrite imap_cons. constructor; [apply Hg | apply IH; intros; apply Hg].
Qed.

Lemma rank_from_averages (P : Q -> Prop) (k : nat) (l : list EvaluationResult) :
  Forall (fun r => P (average_score r)) l ->
  Forall (fun r => P (average_score r)) (rank_from k l).
Proof.
  revert k. induction l as [|x l IH]; intros k H; simpl; [constructor|].
  apply Forall_cons in H as [H1 H2]. constructor; [exact H1 | apply IH; exact H2].
Qed.

(** X6.  If every score the evaluators return lies between 0 and 100, so
    does every average of [evaluate_responses]: the neutral 50.0 of a
    raising evaluator, the 75.0 of an empty row and the 85.0 of a lone
    response do not leave the range. *)
Theorem averages_stay_between_0_and_100
    (agents : list BaseAgent) (original_prompt : string)
    (responses : list AgentResponse) :
  (forall a p r o s, a ∈ agents -> evaluate a p r o = Ok s -> (0 <= s /\ s <= 100)%Q) ->
  Forall (fun result => (0 <= average_score result /\ average_score result <= 100)%Q)
    (evaluate_responses agents original_prompt responses).
Proof.
  intros Hag. destruct responses as [|r1 [|r2 rest]].
  - constructor.
  - simpl. constructor; [split; discriminate | constructor].
  - set (responses := r1 :: r2 :: rest).
    change (evaluate_responses agents original_prompt responses)
      with (assign_ranks (sort_desc (_calculate_results responses
              (_create_evaluation_matrix agents original_prompt responses)))).
    unfold assign_ranks. apply (rank_from_averages percent).
    rewrite sort_desc_perm. unfold _calculate_results.
    apply Forall_imap_intro. intros i x. cbn [average_score].
    apply average_percent. rewrite create_evaluation_matrix_lookup.
    destruct (responses !! i); simpl; [|constructor].
    apply matrix_row_values. exact Hag.
Qed.

Lemma dict_set_is_Some (d : scores_dict) (k k0 : string) (v : Q) :
  is_Some (dict_get (dict_set d k v) k0) <-> k = k0 \/ is_Some (dict_get d k0).
Proof.
  destruct (decide (k = k0)) as [->|Hne].
  - rewrite dict_get_set_eq. split; [intros _; left; reflexivity | eauto].
  - rewrite dict_get_set_ne by exact Hne. split; [auto | intros [?|?]; [congruence | assumption]].
Qed.

Lemma cell_is_Some (p : string) (r : AgentResponse) (o : list AgentResponse)
    (row : scores_dict) (agent : BaseAgent) (k : string) :
  is_Some (dict_get (cell p r o row agent) k)
  <-> is_Some (dict_get row k)
      \/ (name agent = k /\ lower (name agent) <> lower (agent_name r)).
Proof.
  unfold cell. destruct (String.eqb _ _) eqn:E.
  - apply String.eqb_eq in E. split; [auto | intros [H|[_ H]]; [exact H | congruence]].
  - apply String.eqb_neq in E.
    destruct (evaluate agent p r o); rewrite dict_set_is_Some; split;
      intros [H|H]; auto; destruct H; auto.
Qed.

Lemma fold_cell_is_Some (p : string) (r : AgentResponse) (o : list AgentResponse)
    (agents : list BaseAgent) (row : scores_dict) (k : string) :
  is_Some (dict_get (fold_left (cell p r o) agents row) k)
  <-> is_Some (dict_get row k)
      \/ exists agent, agent ∈ agents /\ name agent = k
                       /\ lower (name agent) <> lower (agent_name r).
Proof.
  revert row. induction agents as [|a agents IH]; intros row; simpl.
  - split; [auto | intros [H|(a & Ha & _)]; [exact H | inversion Ha]].
  - rewrite IH, cell_is_Some. split.
    + intros [[H|[H1 H2]]|(b & Hb & H1 & H2)]; [auto | |].
      * right. exists a. split; [left | auto].
      * right. exists b. split; [right; exact Hb | auto].
    + intros [H|(b & Hb & H1 & H2)]; [auto|].
      apply elem_of_cons in Hb as [->|Hb]; [auto|].
      right. exists b. auto.
Qed.

(** X7.  The row of a response holds a score under exactly the names of
    the roster agents that do not bear the name of its author, letter case
    aside: no response is scored under its author's name.  When every agent
    bears that name the row is empty and the average is the default 75.0. *)
Theorem row_keys_are_the_other_agents
    (agents : list BaseAgent) (original_prompt : string)
    (responses : list AgentResponse) (i : nat) (r : AgentResponse) :
  responses !! i = Some r ->
  exists row,
    _create_evaluation_matrix agents original_prompt responses !! i = Some row /\
    (forall k, is_Some (dict_get row k) <->
       exists agent, agent ∈ agents /\ name agent = k /\
                     lower (name agent) <> lower (agent_name r)) /\
    ((forall agent, agent ∈ agents -> lower (name agent) = lower (agent_name r)) ->
     row = [] /\ average row == 75 # 1).
Proof.
  intros Hr. rewrite create_evaluation_matrix_lookup, Hr. simpl.
  eexists. split; [reflexivity|]. split.
  - intros k. unfold matrix_row. rewrite fold_cell_is_Some. simpl.
    split; [intros [[x Hx]|H]; [discriminate Hx | exact H] | auto].
  - intros Hall. unfold matrix_row.
    assert (fold_left (cell original_prompt r (others i responses)) agents [] = []) as ->.
    { generalize (others i responses). intros o.
      induction agents as [|a agents IH]; simpl; [reflexivity|].
      unfold cell at 2. rewrite (Hall a) by left. rewrite String.eqb_refl.
      apply IH. intros b Hb. apply Hall. right. exact Hb. }
    split; reflexivity.
Qed.

End Averages.

Section ApiAgents.
Import PyStr Py Agents ParallelDispatcher.

Lemma keep_digits_dots_app (a b : string) :
  keep_digits_dots (a +:+ b) = keep_digits_dots a +:+ keep_digits_dots b.
Proof.
  induction a as [|c a IH]; [reflexivity|].
  rewrite str_app_cons. cbn [keep_digits_dots].
  destruct (is_digit c || eqc c "."); [rewrite str_app_cons|]; now rewrite IH.
Qed.

Lemma keep_digits_dots_digits (n : string) :
  forallb is_digit (list_ascii_of_string n) = true -> keep_digits_dots n = n.
Proof.
  induction n as [|c n IH]; [reflexivity|]. simpl.
  intros H. apply andb_prop in H as [Hc Hn]. rewrite Hc. simpl. now rewrite IH.
Qed.

Lemma split_dot_digits (l : list ascii) :
  forallb is_digit l = true -> split_dot l = (l, None).
Proof.
  induction l as [|c l IH]; [reflexivity|]. simpl.
  intros H. apply andb_prop in H as [Hc Hl].
  destruct (eqc c ".") eqn:E.
  - apply Ascii.eqb_eq in E. subst c. discriminate Hc.
  - now rewrite IH.
Qed.

Lemma digits_val_acc (l : list ascii) (acc : Z) :
  (0 <= acc)%Z ->
  (acc <= fold_left (fun acc c => acc * 10 + digit_val c) l acc)%Z.
Proof.
  revert acc. induction l as [|c l IH]; intros acc Hacc; simpl; [lia|].
  assert (0 <= digit_val c)%Z by (unfold digit_val; lia).
  etransitivity; [|apply IH]; lia.
Qed.

Lemma list_ascii_app (a b : string) :
  list_ascii_of_string (a +:+ b) = list_ascii_of_string a ++ list_ascii_of_string b.
Proof.
  induction a as [|c a IH]; [reflexivity|].
  rewrite str_app_cons. simpl. now rewrite IH.
Qed.

(** X9.  [evaluate] of an API agent keeps the digits and dots of the
    answer and drops every other character before reading the number.  An
    answer written as a mark out of 100, the digits [n] followed by [/100],
    is therefore read as the digits of [n] followed by 100 and scores
    100.0, whatever [n] is. *)
Theorem a_mark_out_of_100_scores_100
    (client : string -> result Reply)
    (evaluation_prompt : string -> AgentResponse -> list AgentResponse -> string)
    (p : string) (r : AgentResponse) (o : list AgentResponse)
    (reply : Reply) (n : string) :
  client (evaluation_prompt p r o) = Ok reply ->
  strip (reply_text reply) = n +:+ "/100" ->
  forallb is_digit (list_ascii_of_string n) = true ->
  api_evaluate client evaluation_prompt p r o = Ok (100 # 1).
Proof.
  intros Hc Hs Hn. unfold api_evaluate. rewrite Hc, Hs.
  rewrite keep_digits_dots_app, (keep_digits_dots_digits n Hn).
  change (keep_digits_dots "/100") with "100".
  unfold float_of. rewrite split_dot_digits.
  2:{ rewrite list_ascii_app, forallb_app, Hn. reflexivity. }
  rewrite list_ascii_app.
  destruct (list_ascii_of_string n ++ list_ascii_of_string "100") as [|c l] eqn:E.
  { apply (f_equal (@length ascii)) in E. rewrite length_app in E. simpl in E. lia. }
  rewrite <- E. clear E c l. f_equal.
  assert (100 <= digits_val (list_ascii_of_string n ++ list_ascii_of_string "100"))%Z as Hbig.
  { unfold digits_val. rewrite fold_left_app.
    set (v := fold_left _ (list_ascii_of_string n) 0%Z).
    assert (0 <= v)%Z by (apply digits_val_acc; lia).
    simpl. unfold digit_val. simpl. lia. }
  unfold clamp, Qmin, Qmax.
  assert (Qle_bool 100 (inject_Z (digits_val (list_ascii_of_string n ++ list_ascii_of_string "100"))) = true) as ->.
  { apply Qle_bool_iff. change (100%Q) with (inject_Z 100). rewrite <- Zle_Qle. exact Hbig. }
  reflexivity.
Qed.

End ApiAgents.

Section ParserOutput.
Import PyStr Re Py CodeParser.

Lemma contains_empty (s : string) : contains EmptyString s = true.
Proof. unfold contains. destruct s; reflexivity. Qed.

Lemma detect_operation_for_block_cases (full code lang : string) (i : nat) :
  match _detect_operation_for_block full code i lang with
  | Raise e => code = EmptyString /\ e = ValueError "empty separator"
  | Ok op =>
      code <> EmptyString /\
      content op = Some code /\
      language op = (if String.eqb lang "text" then None else Some lang) /\
      line_start op = None /\ line_end op = None /\
      op_type op <> UNKNOWN /\
      file_path op <> EmptyString
  end.
Proof.
  unfold _detect_operation_for_block, text_before_block.
  destruct code as [|c code].
  - rewrite contains_empty. simpl. split; reflexivity.
  - assert (exists t, (if contains (String c code) full
                       then if is_empty (String c code)
                            then Raise (ValueError "empty separator")
                            else Ok (before_first (String c code) full)
                       else Ok EmptyString) = Ok t) as [t ->].
    { destruct (contains _ _); simpl; eauto. }
    cbn [Py.bind content language line_start line_end op_type file_path].
    split; [discriminate|]. split; [reflexivity|]. split; [reflexivity|].
    split; [reflexivity|]. split; [reflexivity|]. split.
    + unfold _detect_operation_type.
      repeat (match goal with |- context [if ?b then _ else _] => destruct b end);
        discriminate.
    + unfold choose_path.
      assert (_generate_default_filename (String c code) lang i <> EmptyString) as Hd.
      { unfold _generate_default_filename.
        repeat (match goal with |- context [if ?b then _ else _] => destruct b end);
          rewrite str_app_cons; discriminate. }
      match goal with |- context [match ?o with Some _ => _ | None => _ end] =>
        destruct o as [q|] end; [|exact Hd].
      destruct q; [exact Hd | discriminate].
Qed.

Lemma parse_blocks_cases (text : string) (blocks : list (string * string)) (i : nat) :
  match parse_blocks text i blocks with
  | Raise e =>
      e = ValueError "empty separator" /\
      exists lang, (lang, EmptyString) ∈ blocks
  | Ok ops =>
      Forall (fun b => snd b <> EmptyString) blocks /\
      map content ops = map (fun b => Some (snd b)) blocks /\
      map language ops
      = map (fun b => if String.eqb (fst b) "text" then None else Some (fst b)) blocks /\
      Forall (fun op => file_path op <> EmptyString /\ op_type op <> UNKNOWN /\
                        line_start op = None /\ line_end op = None) ops
  end.
Proof.
  revert i. induction blocks as [|[lang code] rest IH]; intros i.
  - simpl. repeat split; constructor.
  - cbn [parse_blocks].
    pose proof (detect_operation_for_block_cases text code lang i) as H.
    destruct (_detect_operation_for_block text code i lang) as [op|e]; cbn [Py.bind].
    + destruct H as (Hc & Hcontent & Hlang & Hs & He & Ht & Hp).
      specialize (IH (S i)).
      destruct (parse_blocks text (S i) rest) as [ops|e]; cbn [Py.bind].
      * destruct IH as (Hall & Hcs & Hls & Hops). split; [|split; [|split]].
        -- constructor; [exact Hc | exact Hall].
        -- simpl. rewrite Hcontent, Hcs. reflexivity.
        -- simpl. rewrite Hlang, Hls. reflexivity.
        -- constructor; [auto | exact Hops].
      * destruct IH as [-> [l Hl]]. split; [reflexivity|].
        exists l. right. exact Hl.
    + destruct H as [-> ->]. split; [reflexivity|]. exists lang. left.
Qed.

(** X10.  [parse_response] raises exactly when a code block is empty: the
    empty block is cut out of the response with [str.split], which refuses
    an empty separator.  Otherwise there is one operation per block, in the
    order of the blocks, whose content is the block and whose language is
    the tag of the block, absent for the tag [text]. *)
Theorem parse_response_fails_exactly_on_an_empty_block (response_text : string) :
  let blocks := _extract_code_blocks response_text in
  match parse_response response_text with
  | Raise e =>
      e = ValueError "empty separator" /\
      exists lang, (lang, EmptyString) ∈ blocks
  | Ok ops =>
      Forall (fun b => snd b <> EmptyString) blocks /\
      map content ops = map (fun b => Some (snd b)) blocks /\
      map language ops
      = map (fun b => if String.eqb (fst b) "text" then None else Some (fst b)) blocks
  end.
Proof.
  intros blocks. unfold parse_response. fold blocks.
  pose proof (parse_blocks_cases response_text blocks 0) as H.
  destruct (parse_blocks response_text 0 blocks); [|exact H].
  destruct H as (H1 & H2 & H3 & _). auto.
Qed.

(** X11.  Every operation [parse_response] returns has a non-empty path,
    one of the types CREATE, MODIFY and DELETE, a non-empty content, a
    language other than [text], and no line range. *)
Theorem parse_response_operations_are_well_formed
    (response_text : string) (ops : list FileOperation) :
  parse_response response_text = Ok ops ->
  Forall (fun op =>
            file_path op <> EmptyString /\
            (op_type op = CREATE \/ op_type op = MODIFY \/ op_type op = DELETE) /\
            (exists code, content op = Some code /\ code <> EmptyString) /\
            language op <> Some "text" /\
            line_start op = None /\ line_end op = None) ops.
Proof.
  unfold parse_response. generalize (_extract_code_blocks response_text) 0.
  intros blocks. revert ops. induction blocks as [|[lang code] rest IH]; intros ops i.
  - simpl. intros [= <-]. constructor.
  - cbn [parse_blocks].
    pose proof (detect_operation_for_block_cases response_text code lang i) as H.
    destruct (_detect_operation_for_block response_text code i lang) as [op|e];
      cbn [Py.bind]; [|discriminate].
    destruct (parse_blocks response_text (S i) rest) as [ops'|e] eqn:E;
      cbn [Py.bind]; [|discriminate].
    intros [= <-]. constructor; [|eapply IH; exact E].
    destruct H as (Hc & Hcontent & Hlang & Hs & He & Ht & Hp).
    split; [exact Hp|]. split.
    { destruct (op_type op); auto. congruence. }
    split; [eauto|]. split; [|auto].
    rewrite Hlang. destruct (String.eqb lang "text") eqn:El; [discriminate|].
    apply String.eqb_neq in El. congruence.
Qed.

End ParserOutput.

Section ApplyMore.
Import PyStr Py Fs FsOps CodeParser DiffGenerator.

(** X12.  A dry run of [apply_changes] reports every path as a success,
    in the order of the diffs, a Delete of a missing file included, and
    leaves the file system as it is. *)
Theorem dry_run_reports_every_path_as_success
    (wd : path) (diffs : list FileDiff) (fs : FS) :
  apply_changes wd diffs true fs = (mkResults (map file_path diffs) [] [], fs).
Proof.
  unfold apply_changes.
  assert (forall acc, apply_loop wd true diffs acc fs
            = (mkResults (success acc ++ map file_path diffs) (failed acc) (skipped acc), fs)) as H.
  { induction diffs as [|d diffs IH]; intros acc; simpl.
    - rewrite app_nil_r. destruct acc; reflexivity.
    - rewrite IH. simpl. rewrite <- app_assoc. reflexivity. }
  apply H.
Qed.

Lemma target_absolute (wd wd' : path) (d : FileDiff) :
  startswith "/" (file_path d) = true -> target wd d = target wd' d.
Proof. unfold target, joinpath, parse. simpl. intros ->. reflexivity. Qed.

(** X13.  A diff whose path is absolute is applied at that path: when every
    path starts with a slash, [apply_changes] does the same whatever the
    working directory is. *)
Theorem absolute_paths_ignore_the_working_directory
    (wd wd' : path) (diffs : list FileDiff) (dry_run : bool) (fs : FS) :
  Forall (fun d => startswith "/" (file_path d) = true) diffs ->
  apply_changes wd diffs dry_run fs = apply_changes wd' diffs dry_run fs.
Proof.
  intros Hall. unfold apply_changes. generalize no_results. revert fs.
  induction Hall as [|d diffs Hd Hall IH]; intros fs acc; [reflexivity|].
  cbn [apply_loop].
  assert (apply_one wd dry_run d fs = apply_one wd' dry_run d fs) as ->.
  { unfold apply_one. fold (target wd d). fold (target wd' d).
    rewrite (target_absolute wd wd' d Hd). reflexivity. }
  destruct (apply_one wd' dry_run d fs) as [o fs1]. apply IH.
Qed.

Lemma write_text_raise (p : path) (data : string) (fs fs' : FS) (e : exn) :
  write_text p data fs = (Raise e, fs') -> fs' = fs.
Proof.
  unfold write_text. destruct (resolve fs p); [destruct (node_at fs a) as [[]|]|];
    congruence.
Qed.

Lemma apply_one_keeps_dirs (wd : path) (dry_run : bool) (d : FileDiff)
    (fs fs' : FS) (o : result outcome) :
  apply_one wd dry_run d fs = (o, fs') -> keeps_dirs fs fs'.
Proof.
  unfold apply_one. fold (target wd d). destruct dry_run.
  { intros [= _ <-]. apply keeps_dirs_refl. }
  unfold mbind at 1.
  destruct (mkdir_parents (parent (target wd d)) fs) as [[[]|e] fs1] eqn:M.
  2:{ intros [= _ <-]. eapply grows_keeps_dirs, mkdir_parents_grows. exact M. }
  pose proof (grows_keeps_dirs _ _ (mkdir_parents_grows _ _ _ _ M)) as K1.
  assert (forall data, (let! _ := write_text (target wd d) data in ret Succeeded) fs1 = (o, fs')
                       -> keeps_dirs fs fs') as Hw.
  { intros data. unfold mbind.
    destruct (write_text (target wd d) data fs1) as [[[]|e] fs2] eqn:W.
    - intros [= _ <-]. apply write_text_ok_inv in W as (k & _ & Hk & ->).
      eapply keeps_dirs_trans; [exact K1 | apply keeps_dirs_insert; exact Hk].
    - intros [= _ <-]. apply write_text_raise in W. subst fs2. exact K1. }
  destruct (operation d); try apply Hw.
  unfold mbind at 1, gets. destruct (exists_ (target wd d) fs1).
  - unfold mbind. destruct (unlink (target wd d) fs1) as [[[]|e] fs2] eqn:U.
    + intros [= _ <-]. apply unlink_ok_inv in U as (k & Hk & ->).
      eapply keeps_dirs_trans; [exact K1 | apply keeps_dirs_delete; exact Hk].
    + intros [= _ <-]. apply unlink_raise in U. subst fs2. exact K1.
  - intros [= _ <-]. exact K1.
Qed.

(** X14.  [apply_changes] never removes a directory nor puts a file in its
    place: what was a directory before is one after. *)
Theorem apply_changes_keeps_every_directory
    (wd : path) (diffs : list FileDiff) (dry_run : bool) (fs fs' : FS) (r : Results) :
  apply_changes wd diffs dry_run fs = (r, fs') ->
  forall p, is_dir p fs = true -> is_dir p fs' = true.
Proof.
  intros H p. apply is_dir_keeps. revert H. unfold apply_changes.
  generalize no_results. revert fs.
  induction diffs as [|d diffs IH]; intros fs acc; cbn [apply_loop].
  - intros [= _ <-]. apply keeps_dirs_refl.
  - destruct (apply_one wd dry_run d fs) as [o fs1] eqn:E. intros H.
    eapply keeps_dirs_trans; [eapply apply_one_keeps_dirs; exact E | eapply IH; exact H].
Qed.

End ApplyMore.

Section Previews.
Import PyStr Py Fs FsOps CodeParser DiffGenerator.
Context (difflib_unified_diff :
           list string -> list string -> string -> string -> list string).

Lemma read_old_content_total (p : path) (t : OperationType) (fs : FS) :
  exists old, read_old_content p t fs = (Ok old, fs) /\
              (t = CREATE -> old = None).
Proof.
  unfold read_old_content.
  assert (exists old,
            try_except (let! text := read_text p in ret (Some text))
                       (fun _ => ret None) fs = (Ok old, fs)) as Hread.
  { unfold try_except, mbind. rewrite read_text_readonly.
    destruct (fst (read_text p fs)); eexists; reflexivity. }
  destruct t.
  - exists None. split; reflexivity.
  - destruct Hread as [old H]. exists old. split; [exact H | discriminate].
  - destruct Hread as [old H]. exists old. split; [exact H | discriminate].
  - exists None. split; [reflexivity | discriminate].
Qed.

Lemma generate_diff_for_operation_total (wd : path) (op : FileOperation) (fs : FS) :
  exists old,
    _generate_diff_for_operation difflib_unified_diff wd op fs
    = (Ok (mkFileDiff (op_type op) (CodeParser.file_path op) old (content op)
             (_create_unified_diff difflib_unified_diff (CodeParser.file_path op)
                old (content op) (op_type op))
             (_calculate_stats old (content op))), fs) /\
    (op_type op = CREATE -> old = None).
Proof.
  unfold _generate_diff_for_operation, mbind.
  destruct (read_old_content_total
              (joinpath wd (parse (CodeParser.file_path op))) (op_type op) fs)
    as (old & -> & Hold).
  exists old. split; [reflexivity | exact Hold].
Qed.

(** X15.  [generate_diffs] never raises and does not touch the file system.
    It returns one diff per operation, in order, with the path, type and
    content of the operation and the statistics of its two contents.  For a
    CREATE the existing file is not read: the old content is absent and
    nothing counts as removed, even when the file exists. *)
Theorem generate_diffs_gives_one_diff_per_operation
    (wd : path) (operations : list FileOperation) (fs : FS) :
  exists diffs,
    generate_diffs difflib_unified_diff wd operations fs = (Ok diffs, fs) /\
    map file_path diffs = map CodeParser.file_path operations /\
    map operation diffs = map op_type operations /\
    map new_content diffs = map content operations /\
    Forall (fun d =>
              stats d = _calculate_stats (old_content d) (new_content d) /\
              (operation d = CREATE ->
               old_content d = None /\
               lines_removed (stats d) = 0%Z /\ chars_removed (stats d) = 0%Z))
           diffs.
Proof.
  induction operations as [|op rest IH].
  - exists []. repeat split; constructor.
  - destruct IH as (diffs & Hg & Hp & Ho & Hn & Hall).
    destruct (generate_diff_for_operation_total wd op fs) as (old & Hd & Hold).
    cbn [generate_diffs]. unfold mbind at 1. rewrite Hd.
    unfold mbind. rewrite Hg.
    eexists. split; [reflexivity|]. cbn [map file_path operation new_content].
    rewrite Hp, Ho, Hn. repeat split; try reflexivity.
    constructor; [|exact Hall]. cbn [stats old_content new_content operation].
    split; [reflexivity|]. intros Hc. rewrite (Hold Hc).
    split; [reflexivity|]. split; [|reflexivity].
    unfold _calculate_stats. cbn [lines_removed].
    change (lines_of None) with (@nil string). unfold len. cbn [length]. lia.
Qed.

(** X16.  The diff generated for an operation other than DELETE, once
    applied, can be read back: under a free way and where no directory
    stands, [apply_changes] reports the path as a success and the file then
    holds the content of the operation byte for byte (nothing when it has
    none).  Read as text it gives that content with every CR LF and every
    CR alone turned into LF. *)
Theorem a_generated_diff_applied_reads_back
    (wd : path) (op : FileOperation) (fs : FS) :
  let k := parts (joinpath wd (parse (CodeParser.file_path op))) in
  op_type op <> DELETE ->
  free_way fs k ->
  node_at fs k <> Some Dir ->
  exists diff fs',
    generate_diffs difflib_unified_diff wd [op] fs = (Ok [diff], fs) /\
    apply_changes wd [diff] false fs
    = (mkResults [CodeParser.file_path op] [] [], fs') /\
    read_bytes (joinpath wd (parse (CodeParser.file_path op))) fs'
    = (Ok (content_or_empty (content op)), fs') /\
    read_text (joinpath wd (parse (CodeParser.file_path op))) fs'
    = (Ok (universal_newlines (content_or_empty (content op))), fs').
Proof.
  intros k Hop Hw Hn.
  destruct (generate_diff_for_operation_total wd op fs) as (old & Hd & _).
  set (diff := mkFileDiff (op_type op) (CodeParser.file_path op) old (content op)
                 (_create_unified_diff difflib_unified_diff (CodeParser.file_path op)
                    old (content op) (op_type op))
                 (_calculate_stats old (content op))) in *.
  destruct (apply_one_create_clean wd diff fs Hop Hw Hn) as (fs1 & Ha & _ & _ & R & N1).
  exists diff, (<[k := File (content_or_empty (content op))]> fs1).
  split; [|split; [|split]].
  - cbn [generate_diffs]. unfold mbind at 1. rewrite Hd. reflexivity.
  - unfold apply_changes. cbn [apply_loop]. rewrite Ha. reflexivity.
  - apply read_after_write; [exact R | exact N1].
  - apply read_text_of_bytes, read_after_write; [exact R | exact N1].
Qed.

(** ** The text of the preview of a new file *)

Lemma string_of_list_app (a b : list ascii) :
  string_of_list_ascii (a ++ b) = string_of_list_ascii a +:+ string_of_list_ascii b.
Proof. induction a as [|c a IH]; [reflexivity|]. simpl. rewrite IH. reflexivity. Qed.

Lemma str_app_assoc (a b c : string) : (a +:+ b) +:+ c = a +:+ (b +:+ c).
Proof. induction a as [|x a IH]; [reflexivity|]. rewrite !str_app_cons, IH. reflexivity. Qed.

Lemma glue_cons (c : ascii) (cur : list ascii) (lines : list string) :
  glue (c :: cur) lines = glue cur (glue [c] lines).
Proof.
  unfold glue. destruct lines as [|h t]; cbn [List.rev app].
  - rewrite string_of_list_app. destruct cur; reflexivity.
  - rewrite string_of_list_app. cbn [string_of_list_ascii].
    rewrite str_app_assoc. reflexivity.
Qed.

Lemma splitlines_keep_go_cur (s : string) (cur : list ascii) :
  splitlines_keep_go s cur = glue cur (splitlines_keep_go s []).
Proof.
  revert cur. induction s as [|c s IH]; intros cur.
  - cbn [splitlines_keep_go glue]. rewrite app_nil_r. reflexivity.
  - assert (splitlines_keep_go s (c :: cur) = glue cur (splitlines_keep_go s [c])) as Hpush.
    { rewrite (IH (c :: cur)), (IH [c]). apply glue_cons. }
    assert (forall brk rest,
              string_of_list_ascii (List.rev cur ++ brk) :: rest
              = glue cur (string_of_list_ascii (List.rev [] ++ brk) :: rest)) as Hflush.
    { intros brk rest. cbn [glue List.rev app]. rewrite string_of_list_app. reflexivity. }
    cbn [splitlines_keep_go].
    destruct (eqc c cr).
    { destruct s as [|c1 s'']; [apply Hflush|].
      destruct (eqc c1 nl); apply Hflush. }
    destruct (is_line_break c); [apply Hflush|].
    destruct (code c =? 194).
    { destruct s as [|c1 s'']; [exact Hpush|].
      destruct (code c1 =? 133); [apply Hflush | exact Hpush]. }
    destruct (code c =? 226); [|exact Hpush].
    destruct s as [|c1 [|c2 s''']]; try exact Hpush.
    destruct ((code c1 =? 128) && ((code c2 =? 168) || (code c2 =? 169)));
      [apply Hflush | exact Hpush].
Qed.

(** The first line begins with the first character of the text. *)
Lemma splitlines_keep_first (c : ascii) (s : string) :
  exists h t, splitlines_keep (String c s) = String c h :: t.
Proof.
  unfold splitlines_keep.
  assert (exists h t, splitlines_keep_go s [c] = String c h :: t) as Hpush.
  { rewrite splitlines_keep_go_cur. unfold glue.
    destruct (splitlines_keep_go s []); cbn [List.rev app string_of_list_ascii];
      rewrite ?str_app_cons; eauto. }
  cbn [splitlines_keep_go List.rev app].
  destruct (eqc c cr).
  { destruct s as [|c1 s'']; [cbn; eauto|]. destruct (eqc c1 nl); cbn; eauto. }
  destruct (is_line_break c); [cbn; eauto|].
  destruct (code c =? 194).
  { destruct s as [|c1 s'']; [exact Hpush|].
    destruct (code c1 =? 133); [cbn; eauto | exact Hpush]. }
  destruct (code c =? 226); [|exact Hpush].
  destruct s as [|c1 [|c2 s''']]; try exact Hpush.
  destruct ((code c1 =? 128) && ((code c2 =? 168) || (code c2 =? 169)));
    [cbn; eauto | exact Hpush].
Qed.

Lemma splitlines_keep_plus (s : string) :
  splitlines_keep (String "+" s) = glue ["+"%char] (splitlines_keep s).
Proof.
  unfold splitlines_keep. rewrite <- splitlines_keep_go_cur. reflexivity.
Qed.

(** X17.  The preview of a new file puts a plus sign before every line that
    does not start with one.  A content and the same content behind one more
    plus sign therefore have the same preview. *)
Theorem create_preview_hides_a_leading_plus
    (file_path : string) (old old' : option string) (c : ascii) (s : string) :
  c <> "+"%char ->
  _create_unified_diff difflib_unified_diff file_path old (Some (String "+" (String c s))) CREATE
  = _create_unified_diff difflib_unified_diff file_path old' (Some (String c s)) CREATE.
Proof.
  intros Hc. unfold _create_unified_diff, keep_lines_of. cbn [truthy is_empty negb].
  rewrite splitlines_keep_plus.
  destruct (splitlines_keep_first c s) as (h & t & ->).
  cbn [glue List.rev app string_of_list_ascii map].
  change (String "+" EmptyString +:+ String c h) with (String "+" (String c h)).
  assert (mark "+" (String c h) = String "+" (String c h)) as ->.
  { unfold mark, startswith. cbn [String.prefix].
    destruct (Ascii.ascii_dec "+" c) as [E|E]; [congruence | reflexivity]. }
  assert (mark "+" (String "+" (String c h)) = String "+" (String c h)) as ->.
  { unfold mark, startswith. cbn [String.prefix].
    destruct (Ascii.ascii_dec "+" "+") as [E|E]; [|congruence].
    reflexivity. }
  reflexivity.
Qed.

End Previews.

Section DeleteExisting.
Import PyStr Py Fs FsOps CodeParser DiffGenerator.

(** X18.  A Delete of an existing regular file whose way is free is
    reported as a success; afterwards the path does not exist, and apart
    from it and the directories on its way the file system is as before. *)
Theorem delete_of_an_existing_file
    (wd : path) (d : FileDiff) (fs : FS) (data : string) :
  let k := parts (target wd d) in
  operation d = DELETE ->
  free_way fs k ->
  node_at fs k = Some (File data) ->
  exists fs1,
    apply_changes wd [d] false fs = (mkResults [file_path d] [] [], delete k fs1) /\
    grows fs fs1 /\
    exists_ (target wd d) (delete k fs1) = false /\
    (forall q, q <> k -> ~ q `prefix_of` removelast k -> delete k fs1 !! q = fs !! q).
Proof.
  intros k Hop Hw Hn.
  assert (k <> []) as Hne by (intros E; rewrite E in Hn; discriminate Hn).
  destruct (free_way_parent fs k Hw Hne) as [Hcp Hpp].
  destruct (mkdir_parents_clean (parent (target wd d)) fs Hcp Hpp) as (fs1 & M & G & D & F).
  cbn [parent parts] in F. fold k in F.
  destruct (resolve_of_parent _ _ D) as [k' R].
  assert (k' = k) as ->
    by (unfold resolve in R; rewrite (walk_clean_inv _ _ _ _ (proj1 Hw) R); reflexivity).
  assert (node_at fs1 k = Some (File data)) as Hn1.
  { rewrite node_at_nonroot by exact Hne.
    rewrite (F k (not_prefix_removelast k Hne)).
    rewrite <- (node_at_nonroot fs k Hne). exact Hn. }
  exists fs1. split; [|split; [exact G|split]].
  - unfold apply_changes. cbn [apply_loop].
    rewrite (apply_one_delete wd d fs fs1 Hop M).
    assert (exists_ (target wd d) fs1 = true) as ->
      by (unfold exists_, stat; rewrite R; cbn [Py.bind]; rewrite Hn1; reflexivity).
    unfold mbind, unlink. rewrite R, Hn1. reflexivity.
  - apply exists_false_clean; [exact (proj1 Hw)|]. fold k.
    rewrite node_at_nonroot by exact Hne. apply lookup_delete_eq.
  - intros q Hq Hnp. rewrite lookup_delete_ne by congruence. apply F. exact Hnp.
Qed.

End DeleteExisting.

Section PathText.
Import PyStr Py Fs FsOps.

Lemma split_char_no_slash (s : string) :
  Forall (fun c => no_slash c = true) (split_char slash s).
Proof.
  induction s as [|a s IH]; cbn [split_char].
  - constructor; [reflexivity | constructor].
  - destruct (eqc a slash) eqn:E.
    + constructor; [reflexivity | exact IH].
    + destruct (split_char slash s) as [|h t]; constructor.
      * cbn [no_slash]. rewrite E. reflexivity.
      * constructor.
      * apply Forall_cons in IH as [Hh _]. cbn [no_slash]. rewrite E, Hh. reflexivity.
      * apply Forall_cons in IH as [_ Ht]. exact Ht.
Qed.

Lemma split_char_whole (x : string) :
  no_slash x = true -> split_char slash x = [x].
Proof.
  induction x as [|a x IH]; [reflexivity|]. cbn [no_slash split_char].
  intros H. apply andb_prop in H as [Ha Hx]. apply negb_true_iff in Ha.
  rewrite Ha, (IH Hx). reflexivity.
Qed.

Lemma split_char_app_sep (x z : string) :
  no_slash x = true ->
  split_char slash (x +:+ String slash z) = x :: split_char slash z.
Proof.
  induction x as [|a x IH].
  - intros _. rewrite str_app_nil. cbn [split_char].
    unfold eqc. rewrite Ascii.eqb_refl. reflexivity.
  - cbn [no_slash]. intros H. apply andb_prop in H as [Ha Hx]. apply negb_true_iff in Ha.
    rewrite str_app_cons. cbn [split_char]. rewrite Ha, (IH Hx). reflexivity.
Qed.

Lemma component_inv (c : string) :
  component c = true -> keep_part c = true /\ no_slash c = true.
Proof. unfold component. intros H. apply andb_prop in H. exact H. Qed.

Lemma split_join (l : list string) :
  Forall (fun c => component c = true) l ->
  List.filter keep_part (split_char slash (join "/" l)) = l.
Proof.
  induction l as [|x l IH]; intros Hl; [reflexivity|].
  apply Forall_cons in Hl as [Hx Hl]. apply component_inv in Hx as [Hk Hn].
  destruct l as [|y l].
  - cbn [join]. rewrite (split_char_whole x Hn). cbn [List.filter]. rewrite Hk. reflexivity.
  - change (join "/" (x :: y :: l)) with (x +:+ String slash (join "/" (y :: l))).
    rewrite (split_char_app_sep _ _ Hn). cbn [List.filter]. rewrite Hk.
    f_equal. apply IH. exact Hl.
Qed.

Lemma join_head (x : string) (l : list string) :
  exists rest, join "/" (x :: l) = x +:+ rest.
Proof.
  destruct l as [|y l].
  - exists EmptyString. cbn [join]. induction x as [|a x IH]; [reflexivity|].
    rewrite str_app_cons, <- IH. reflexivity.
  - eexists. reflexivity.
Qed.

Lemma component_head (x : string) :
  component x = true -> exists a x', x = String a x' /\ eqc a slash = false.
Proof.
  intros H. apply component_inv in H as [Hk Hn].
  destruct x as [|a x']; [discriminate Hk|].
  cbn [no_slash] in Hn. apply andb_prop in Hn as [Ha _]. apply negb_true_iff in Ha.
  eauto.
Qed.

(** [Path(str(p)) == p] for a path made of plain components. *)
Lemma parse_str (p : path) :
  Forall (fun c => component c = true) (parts p) -> parse (str p) = p.
Proof.
  destruct p as [a l]. cbn [parts]. intros Hl. unfold str, parse. cbn [absolute parts].
  destruct a.
  - change ("/" +:+ join "/" l) with (String slash (join "/" l)).
    cbn [startswith String.prefix split_char].
    unfold eqc. rewrite Ascii.eqb_refl.
    destruct (Ascii.ascii_dec "/" slash) as [_|N]; [|exfalso; apply N; reflexivity].
    cbn [List.filter keep_part is_empty negb andb]. rewrite (split_join l Hl).
    destruct (join "/" l); reflexivity.
  - destruct l as [|x l]; [reflexivity|].
    rewrite (split_join (x :: l) Hl). f_equal.
    pose proof Hl as Hl'. apply Forall_cons in Hl' as [Hx _].
    destruct (component_head x Hx) as (c & x' & -> & Hc).
    destruct (join_head (String c x') l) as [rest ->].
    rewrite str_app_cons. cbn [startswith String.prefix].
    destruct (Ascii.ascii_dec "/" c) as [E|_]; [|reflexivity].
    subst c. discriminate Hc.
Qed.

Lemma parse_components (s : string) :
  Forall (fun c => component c = true) (parts (parse s)).
Proof.
  unfold parse. cbn [parts]. apply Forall_forall. intros c Hc.
  apply list_elem_of_In, filter_In in Hc as [Hin Hk]. unfold component. rewrite Hk.
  pose proof (split_char_no_slash s) as H. rewrite Forall_forall in H.
  rewrite (H c); [reflexivity|]. apply list_elem_of_In. exact Hin.
Qed.

Lemma joinpath_components (a : path) (s : string) :
  Forall (fun c => component c = true) (parts a) ->
  Forall (fun c => component c = true) (parts (joinpath a (parse s))).
Proof.
  intros Ha. unfold joinpath. destruct (absolute (parse s)).
  - apply parse_components.
  - cbn [parts]. apply Forall_app. split; [exact Ha | apply parse_components].
Qed.

End PathText.

Section Kinds.
Import PyStr Py Fs FsOps.

Lemma keeps_kinds_refl (fs : FS) : keeps_kinds fs fs.
Proof. intros k. destruct (fs !! k) as [[d|]|]; eauto. Qed.

Lemma keeps_kinds_trans (a b c : FS) :
  keeps_kinds a b -> keeps_kinds b c -> keeps_kinds a c.
Proof.
  intros H1 H2 k. specialize (H1 k). specialize (H2 k).
  destruct (a !! k) as [[d|]|]; [| |exact I].
  - destruct H1 as [d' H1]. rewrite H1 in H2. exact H2.
  - rewrite H1 in H2. exact H2.
Qed.

Lemma grows_keeps_kinds (fs fs' : FS) : grows fs fs' -> keeps_kinds fs fs'.
Proof.
  intros G k. destruct (G k) as [E|[E _]]; rewrite <- ?E.
  - destruct (fs' !! k) as [[d|]|]; eauto.
  - rewrite E. exact I.
Qed.

Lemma keeps_kinds_insert_file (fs : FS) (k : key) (data : string) :
  node_at fs k <> Some Dir -> keeps_kinds fs (<[k := File data]> fs).
Proof.
  intros Hk q. destruct (decide (k = q)) as [<-|Hne].
  - rewrite lookup_insert_eq. destruct k as [|c k]; [exfalso; apply Hk; reflexivity|].
    cbn [node_at] in Hk. destruct (fs !! (c :: k)) as [[d|]|]; [eauto | congruence | exact I].
  - rewrite lookup_insert_ne by exact Hne. destruct (fs !! q) as [[d|]|]; eauto.
Qed.

Lemma keeps_kinds_dirs (fs fs' : FS) : keeps_kinds fs fs' -> keeps_dirs fs fs'.
Proof.
  intros H k. destruct k as [|c k]; [auto|]. cbn [node_at]. intros E.
  specialize (H (c :: k)). rewrite E in H. exact H.
Qed.

Lemma copy2_cases (src dst : path) (fs fs' : FS) (r : result unit) :
  copy2 src dst fs = (r, fs') ->
  (fs' = fs /\ exists e, r = Raise e) \/
  (r = Ok tt /\ exists dst' k data,
     (dst' = dst \/ is_dir dst fs = true) /\
     read_bytes src fs = (Ok data, fs) /\
     resolve fs dst' = Ok k /\ node_at fs k <> Some Dir /\
     fs' = <[k := File data]> fs).
Proof.
  unfold copy2, mbind, gets.
  set (dst' := if is_dir dst fs then joinpath dst (basename src) else dst).
  destruct (samefile src dst' fs).
  { intros [= <- <-]. left. eauto. }
  rewrite read_bytes_readonly.
  destruct (fst (read_bytes src fs)) as [data|e] eqn:Rd.
  2:{ intros [= <- <-]. left. eauto. }
  destruct (write_text dst' data fs) as [[[]|e] fs2] eqn:W.
  - intros [= <- <-]. right. split; [reflexivity|].
    apply write_text_ok_inv in W as (k & Hr & Hn & ->).
    exists dst', k, data.
    split; [subst dst'; destruct (is_dir dst fs); auto|].
    split; [reflexivity|]. auto.
  - intros [= <- <-]. left. split; [|eauto]. unfold write_text in W.
    destruct (resolve fs dst'); [destruct (node_at fs a) as [[]|]|]; congruence.
Qed.

Lemma copy2_keeps_kinds (src dst : path) (fs fs' : FS) (r : result unit) :
  copy2 src dst fs = (r, fs') -> keeps_kinds fs fs'.
Proof.
  intros H. apply copy2_cases in H as [[-> _]|(_ & dst' & k & data & _ & _ & _ & Hn & ->)].
  - apply keeps_kinds_refl.
  - apply keeps_kinds_insert_file. exact Hn.
Qed.

End Kinds.

Section BackupKinds.
Import PyStr Py Fs FsOps BackupManager.
Context (json_dumps : Manifest -> string) (json_loads : string -> option Manifest).

Lemma backup_one_cases (mgr : manager) (bp : path) (f : string)
    (files : list FileInfo) (fs fs' : FS) (r : result (list FileInfo)) :
  backup_one mgr bp f files fs = (r, fs') ->
  keeps_kinds fs fs' /\
  (r = Ok files \/ exists rel sz, r = Ok (files ++ [mkFileInfo f rel sz])).
Proof.
  unfold backup_one, mbind at 1, gets.
  destruct (negb (exists_ (joinpath (working_dir mgr) (parse f)) fs)).
  { intros [= <- <-]. split; [apply keeps_kinds_refl | auto]. }
  unfold try_except, mbind at 1.
  destruct (mkdir_parents (parent (joinpath bp (parse f))) fs) as [[[]|e] fs1] eqn:M.
  2:{ intros [= <- <-]. split; [|auto].
      eapply grows_keeps_kinds, mkdir_parents_grows. exact M. }
  pose proof (grows_keeps_kinds _ _ (mkdir_parents_grows _ _ _ _ M)) as K1.
  unfold mbind at 1.
  destruct (copy2 (joinpath (working_dir mgr) (parse f)) (joinpath bp (parse f)) fs1)
    as [[[]|e] fs2] eqn:C.
  2:{ intros [= <- <-]. split; [|auto].
      eapply keeps_kinds_trans; [exact K1 | eapply copy2_keeps_kinds; exact C]. }
  pose proof (keeps_kinds_trans _ _ _ K1 (copy2_keeps_kinds _ _ _ _ _ C)) as K2.
  unfold mbind, st_size, query. cbv beta.
  destruct (relative_to (joinpath bp (parse f)) bp) as [rel|e].
  2:{ intros [= <- <-]. auto. }
  match goal with |- context [Py.bind ?a ?b] => destruct (Py.bind a b) as [sz|e] end.
  - intros [= <- <-]. split; [exact K2|]. right. eauto.
  - intros [= <- <-]. auto.
Qed.

Lemma backup_loop_cases (mgr : manager) (bp : path) (file_paths : list string)
    (files : list FileInfo) (fs fs' : FS) (r : result (list FileInfo)) :
  backup_loop mgr bp file_paths files fs = (r, fs') ->
  keeps_kinds fs fs' /\
  exists added, r = Ok (files ++ added) /\
                map original_path added `sublist_of` file_paths.
Proof.
  revert files fs. induction file_paths as [|f rest IH]; intros files fs.
  - cbn [backup_loop]. intros [= <- <-]. split; [apply keeps_kinds_refl|].
    exists []. rewrite app_nil_r. split; [reflexivity | constructor].
  - cbn [backup_loop]. unfold mbind.
    destruct (backup_one mgr bp f files fs) as [r1 fs1] eqn:B.
    apply backup_one_cases in B as [K1 Hr1]. intros H.
    destruct Hr1 as [->|(rel & sz & ->)].
    + apply IH in H as [K2 (added & -> & Hs)].
      split; [eapply keeps_kinds_trans; eassumption|].
      exists added. split; [reflexivity | apply sublist_cons; exact Hs].
    + apply IH in H as [K2 (added & -> & Hs)].
      split; [eapply keeps_kinds_trans; eassumption|].
      exists (mkFileInfo f rel sz :: added). rewrite <- app_assoc. split; [reflexivity|].
      cbn [map original_path]. apply sublist_skip. exact Hs.
Qed.

Lemma write_text_keeps_kinds (p : path) (data : string) (fs fs' : FS) (r : result unit) :
  write_text p data fs = (r, fs') -> keeps_kinds fs fs'.
Proof.
  unfold write_text. destruct (resolve fs p) as [k|e].
  - destruct (node_at fs k) as [[d|]|] eqn:N; intros [= <- <-];
      try apply keeps_kinds_refl; apply keeps_kinds_insert_file; congruence.
  - intros [= <- <-]. apply keeps_kinds_refl.
Qed.

(** X19.  [create_backup] removes nothing, whether it returns or raises:
    every directory is still a directory and every regular file still a
    regular file. *)
Theorem create_backup_removes_nothing
    (mgr : manager) (now : string) (file_paths : list string)
    (fs fs' : FS) (r : result string) :
  create_backup json_dumps mgr now file_paths fs = (r, fs') ->
  forall k,
    match fs !! k with
    | Some Dir => fs' !! k = Some Dir
    | Some (File _) => exists data, fs' !! k = Some (File data)
    | None => True
    end.
Proof.
  intros H. change (keeps_kinds fs fs'). revert H.
  unfold create_backup, mbind at 1.
  set (bp := joinpath (backup_dir mgr) (parse ("backup_" +:+ now))).
  destruct (mkdir_exist_ok bp fs) as [[[]|e] fs1] eqn:M.
  2:{ intros [= <- <-]. eapply grows_keeps_kinds, mkdir_exist_ok_grows. exact M. }
  pose proof (grows_keeps_kinds _ _ (mkdir_exist_ok_grows _ _ _ _ M)) as K1.
  unfold mbind at 1.
  destruct (backup_loop mgr bp file_paths [] fs1) as [r2 fs2] eqn:L.
  apply backup_loop_cases in L as [K2 (added & -> & _)].
  unfold mbind.
  destruct (write_text _ _ fs2) as [[[]|e] fs3] eqn:W; intros [= <- <-];
    (eapply keeps_kinds_trans; [exact K1|]);
    (eapply keeps_kinds_trans; [exact K2|]);
    eapply write_text_keeps_kinds; exact W.
Qed.

Lemma restore_one_keeps_kinds (mgr : manager) (bp : path) (fi : FileInfo)
    (fs fs' : FS) (r : result unit) :
  restore_one mgr bp fi fs = (r, fs') -> keeps_kinds fs fs'.
Proof.
  unfold restore_one, mbind.
  destruct (mkdir_parents _ fs) as [[[]|e] fs1] eqn:M.
  - intros C. eapply keeps_kinds_trans.
    + eapply grows_keeps_kinds, mkdir_parents_grows. exact M.
    + eapply copy2_keeps_kinds. exact C.
  - intros [= <- <-]. eapply grows_keeps_kinds, mkdir_parents_grows. exact M.
Qed.

Lemma restore_loop_keeps_kinds (mgr : manager) (bp : path)
    (file_paths : option (list string)) (infos : list FileInfo)
    (acc r : Restored) (fs fs' : FS) :
  restore_loop mgr bp file_paths infos acc fs = (r, fs') -> keeps_kinds fs fs'.
Proof.
  revert acc fs. induction infos as [|fi infos IH]; intros acc fs; cbn [restore_loop].
  - intros [= <- <-]. apply keeps_kinds_refl.
  - destruct (filtered_out file_paths (original_path fi)); [apply IH|].
    destruct (restore_one mgr bp fi fs) as [[[]|e] fs1] eqn:R; intros H;
      (eapply keeps_kinds_trans; [eapply restore_one_keeps_kinds; exact R|]);
      eapply IH; exact H.
Qed.

(** X20.  [restore_backup] removes nothing, whether it returns or raises:
    every directory is still a directory and every regular file still a
    regular file.  A file created after the backup was made is still there
    after the restore. *)
Theorem restore_backup_removes_nothing
    (mgr : manager) (backup_name : string) (file_paths : option (list string))
    (fs fs' : FS) (r : result Restored) :
  restore_backup json_loads mgr backup_name file_paths fs = (r, fs') ->
  forall k,
    match fs !! k with
    | Some Dir => fs' !! k = Some Dir
    | Some (File _) => exists data, fs' !! k = Some (File data)
    | None => True
    end.
Proof.
  intros H. change (keeps_kinds fs fs'). revert H.
  unfold restore_backup, mbind.
  destruct (read_manifest json_loads mgr backup_name fs) as [[m|e] fs1] eqn:R;
    apply read_manifest_readonly in R; subst fs1.
  - destruct (restore_loop _ _ _ _ _ fs) as [res fs2] eqn:L. intros [= <- <-].
    eapply restore_loop_keeps_kinds. exact L.
  - intros [= <- <-]. apply keeps_kinds_refl.
Qed.

End BackupKinds.

Section SnapshotPaths.
Import PyStr Py Fs FsOps.

Lemma is_dir_exists (p : path) (fs : FS) : is_dir p fs = true -> exists_ p fs = true.
Proof.
  unfold is_dir, exists_. destruct (stat p fs) as [[d|]|e]; [discriminate | reflexivity | discriminate].
Qed.

Lemma joinpath_absolute (a b : path) : absolute b = true -> joinpath a b = b.
Proof. unfold joinpath. intros ->. reflexivity. Qed.

Lemma joinpath_relative (a : path) (s : string) :
  startswith "/" s = false ->
  joinpath a (parse s) = Path (absolute a) (parts a ++ parts (parse s)).
Proof. unfold joinpath, parse. cbn [absolute parts]. intros ->. reflexivity. Qed.

(** The proper ancestors of a path that resolves are directories. *)
Lemma walk_ok_dirs (fs : FS) (cur : key) (comps : list string) (k : key) :
  clean comps -> walk fs cur comps = Ok k ->
  forall q, q `prefix_of` comps -> q <> comps -> node_at fs (cur ++ q) = Some Dir.
Proof.
  intros Hc. revert cur. induction Hc as [|c rest Hne Hc IH]; intros cur W q Hq Hn.
  - apply prefix_nil_inv in Hq. congruence.
  - cbn [walk] in W. destruct (node_at fs cur) as [[d|]|] eqn:E; try discriminate W.
    apply String.eqb_neq in Hne. rewrite Hne in W.
    destruct q as [|x q]; [rewrite app_nil_r; exact E|].
    apply prefix_cons_inv_1 in Hq as Hx. subst x.
    apply prefix_cons_inv_2 in Hq.
    replace (cur ++ c :: q) with ((cur ++ [c]) ++ q) by (rewrite <- app_assoc; reflexivity).
    eapply IH; [exact W | exact Hq | congruence].
Qed.

Lemma prefix_app_cases (q a b : key) :
  q `prefix_of` a ++ b -> q `prefix_of` a \/ exists b', q = a ++ b' /\ b' `prefix_of` b.
Proof.
  revert q. induction a as [|x a IH]; intros q Hq.
  - right. exists q. split; [reflexivity | exact Hq].
  - destruct q as [|y q]; [left; apply prefix_nil|].
    cbn [app] in Hq. apply prefix_cons_inv_1 in Hq as Hy. subst y.
    apply prefix_cons_inv_2 in Hq. destruct (IH q Hq) as [H|(b' & -> & H)].
    + left. apply prefix_cons. exact H.
    + right. exists b'. split; [reflexivity | exact H].
Qed.

Lemma strip_prefix_app (a b : list string) : strip_prefix a (a ++ b) = Some b.
Proof.
  induction a as [|x a IH]; [destruct b; reflexivity|].
  cbn [app strip_prefix]. rewrite String.eqb_refl. exact IH.
Qed.

Lemma no_slash_app (a b : string) :
  no_slash (a +:+ b) = no_slash a && no_slash b.
Proof.
  induction a as [|c a IH]; [reflexivity|].
  rewrite str_app_cons. cbn [no_slash]. rewrite IH. apply andb_assoc.
Qed.

(** The name of a snapshot is one component. *)
Lemma parse_backup_name (now : string) :
  no_slash now = true ->
  parse ("backup_" +:+ now) = Path false ["backup_" +:+ now].
Proof.
  intros Hn. unfold parse. f_equal.
  rewrite split_char_whole by (rewrite no_slash_app, Hn; reflexivity).
  reflexivity.
Qed.

Lemma resolve_clean_dir (fs : FS) (p : path) :
  clean (parts p) -> is_dir p fs = true ->
  resolve fs p = Ok (parts p) /\
  forall q, q `prefix_of` parts p -> node_at fs q = Some Dir.
Proof.
  intros Hc D. apply is_dir_inv in D as (k & R & N).
  pose proof R as R'. unfold resolve in R'.
  apply (walk_clean_inv _ _ _ _ Hc) in R'. cbn [app] in R'. subst k.
  split; [exact R|]. intros q Hq.
  destruct (decide (q = parts p)) as [->|Hne]; [exact N|].
  exact (walk_ok_dirs fs [] (parts p) _ Hc R q Hq Hne).
Qed.

Lemma resolve_child (fs : FS) (p : path) (c : string) :
  clean (parts p) -> is_dir p fs = true -> c <> ".." ->
  resolve fs (Path (absolute p) (parts p ++ [c])) = Ok (parts p ++ [c]).
Proof.
  intros Hc D Hne. destruct (resolve_clean_dir fs p Hc D) as [R N].
  unfold resolve in *. cbn [parts]. rewrite walk_app, R. cbn [Py.bind walk].
  rewrite (N (parts p)) by reflexivity.
  apply String.eqb_neq in Hne. rewrite Hne. reflexivity.
Qed.

Lemma read_bytes_inv (p : path) (fs fs' : FS) (data : string) :
  read_bytes p fs = (Ok data, fs') ->
  exists k, resolve fs p = Ok k /\ node_at fs k = Some (File data).
Proof.
  unfold read_bytes, query, stat. destruct (resolve fs p) as [k|e]; [|discriminate].
  cbn [Py.bind]. destruct (node_at fs k) as [[d|]|] eqn:N; try discriminate.
  intros [= <- _]. eauto.
Qed.

Lemma samefile_distinct (a b : path) (fs : FS) (ka kb : key) :
  resolve fs a = Ok ka -> resolve fs b = Ok kb -> ka <> kb -> samefile a b fs = false.
Proof.
  intros Ra Rb Hne. unfold samefile. rewrite Ra, Rb.
  destruct (node_at fs ka), (node_at fs kb); try reflexivity.
  apply bool_decide_eq_false. exact Hne.
Qed.

Lemma is_dir_false_intro (p : path) (fs : FS) (k : key) :
  resolve fs p = Ok k -> node_at fs k <> Some Dir -> is_dir p fs = false.
Proof.
  intros R N. unfold is_dir, stat. rewrite R. cbn [Py.bind].
  destruct (node_at fs k) as [[d|]|]; [reflexivity | congruence | reflexivity].
Qed.

(** [copy2] of a regular file onto a path that is no directory. *)
Lemma copy2_ok (src dst : path) (fs : FS) (ks kd : key) (data : string) :
  resolve fs src = Ok ks -> node_at fs ks = Some (File data) ->
  resolve fs dst = Ok kd -> node_at fs kd <> Some Dir ->
  ks <> kd ->
  copy2 src dst fs = (Ok tt, <[kd := File data]> fs).
Proof.
  intros Rs Ns Rd Nd Hne. unfold copy2, mbind, gets.
  rewrite (is_dir_false_intro dst fs kd Rd Nd).
  rewrite (samefile_distinct src dst fs ks kd Rs Rd Hne).
  rewrite (read_bytes_file src fs ks data Rs Ns).
  apply write_text_ok; assumption.
Qed.

End SnapshotPaths.

Section Snapshot.
Import PyStr Py Fs FsOps BackupManager.
Context (json_dumps : Manifest -> string) (json_loads : string -> option Manifest).
Hypothesis json_law : forall m, json_loads (universal_newlines (json_dumps m)) = Some m.

(** What a successful [create_backup] did: the snapshot directory, the
    copies, and a manifest that is found under the returned name. *)
Lemma create_backup_inv
    (mgr : manager) (now : string) (file_paths : list string)
    (fs fs' : FS) (id : string) :
  let bp := joinpath (backup_dir mgr) (parse ("backup_" +:+ now)) in
  absolute (backup_dir mgr) = true ->
  Forall (fun c => component c = true) (parts (backup_dir mgr)) ->
  create_backup json_dumps mgr now file_paths fs = (Ok id, fs') ->
  exists fs1 fs2 added,
    mkdir_exist_ok bp fs = (Ok tt, fs1) /\
    backup_loop mgr bp file_paths [] fs1 = (Ok added, fs2) /\
    id = str bp /\
    read_manifest json_loads mgr id fs' = (Ok (mkManifest now id added), fs').
Proof.
  intros bp Habs Hcomp. unfold create_backup, mbind at 1. fold bp.
  destruct (mkdir_exist_ok bp fs) as [[[]|e] fs1] eqn:M; [|discriminate].
  destruct (mkdir_exist_ok_post _ _ _ M) as [_ D1].
  unfold mbind at 1.
  destruct (backup_loop mgr bp file_paths [] fs1) as [r2 fs2] eqn:L.
  pose proof L as L'.
  apply backup_loop_cases in L' as [K2 (added & -> & Hsub)].
  cbn [app] in *. unfold mbind.
  set (m := mkManifest now (str bp) added).
  set (man := joinpath bp (parse "manifest.json")).
  destruct (write_text man (json_dumps m) fs2) as [[[]|e] fs3] eqn:W; [|discriminate].
  intros [= <- <-].
  apply write_text_ok_inv in W as (k & Rk & Nk & ->).
  assert (k <> []) as Hk by (intros ->; apply Nk; reflexivity).
  assert (keeps_dirs fs1 (<[k := File (json_dumps m)]> fs2)) as K3.
  { eapply keeps_dirs_trans; [apply keeps_kinds_dirs; exact K2|].
    apply keeps_dirs_insert. exact Nk. }
  assert (absolute bp = true) as Hbabs.
  { unfold bp, joinpath. destruct (absolute (parse _)) eqn:E; [exact E | exact Habs]. }
  assert (joinpath (backup_dir mgr) (parse (str bp)) = bp) as Hid.
  { rewrite parse_str by (apply joinpath_components; exact Hcomp).
    apply joinpath_absolute. exact Hbabs. }
  exists fs1, fs2, added.
  split; [reflexivity|]. split; [exact L|]. split; [reflexivity|].
  unfold read_manifest. rewrite Hid. fold man.
  unfold mbind at 1, gets.
  rewrite (is_dir_exists bp _ (is_dir_keeps _ _ bp K3 D1)). cbn [negb].
  assert (resolve (<[k := File (json_dumps m)]> fs2) man = Ok k) as Rk'
    by (eapply resolve_keeps; [apply keeps_dirs_insert; exact Nk | exact Rk]).
  unfold mbind at 1. cbv beta.
  assert (exists_ man (<[k := File (json_dumps m)]> fs2) = true) as ->.
  { unfold exists_, stat. rewrite Rk'. cbn [Py.bind].
    rewrite node_at_insert_eq by exact Hk. reflexivity. }
  cbn [negb]. unfold mbind.
  rewrite (read_text_of_bytes _ _ _ _ (read_after_write man (json_dumps m) fs2 k Rk Nk)).
  rewrite json_law. reflexivity.
Qed.

(** X21.  The string [create_backup] returns is accepted by
    [restore_backup] as the name of the backup: it is the absolute path of
    the snapshot, and joining it to the backup directory gives that path
    again.  In the file system [create_backup] leaves, the manifest is found
    under that name; it carries the timestamp and the returned string, and
    its entries name requested paths only, in the order of the request. *)
Theorem create_backup_returns_a_name_that_restore_accepts
    (mgr : manager) (now : string) (file_paths : list string)
    (fs fs' : FS) (id : string) :
  absolute (backup_dir mgr) = true ->
  Forall (fun c => component c = true) (parts (backup_dir mgr)) ->
  create_backup json_dumps mgr now file_paths fs = (Ok id, fs') ->
  exists m,
    read_manifest json_loads mgr id fs' = (Ok m, fs') /\
    timestamp m = now /\
    backup_path m = id /\
    map original_path (files m) `sublist_of` file_paths.
Proof.
  intros Habs Hcomp Hcb.
  destruct (create_backup_inv mgr now file_paths fs fs' id Habs Hcomp Hcb)
    as (fs1 & fs2 & added & _ & L & _ & RM).
  apply backup_loop_cases in L as [_ (added' & E & Hsub)].
  cbn [app] in E. injection E as <-.
  eexists. split; [exact RM|]. split; [reflexivity|]. split; [reflexivity | exact Hsub].
Qed.

End Snapshot.

Section OneFile.
Import PyStr Py Fs FsOps BackupManager.
Context (json_dumps : Manifest -> string) (json_loads : string -> option Manifest).
Hypothesis json_law : forall m, json_loads (universal_newlines (json_dumps m)) = Some m.

Lemma backup_name_not_dotdot (now : string) : "backup_" +:+ now <> "..".
Proof. change (String "b" ("ackup_" +:+ now) <> ".."). discriminate. Qed.

Lemma clean_app (a b : key) : clean a -> clean b -> clean (a ++ b).
Proof. unfold clean. intros Ha Hb. apply Forall_app. split; assumption. Qed.

Lemma clean_single (c : string) : c <> ".." -> clean [c].
Proof. intros H. constructor; [exact H | constructor]. Qed.

Lemma resolve_clean_ok (fs : FS) (p : path) (k : key) :
  clean (parts p) -> resolve fs p = Ok k -> k = parts p.
Proof. intros Hc R. unfold resolve in R. apply (walk_clean_inv _ _ _ _ Hc) in R. exact R. Qed.

Lemma prefix_app_same (a b c : key) : a ++ b `prefix_of` a ++ c -> b `prefix_of` c.
Proof. induction a as [|x a IH]; [auto|]. cbn [app]. intros H. apply prefix_cons_inv_2 in H. auto. Qed.

(** The state a backup of one file leaves. *)
Lemma snapshot_one_file (mgr : manager) (now f data : string) (fs : FS) :
  let kw := parts (working_dir mgr) in
  let kb := parts (backup_dir mgr) in
  let pf := parts (parse f) in
  let ks := kb ++ ["backup_" +:+ now] in
  let m := mkManifest now (str (Path true ks))
             [mkFileInfo f (str (Path false pf)) (String.length data)] in
  absolute (backup_dir mgr) = true ->
  clean kb -> clean kw ->
  no_slash now = true ->
  startswith "/" f = false -> pf <> [] -> clean pf ->
  ~ ["manifest.json"] `prefix_of` pf ->
  is_dir (backup_dir mgr) fs = true ->
  read_bytes (joinpath (working_dir mgr) (parse f)) fs = (Ok data, fs) ->
  (forall q, ks `prefix_of` q -> fs !! q = None) ->
  exists fs1,
    create_backup json_dumps mgr now [f] fs = (Ok (str (Path true ks)), fs1) /\
    keeps_dirs fs fs1 /\
    is_dir (Path true ks) fs1 = true /\
    resolve fs1 (Path true (ks ++ pf)) = Ok (ks ++ pf) /\
    fs1 !! (ks ++ pf) = Some (File data) /\
    resolve fs1 (Path true (ks ++ ["manifest.json"])) = Ok (ks ++ ["manifest.json"]) /\
    fs1 !! (ks ++ ["manifest.json"]) = Some (File (json_dumps m)).
Proof.
  intros kw kb pf ks m Habs Hcb Hcw Hnow Hrel Hpf Hcp Hman Hd Hr Hfresh.
  set (name := "backup_" +:+ now) in *.
  pose proof (backup_name_not_dotdot now) as Hname. fold name in Hname.
  set (kd := ks ++ pf). set (km := ks ++ ["manifest.json"]).
  set (kf := kw ++ pf).
  assert (clean ks) as Hcs by (apply clean_app; [exact Hcb | apply clean_single; exact Hname]).
  assert (clean kd) as Hcd by (apply clean_app; assumption).
  assert (clean km) as Hcm by (apply clean_app; [exact Hcs | apply clean_single; discriminate]).
  assert (clean kf) as Hcf by (apply clean_app; assumption).
  assert (ks <> []) as Hks by (unfold ks; destruct kb; discriminate).
  assert (kd <> ks) as Hkd.
  { unfold kd. intros E. apply (f_equal (@length string)) in E.
    rewrite length_app in E. destruct pf; [congruence | simpl in E; lia]. }
  assert (km <> ks) as Hkm.
  { unfold km. intros E. apply (f_equal (@length string)) in E.
    rewrite length_app in E. simpl in E; lia. }
  assert (km <> kd) as Hkmd.
  { unfold km, kd. intros E. apply app_inv_head in E. apply Hman. rewrite E. reflexivity. }
  (* the paths *)
  assert (joinpath (backup_dir mgr) (parse name) = Path true ks) as Hbp.
  { unfold name. rewrite parse_backup_name by exact Hnow.
    unfold joinpath. cbn [absolute parts]. rewrite Habs. reflexivity. }
  assert (joinpath (working_dir mgr) (parse f)
          = Path (absolute (working_dir mgr)) kf) as Hsrc
    by (apply joinpath_relative; exact Hrel).
  assert (joinpath (Path true ks) (parse f) = Path true kd) as Hdst
    by (apply (joinpath_relative (Path true ks)); exact Hrel).
  assert (joinpath (Path true ks) (parse "manifest.json") = Path true km) as Hmanp
    by reflexivity.
  set (src := Path (absolute (working_dir mgr)) kf) in *.
  (* the file *)
  rewrite Hsrc in Hr. destruct (read_bytes_inv _ _ _ _ Hr) as (kf0 & Rf & Nf).
  assert (kf0 = kf) as -> by (apply (resolve_clean_ok fs src); assumption).
  assert (kf <> []) as Hkf by (intros E; rewrite E in Nf; discriminate Nf).
  assert (fs !! kf = Some (File data)) as Lf
    by (rewrite <- (node_at_nonroot fs kf Hkf); exact Nf).
  assert (forall q, ks `prefix_of` q -> q <> kf) as Hout.
  { intros q Hq E. rewrite E in Hq. rewrite (Hfresh kf Hq) in Lf. discriminate Lf. }
  (* the backup directory *)
  destruct (resolve_clean_dir fs (backup_dir mgr) Hcb Hd) as [Rb Nb].
  fold kb in Rb, Nb.
  (* step 1: the snapshot directory *)
  set (fsA := <[ks := Dir]> fs).
  assert (fs !! ks = None) as Ls by (apply Hfresh; reflexivity).
  assert (resolve fs (Path true ks) = Ok ks) as Rs
    by exact (resolve_child fs (backup_dir mgr) name Hcb Hd Hname).
  assert (mkdir_exist_ok (Path true ks) fs = (Ok tt, fsA)) as M1.
  { unfold mkdir_exist_ok, try_except, os_mkdir.
    rewrite Rs, (node_at_nonroot fs ks Hks), Ls. reflexivity. }
  assert (grows fs fsA) as GA by (apply grows_insert_dir; exact Ls).
  assert (is_dir (Path true ks) fsA = true) as DA.
  { apply (is_dir_intro _ _ ks).
    - eapply resolve_keeps; [apply grows_keeps_dirs; exact GA | exact Rs].
    - unfold fsA. apply node_at_insert_eq. exact Hks. }
  (* step 2: the copy *)
  assert (exists_ src fsA = true) as EA.
  { unfold exists_, stat.
    rewrite (resolve_keeps fs fsA src kf (grows_keeps_dirs _ _ GA) Rf). cbn [Py.bind].
    unfold fsA. rewrite node_at_insert_ne by (apply Hout; reflexivity).
    rewrite Nf. reflexivity. }
  assert (forall q, q `prefix_of` ks ++ removelast pf -> no_file_at fsA q) as Hway.
  { intros q Hq data' Hfile.
    apply prefix_app_cases in Hq as [Hq|(b' & -> & _)].
    - apply prefix_app_cases in Hq as [Hq|(b' & -> & Hb')].
      + pose proof (grows_keeps_dirs _ _ GA q (Nb q Hq)) as E. congruence.
      + assert (b' = [] \/ b' = [name]) as [->| ->].
        { destruct b' as [|x [|y b']]; auto.
          - apply prefix_cons_inv_1 in Hb' as ->. auto.
          - apply prefix_length in Hb'. simpl in Hb'. lia. }
        * rewrite app_nil_r in Hfile.
          pose proof (grows_keeps_dirs _ _ GA kb (Nb kb ltac:(reflexivity))) as E. congruence.
        * fold ks in Hfile. unfold fsA in Hfile.
          rewrite node_at_insert_eq in Hfile by exact Hks. discriminate Hfile.
    - destruct b' as [|x b'].
      + rewrite app_nil_r in Hfile. unfold fsA in Hfile.
        rewrite node_at_insert_eq in Hfile by exact Hks. discriminate Hfile.
      + assert (ks ++ x :: b' <> []) as Hne by (destruct ks; discriminate).
        rewrite (node_at_nonroot _ _ Hne) in Hfile. unfold fsA in Hfile.
        rewrite lookup_insert_ne in Hfile.
        2:{ intros E. apply (f_equal (@length string)) in E.
            rewrite length_app in E. simpl in E. lia. }
        rewrite Hfresh in Hfile by (apply prefix_app_r; reflexivity). discriminate Hfile. }
  assert (parts (parent (Path true kd)) = ks ++ removelast pf) as Hpar.
  { cbn [parent parts]. unfold kd. apply removelast_app. exact Hpf. }
  destruct (mkdir_parents_clean (parent (Path true kd)) fsA) as (fsB & M2 & GB & DB & FB).
  { rewrite Hpar. apply clean_app; [exact Hcs | apply clean_removelast; exact Hcp]. }
  { rewrite Hpar. exact Hway. }
  rewrite Hpar in FB.
  destruct (resolve_of_parent _ _ DB) as [kd0 Rd].
  assert (kd0 = kd) as -> by (apply (resolve_clean_ok fsB (Path true kd)); assumption).
  assert (~ kd `prefix_of` ks ++ removelast pf) as Hnd.
  { unfold kd. intros H. apply prefix_app_same in H.
    exact (not_prefix_removelast pf Hpf H). }
  assert (kd <> []) as Hkdne by (unfold kd; destruct ks; [congruence | discriminate]).
  assert (fsB !! kd = None) as LdB.
  { rewrite (FB kd Hnd). unfold fsA. rewrite lookup_insert_ne by congruence.
    apply Hfresh. apply prefix_app_r. reflexivity. }
  assert (keeps_dirs fs fsB) as KB
    by (eapply keeps_dirs_trans; apply grows_keeps_dirs; eassumption).
  assert (resolve fsB src = Ok kf) as RfB by (eapply resolve_keeps; eassumption).
  assert (node_at fsB kf = Some (File data)) as NfB.
  { rewrite node_at_nonroot by exact Hkf.
    destruct (GB kf) as [E|[E _]].
    - rewrite E. unfold fsA. rewrite lookup_insert_ne by (apply Hout; reflexivity).
      exact Lf.
    - unfold fsA in E. rewrite lookup_insert_ne in E by (apply Hout; reflexivity).
      congruence. }
  assert (kf <> kd) as Hfd by (apply not_eq_sym, Hout; apply prefix_app_r; reflexivity).
  set (fsC := <[kd := File data]> fsB).
  assert (copy2 src (Path true kd) fsB = (Ok tt, fsC)) as C2.
  { apply (copy2_ok src (Path true kd) fsB kf kd data); try assumption.
    rewrite node_at_nonroot by exact Hkdne. rewrite LdB. discriminate. }
  assert (keeps_dirs fsB fsC) as KC.
  { apply keeps_dirs_insert. rewrite node_at_nonroot by exact Hkdne. rewrite LdB. discriminate. }
  assert (st_size src fsC = (Ok (String.length data), fsC)) as Sz.
  { unfold st_size, query, stat.
    rewrite (resolve_keeps fsB fsC src kf KC RfB). cbn [Py.bind].
    unfold fsC. rewrite node_at_insert_ne by (apply not_eq_sym; exact Hfd).
    rewrite NfB. reflexivity. }
  assert (relative_to (Path true kd) (Path true ks) = Ok (Path false pf)) as Rel.
  { unfold relative_to. cbn [absolute parts Bool.eqb]. unfold kd.
    rewrite strip_prefix_app. reflexivity. }
  assert (backup_loop mgr (Path true ks) [f] [] fsA
          = (Ok [mkFileInfo f (str (Path false pf)) (String.length data)], fsC)) as BL.
  { cbn [backup_loop]. unfold mbind at 1. unfold backup_one.
    rewrite Hsrc, Hdst. unfold mbind at 1, gets. rewrite EA. cbn [negb].
    unfold try_except, mbind at 1. rewrite M2.
    unfold mbind at 1. rewrite C2.
    unfold mbind at 1, query. rewrite Rel.
    unfold mbind at 1. rewrite Sz. reflexivity. }
  (* step 3: the manifest *)
  assert (is_dir (Path true ks) fsC = true) as DC.
  { eapply is_dir_keeps; [exact KC|]. eapply is_dir_keeps; [apply grows_keeps_dirs; exact GB|].
    exact DA. }
  assert (resolve fsC (Path true km) = Ok km) as Rm.
  { pose proof (resolve_child fsC (Path true ks) "manifest.json" Hcs DC ltac:(discriminate)) as H.
    exact H. }
  assert (~ km `prefix_of` ks ++ removelast pf) as Hnm.
  { unfold km. intros H. apply prefix_app_same in H. apply Hman.
    etransitivity; [exact H | apply removelast_prefix]. }
  assert (km <> []) as Hkmne by (unfold km; destruct ks; [congruence | discriminate]).
  assert (fsC !! km = None) as LmC.
  { unfold fsC. rewrite lookup_insert_ne by (apply not_eq_sym; exact Hkmd).
    rewrite (FB km Hnm). unfold fsA. rewrite lookup_insert_ne by (apply not_eq_sym; exact Hkm).
    apply Hfresh. apply prefix_app_r. reflexivity. }
  assert (node_at fsC km <> Some Dir) as NmC
    by (rewrite node_at_nonroot by exact Hkmne; rewrite LmC; discriminate).
  set (fs1 := <[km := File (json_dumps m)]> fsC).
  assert (keeps_dirs fsC fs1) as K1 by (apply keeps_dirs_insert; exact NmC).
  exists fs1. split; [|split; [|split; [|split; [|split; [|split]]]]].
  - unfold create_backup. fold name. rewrite Hbp, Hmanp.
    unfold mbind at 1. rewrite M1. unfold mbind at 1. rewrite BL.
    unfold mbind. fold m. rewrite (write_text_ok _ _ _ _ Rm NmC). reflexivity.
  - eapply keeps_dirs_trans; [exact KB|]. eapply keeps_dirs_trans; eassumption.
  - eapply is_dir_keeps; eassumption.
  - eapply resolve_keeps; [exact K1|]. eapply resolve_keeps; [exact KC | exact Rd].
  - unfold fs1. rewrite lookup_insert_ne by exact Hkmd. unfold fsC. apply lookup_insert_eq.
  - eapply resolve_keeps; eassumption.
  - unfold fs1. apply lookup_insert_eq.
Qed.

Lemma walk_prefix_ok (fs : FS) (cur : key) (a b : list string) (k : key) :
  walk fs cur (a ++ b) = Ok k -> exists k', walk fs cur a = Ok k'.
Proof.
  rewrite walk_app. destruct (walk fs cur a) as [k'|e]; [eauto | discriminate].
Qed.

(** The directory of a path that resolves. *)
Lemma parent_of_resolved (fs : FS) (p : path) (k : key) :
  clean (parts p) -> parts p <> [] -> resolve fs p = Ok k ->
  is_dir (parent p) fs = true.
Proof.
  intros Hc Hne R. pose proof R as R'. unfold resolve in R'.
  rewrite (app_removelast_last_str (parts p) Hne) in R'.
  apply walk_prefix_ok in R' as [k' R'].
  assert (clean (removelast (parts p))) as Hc' by (apply clean_removelast; exact Hc).
  pose proof (walk_clean_inv _ _ _ _ Hc' R') as E. cbn [app] in E. subst k'.
  apply (is_dir_intro _ _ (removelast (parts p))); [exact R'|].
  apply (walk_ok_dirs fs [] (parts p) k Hc R).
  - apply removelast_prefix.
  - apply removelast_neq. exact Hne.
Qed.

Lemma component_backup_name (now : string) :
  no_slash now = true -> component ("backup_" +:+ now) = true.
Proof.
  intros Hn. unfold component. rewrite no_slash_app, Hn. reflexivity.
Qed.

(** X22.  Round trip for one file.  Let both directories be resolved
    paths, the backup directory exist, and [f] be a relative path without
    [..] that is neither [manifest.json] nor below it and names a readable
    file of the working directory.  In a second for which no snapshot
    exists yet, [create_backup] succeeds; and whatever is done afterwards
    that leaves the snapshot alone, removes no directory and puts no
    directory in the place of the file, [restore_backup] under the returned
    name restores [f], and [f] holds again what it held when the backup was
    made. *)
Theorem backup_then_restore_brings_the_file_back
    (mgr : manager) (now f data : string) (fs : FS) :
  let kw := parts (working_dir mgr) in
  let kb := parts (backup_dir mgr) in
  let pf := parts (parse f) in
  let ks := kb ++ ["backup_" +:+ now] in
  absolute (backup_dir mgr) = true ->
  Forall (fun c => component c = true) kb ->
  clean kb -> clean kw ->
  no_slash now = true ->
  startswith "/" f = false -> pf <> [] -> clean pf ->
  ~ ["manifest.json"] `prefix_of` pf ->
  is_dir (backup_dir mgr) fs = true ->
  read_bytes (joinpath (working_dir mgr) (parse f)) fs = (Ok data, fs) ->
  (forall q, ks `prefix_of` q -> fs !! q = None) ->
  exists id fs1,
    create_backup json_dumps mgr now [f] fs = (Ok id, fs1) /\
    forall fs2,
      keeps_dirs fs1 fs2 ->
      (forall q, ks `prefix_of` q -> fs2 !! q = fs1 !! q) ->
      node_at fs2 (kw ++ pf) <> Some Dir ->
      exists fs3,
        restore_backup json_loads mgr id None fs2 = (Ok (mkRestored [f] []), fs3) /\
        read_bytes (joinpath (working_dir mgr) (parse f)) fs3 = (Ok data, fs3).
Proof.
  intros kw kb pf ks Habs Hcomp Hcb Hcw Hnow Hrel Hpf Hcp Hman Hd Hr Hfresh.
  destruct (snapshot_one_file mgr now f data fs Habs Hcb Hcw Hnow Hrel Hpf Hcp Hman Hd Hr Hfresh)
    as (fs1 & Hc & K1 & D1 & Rd1 & Ld1 & Rm1 & Lm1).
  fold kw kb pf ks in Hc, D1, Rd1, Ld1, Rm1, Lm1.
  set (name := "backup_" +:+ now) in *.
  set (kd := ks ++ pf) in *. set (km := ks ++ ["manifest.json"]) in *.
  set (kf := kw ++ pf) in *.
  set (m := mkManifest now (str (Path true ks))
              [mkFileInfo f (str (Path false pf)) (String.length data)]) in *.
  exists (str (Path true ks)), fs1. split; [exact Hc|].
  intros fs2 K2 Hframe Hnd.
  assert (clean kf) as Hcf by (apply clean_app; assumption).
  assert (joinpath (working_dir mgr) (parse f)
          = Path (absolute (working_dir mgr)) kf) as Hsrc
    by (apply joinpath_relative; exact Hrel).
  rewrite Hsrc in *. set (src := Path (absolute (working_dir mgr)) kf) in *.
  destruct (read_bytes_inv _ _ _ _ Hr) as (kf0 & Rf & Nf).
  assert (kf0 = kf) as -> by (apply (resolve_clean_ok fs src); assumption).
  assert (kf <> []) as Hkf by (intros E; rewrite E in Nf; discriminate Nf).
  assert (fs !! kf = Some (File data)) as Lf
    by (rewrite <- (node_at_nonroot fs kf Hkf); exact Nf).
  assert (kd <> kf) as Hdf.
  { intros E. rewrite <- E in Lf. unfold kd in Lf.
    rewrite Hfresh in Lf by (apply prefix_app_r; reflexivity). discriminate Lf. }
  assert (kd <> []) as Hkd by (unfold kd, ks; destruct kb; discriminate).
  assert (km <> []) as Hkm by (unfold km, ks; destruct kb; discriminate).
  assert (keeps_dirs fs fs2) as K02 by (eapply keeps_dirs_trans; eassumption).
  (* the manifest is read *)
  assert (Forall (fun c => component c = true) ks) as Hcks.
  { unfold ks. apply Forall_app. split; [exact Hcomp|].
    constructor; [apply component_backup_name; exact Hnow | constructor]. }
  assert (joinpath (backup_dir mgr) (parse (str (Path true ks))) = Path true ks) as Hid.
  { rewrite parse_str by exact Hcks. apply joinpath_absolute. reflexivity. }
  assert (joinpath (Path true ks) (parse "manifest.json") = Path true km) as Hmanp
    by reflexivity.
  assert (node_at fs2 km = Some (File (json_dumps m))) as Nm2.
  { rewrite node_at_nonroot by exact Hkm.
    rewrite Hframe by (apply prefix_app_r; reflexivity). exact Lm1. }
  assert (resolve fs2 (Path true km) = Ok km) as Rm2 by exact (resolve_keeps _ _ _ _ K2 Rm1).
  assert (read_manifest json_loads mgr (str (Path true ks)) fs2 = (Ok m, fs2)) as RM.
  { unfold read_manifest. rewrite Hid, Hmanp. unfold mbind at 1, gets.
    rewrite (is_dir_exists _ _ (is_dir_keeps _ _ _ K2 D1)). cbn [negb].
    unfold mbind at 1. cbv beta.
    assert (exists_ (Path true km) fs2 = true) as ->
      by (unfold exists_, stat; rewrite Rm2; cbn [Py.bind]; rewrite Nm2; reflexivity).
    cbn [negb]. unfold mbind.
    rewrite (read_text_of_bytes _ _ _ _ (read_bytes_file _ _ _ _ Rm2 Nm2)), json_law.
    reflexivity. }
  (* the file is copied back *)
  assert (joinpath (Path true ks) (parse (str (Path false pf))) = Path true kd) as Hback.
  { rewrite parse_str by apply parse_components. reflexivity. }
  assert (node_at fs2 kd = Some (File data)) as Nd2.
  { rewrite node_at_nonroot by exact Hkd.
    rewrite Hframe by (apply prefix_app_r; reflexivity). exact Ld1. }
  assert (resolve fs2 (Path true kd) = Ok kd) as Rd2 by exact (resolve_keeps _ _ _ _ K2 Rd1).
  assert (resolve fs2 src = Ok kf) as Rf2 by exact (resolve_keeps _ _ _ _ K02 Rf).
  assert (is_dir (parent src) fs2 = true) as Dp.
  { eapply is_dir_keeps; [exact K02|].
    apply (parent_of_resolved fs src kf); [exact Hcf | | exact Rf].
    cbn [parts]. exact Hkf. }
  assert (restore_one mgr (Path true ks) (mkFileInfo f (str (Path false pf)) (String.length data)) fs2
          = (Ok tt, <[kf := File data]> fs2)) as R1.
  { unfold restore_one. cbn [fi_backup_path original_path].
    rewrite Hback, Hsrc. fold src. unfold mbind.
    rewrite (mkdir_parents_existing _ _ Dp).
    apply (copy2_ok (Path true kd) src fs2 kd kf data); assumption. }
  exists (<[kf := File data]> fs2). split.
  - unfold restore_backup, mbind. rewrite RM. rewrite Hid.
    cbn [files m restore_loop filtered_out original_path]. rewrite R1. reflexivity.
  - apply read_after_write; assumption.
Qed.

End OneFile.

Section RestoreSelected.
Import PyStr Py Fs FsOps BackupManager.
Context (json_loads : string -> option Manifest).

Lemma restore_one_ok (mgr : manager) (bp : path) (fi : FileInfo) (fs : FS) (data : string) :
  let tk := parts (target_path mgr fi) in
  clean (parts (source_path bp fi)) ->
  read_bytes (source_path bp fi) fs = (Ok data, fs) ->
  free_way fs tk ->
  node_at fs tk <> Some Dir ->
  parts (source_path bp fi) <> tk ->
  exists fs1,
    restore_one mgr bp fi fs = (Ok tt, <[tk := File data]> fs1) /\
    grows fs fs1 /\
    (forall q, ~ q `prefix_of` removelast tk -> fs1 !! q = fs !! q) /\
    resolve fs1 (target_path mgr fi) = Ok tk /\
    node_at fs1 tk <> Some Dir.
Proof.
  intros tk Hcs Hr Hw Hn Hst.
  destruct (read_bytes_inv _ _ _ _ Hr) as (sk & Rs & Ns).
  pose proof (resolve_clean_ok fs _ sk Hcs Rs) as Esk. subst sk.
  set (sk := parts (source_path bp fi)) in *.
  assert (tk <> []) as Hne by (intros E; apply Hn; rewrite E; reflexivity).
  assert (sk <> []) as Hsk by (intros E; rewrite E in Ns; discriminate Ns).
  destruct (free_way_parent fs tk Hw Hne) as [Hcp Hpp].
  destruct (mkdir_parents_clean (parent (target_path mgr fi)) fs Hcp Hpp)
    as (fs1 & M & G & D & F).
  cbn [parent parts] in F. fold tk in F.
  destruct (resolve_of_parent _ _ D) as [k' R].
  assert (k' = tk) as ->
    by (unfold resolve in R; rewrite (walk_clean_inv _ _ _ _ (proj1 Hw) R); reflexivity).
  assert (node_at fs1 tk <> Some Dir) as Hn1.
  { rewrite node_at_nonroot by exact Hne.
    rewrite (F tk (not_prefix_removelast tk Hne)).
    rewrite <- (node_at_nonroot fs tk Hne). exact Hn. }
  assert (resolve fs1 (source_path bp fi) = Ok sk) as Rs1
    by (eapply resolve_keeps; [apply grows_keeps_dirs; exact G | exact Rs]).
  assert (node_at fs1 sk = Some (File data)) as Ns1.
  { rewrite node_at_nonroot in * by exact Hsk.
    destruct (G sk) as [E|[E _]]; congruence. }
  exists fs1. split; [|repeat split; assumption].
  unfold restore_one, mbind.
  change (joinpath (working_dir mgr) (parse (original_path fi))) with (target_path mgr fi).
  change (joinpath bp (parse (fi_backup_path fi))) with (source_path bp fi).
  rewrite M.
  exact (copy2_ok _ _ fs1 sk tk data Rs1 Ns1 R Hn1 Hst).
Qed.

(** A loop over entries that can be restored and lie apart restores them
    all, and changes nothing that is not on the way to one of them. *)
Lemma restore_loop_restores (mgr : manager) (bp : path) (infos : list FileInfo) :
  forall (acc : Restored) (fs : FS),
    Forall (restorable mgr bp fs) infos ->
    ForallOrdPairs (apart mgr) infos ->
    (forall a b, a ∈ infos -> b ∈ infos ->
                 parts (source_path bp a) <> parts (target_path mgr b)) ->
    exists fs',
      restore_loop mgr bp None infos acc fs
      = (mkRestored (restored acc ++ map original_path infos) (failed acc), fs') /\
      keeps_dirs fs fs' /\
      (forall fi, fi ∈ infos ->
         exists data,
           read_bytes (source_path bp fi) fs = (Ok data, fs) /\
           read_bytes (target_path mgr fi) fs' = (Ok data, fs')) /\
      (forall q, (forall fi, fi ∈ infos -> ~ q `prefix_of` parts (target_path mgr fi)) ->
                 fs' !! q = fs !! q).
Proof.
  induction infos as [|fi infos IH]; intros acc fs Hall Hap Hst.
  - exists fs. cbn [restore_loop map]. rewrite app_nil_r. destruct acc.
    split; [reflexivity|]. split; [apply keeps_dirs_refl|]. split; [|reflexivity].
    intros fi H. apply not_elem_of_nil in H. tauto.
  - apply Forall_cons in Hall as [(Hcs & (data & Hr) & Hw & Hn) Hall].
    inversion Hap as [|? ? Hfi Hap']; subst.
    set (tk := parts (target_path mgr fi)) in *.
    set (sk := parts (source_path bp fi)) in *.
    assert (sk <> tk) as Hsti by (apply Hst; left).
    destruct (restore_one_ok mgr bp fi fs data Hcs Hr Hw Hn Hsti)
      as (fs1 & R1 & G & F & Rt & Hn1).
    fold tk in R1, F, Rt, Hn1.
    set (fs2 := <[tk := File data]> fs1) in *.
    assert (tk <> []) as Hne by (intros E; apply Hn; rewrite E; reflexivity).
    assert (keeps_dirs fs fs2) as K02.
    { eapply keeps_dirs_trans; [apply grows_keeps_dirs; exact G|].
      apply keeps_dirs_insert. exact Hn1. }
    assert (forall q, q <> tk -> ~ q `prefix_of` removelast tk -> fs2 !! q = fs !! q) as F2.
    { intros q Hq Hp. unfold fs2. rewrite lookup_insert_ne by congruence. apply F. exact Hp. }
    assert (forall q, ~ q `prefix_of` tk -> fs2 !! q = fs !! q) as F2'.
    { intros q Hq. apply F2.
      - intros ->. apply Hq. reflexivity.
      - intros Hp. apply Hq. etransitivity; [exact Hp | apply removelast_prefix]. }
    (* the entries that follow can still be restored *)
    assert (Forall (restorable mgr bp fs2) infos) as Hall2.
    { apply Forall_forall. intros fj Hj.
      rewrite Forall_forall in Hall, Hfi.
      destruct (Hall fj Hj) as (Hcj & (dj & Hrj) & Hwj & Hnj).
      destruct (Hfi fj Hj) as [Hij Hji].
      destruct (read_bytes_inv _ _ _ _ Hrj) as (skj & Rj & Nj).
      pose proof (resolve_clean_ok fs _ skj Hcj Rj) as E. subst skj.
      assert (parts (source_path bp fj) <> []) as Hskj
        by (intros E; rewrite E in Nj; discriminate Nj).
      assert (parts (source_path bp fj) <> tk) as Hjt by (apply Hst; [right; exact Hj | left]).
      split; [exact Hcj|]. split; [|split].
      - exists dj. apply (read_bytes_file _ _ (parts (source_path bp fj))).
        + eapply resolve_keeps; [exact K02 | exact Rj].
        + rewrite node_at_nonroot in * by exact Hskj.
          unfold fs2. rewrite lookup_insert_ne by congruence.
          destruct (G (parts (source_path bp fj))) as [E|[E _]]; congruence.
      - unfold fs2. apply free_way_insert; [exact Hij|].
        eapply free_way_grows; [exact G | exact Hwj].
      - assert (parts (target_path mgr fj) <> []) as Hnej
          by (intros E; apply Hnj; rewrite E; reflexivity).
        rewrite node_at_nonroot in * by exact Hnej.
        rewrite F2'; [exact Hnj | exact Hji]. }
    assert (forall a b, a ∈ infos -> b ∈ infos ->
              parts (source_path bp a) <> parts (target_path mgr b)) as Hst2
      by (intros a b Ha Hb; apply Hst; right; assumption).
    destruct (IH (mkRestored (restored acc ++ [original_path fi]) (failed acc)) fs2
                Hall2 Hap' Hst2) as (fs' & L & K2 & Hread & Hframe).
    exists fs'. split; [|split; [|split]].
    + cbn [restore_loop filtered_out]. rewrite R1. fold fs2. rewrite L.
      cbn [restored failed map]. rewrite <- app_assoc. reflexivity.
    + eapply keeps_dirs_trans; eassumption.
    + intros fj Hj. apply elem_of_cons in Hj as [->|Hj].
      * exists data. split; [exact Hr|].
        apply (read_bytes_file _ _ tk).
        -- eapply resolve_keeps; [exact K2|].
           eapply resolve_keeps; [apply keeps_dirs_insert; exact Hn1 | exact Rt].
        -- rewrite node_at_nonroot by exact Hne. rewrite Hframe.
           ++ unfold fs2. apply lookup_insert_eq.
           ++ intros fj Hj. rewrite Forall_forall in Hfi. apply (Hfi fj Hj).
      * destruct (Hread fj Hj) as (dj & Hs2 & Ht). exists dj. split; [|exact Ht].
        rewrite Forall_forall in Hall.
        destruct (Hall fj Hj) as (Hcj & (dj0 & Hrj) & _ & _).
        destruct (read_bytes_inv _ _ _ _ Hrj) as (skj & Rj & Nj).
        pose proof (resolve_clean_ok fs _ skj Hcj Rj) as E. subst skj.
        destruct (read_bytes_inv _ _ _ _ Hs2) as (skj & Rj2 & Nj2).
        pose proof (resolve_clean_ok fs2 _ skj Hcj Rj2) as E. subst skj.
        assert (parts (source_path bp fj) <> []) as Hskj
          by (intros E; rewrite E in Nj; discriminate Nj).
        assert (parts (source_path bp fj) <> tk) as Hjt by (apply Hst; [right; exact Hj | left]).
        rewrite node_at_nonroot in * by exact Hskj.
        unfold fs2 in Nj2. rewrite lookup_insert_ne in Nj2 by congruence.
        destruct (G (parts (source_path bp fj))) as [E|[E _]]; [|congruence].
        rewrite E, Nj in Nj2. injection Nj2 as <-. exact Hrj.
    + intros q Hq. rewrite Hframe by (intros fj Hj; apply Hq; right; exact Hj).
      apply F2'. apply Hq. left.
Qed.

(** C9.  An empty list of paths is no filter: the restore is the same as
    with no list.  A non-empty list restores as if the manifest held only
    the entries whose original path is in the list.  In each case the paths
    dealt with (restored or reported as failed) are exactly those entries.
    When each of those entries can be restored (its copy is a regular file
    of the snapshot, the way to its target is free) and their targets lie
    apart, every one of them is restored, none fails, each target file
    holds the bytes of its copy, and nothing else in the tree changes: an
    entry that is not selected keeps the file it has. *)
Theorem restore_backup_subset_filter (mgr : manager) (backup_name : string) (fs : FS) :
  restore_backup json_loads mgr backup_name (Some []) fs
  = restore_backup json_loads mgr backup_name None fs /\
  (forall p l,
     restore_backup json_loads mgr backup_name (Some (p :: l)) fs
     = restore_backup (fun s => restrict (p :: l) <$> json_loads s) mgr backup_name None fs) /\
  (forall file_paths manifest,
     read_manifest json_loads mgr backup_name fs = (Ok manifest, fs) ->
     exists r fs',
       restore_backup json_loads mgr backup_name file_paths fs = (Ok r, fs') /\
       attempted r ≡ₚ
         match file_paths with
         | Some (p :: l) => List.filter (listed (p :: l)) (map original_path (files manifest))
         | _ => map original_path (files manifest)
         end) /\
  (forall file_paths manifest,
     read_manifest json_loads mgr backup_name fs = (Ok manifest, fs) ->
     Forall (restorable mgr (joinpath (backup_dir mgr) (parse backup_name)) fs)
       (selected file_paths (files manifest)) ->
     ForallOrdPairs (apart mgr) (selected file_paths (files manifest)) ->
     (forall a b,
        a ∈ selected file_paths (files manifest) ->
        b ∈ selected file_paths (files manifest) ->
        parts (source_path (joinpath (backup_dir mgr) (parse backup_name)) a)
        <> parts (target_path mgr b)) ->
     exists fs',
       restore_backup json_loads mgr backup_name file_paths fs
       = (Ok (mkRestored (map original_path (selected file_paths (files manifest))) []), fs') /\
       (forall fi, fi ∈ selected file_paths (files manifest) ->
          exists data,
            read_bytes (source_path (joinpath (backup_dir mgr) (parse backup_name)) fi) fs
            = (Ok data, fs) /\
            read_bytes (target_path mgr fi) fs' = (Ok data, fs')) /\
       (forall q,
          (forall fi, fi ∈ selected file_paths (files manifest) ->
                      ~ q `prefix_of` parts (target_path mgr fi)) ->
          fs' !! q = fs !! q)).
Proof.
  split; [|split; [|split]].
  - unfold restore_backup, mbind.
    destruct (read_manifest json_loads mgr backup_name fs) as [[m|e] fs1]; [|reflexivity].
    rewrite restore_loop_empty_list. reflexivity.
  - intros p l. unfold restore_backup, mbind. rewrite read_manifest_map.
    destruct (read_manifest json_loads mgr backup_name fs) as [[m|e] fs1]; [|reflexivity].
    rewrite restore_loop_filter. reflexivity.
  - intros file_paths manifest Hm. unfold restore_backup, mbind. rewrite Hm.
    set (bp := joinpath (backup_dir mgr) (parse backup_name)).
    destruct (restore_loop mgr bp file_paths _ _ fs) as [r fs'] eqn:L.
    exists r, fs'. split; [reflexivity|].
    destruct file_paths as [[|p l]|].
    + rewrite restore_loop_empty_list in L.
      pose proof (restore_loop_attempted mgr bp (files manifest) (mkRestored [] []) fs) as A.
      rewrite L in A. exact A.
    + rewrite restore_loop_filter in L.
      pose proof (restore_loop_attempted mgr bp
                    (List.filter (fun fi => listed (p :: l) (original_path fi)) (files manifest))
                    (mkRestored [] []) fs) as A.
      rewrite L in A. rewrite A.
      change (attempted (mkRestored [] [])) with (@nil string). cbn [app].
      rewrite (filter_original_path (listed (p :: l))). reflexivity.
    + pose proof (restore_loop_attempted mgr bp (files manifest) (mkRestored [] []) fs) as A.
      rewrite L in A. exact A.
  - intros file_paths manifest Hm Hall Hap Hst.
    set (bp := joinpath (backup_dir mgr) (parse backup_name)) in *.
    assert (restore_loop mgr bp file_paths (files manifest) (mkRestored [] []) fs
            = restore_loop mgr bp None (selected file_paths (files manifest))
                (mkRestored [] []) fs) as E.
    { destruct file_paths as [[|p l]|]; cbn [selected].
      - apply restore_loop_empty_list.
      - apply restore_loop_filter.
      - reflexivity. }
    destruct (restore_loop_restores mgr bp _ (mkRestored [] []) fs Hall Hap Hst)
      as (fs' & L & _ & Hread & Hframe).
    exists fs'. split; [|split; [exact Hread | exact Hframe]].
    unfold restore_backup, mbind. rewrite Hm. fold bp. rewrite E, L. reflexivity.
Qed.

End RestoreSelected.

Section Stripping.
Import PyStr Re Py CodeParser.

Lemma rev_snoc (w : string) (c : ascii) :
  rev (w +:+ String c EmptyString) = String c (rev w).
Proof.
  unfold rev. rewrite list_ascii_app. cbn [list_ascii_of_string].
  rewrite rev_app_distr. reflexivity.
Qed.

Lemma rev_cons (c : ascii) (t : string) :
  rev (String c t) = rev t +:+ String c EmptyString.
Proof.
  unfold rev. cbn [list_ascii_of_string List.rev].
  rewrite string_of_list_app. reflexivity.
Qed.

Lemma rev_rev (s : string) : rev (rev s) = s.
Proof.
  unfold rev. rewrite list_ascii_of_string_of_list_ascii, rev_involutive.
  apply string_of_list_ascii_of_string.
Qed.

Lemma lstrip_idem (s : string) : lstrip (lstrip s) = lstrip s.
Proof.
  induction s as [|c s IH]; [reflexivity|]. cbn [lstrip].
  destruct (is_space c) eqn:E; [exact IH|]. cbn [lstrip]. rewrite E. reflexivity.
Qed.

Lemma lstrip_cases (s : string) :
  lstrip s = EmptyString \/
  exists c t, lstrip s = String c t /\ is_space c = false.
Proof.
  induction s as [|c s IH]; [left; reflexivity|]. cbn [lstrip].
  destruct (is_space c) eqn:E; [exact IH|]. right. eauto.
Qed.

Lemma lstrip_snoc (u : string) (c : ascii) :
  is_space c = false ->
  lstrip (u +:+ String c EmptyString) = lstrip u +:+ String c EmptyString.
Proof.
  intros Hc. induction u as [|x u IH].
  - rewrite str_app_nil. cbn [lstrip]. rewrite Hc. reflexivity.
  - rewrite str_app_cons. cbn [lstrip]. destruct (is_space x); [exact IH|].
    rewrite str_app_cons. reflexivity.
Qed.

Lemma lstrip_rstrip (c : ascii) (t : string) :
  is_space c = false ->
  exists t', rstrip (String c t) = String c t'.
Proof.
  intros Hc. unfold rstrip. rewrite rev_cons, (lstrip_snoc _ _ Hc), rev_snoc. eauto.
Qed.

Lemma strip_idem (s : string) : strip (strip s) = strip s.
Proof.
  unfold strip.
  assert (lstrip (rstrip (lstrip s)) = rstrip (lstrip s)) as ->.
  { destruct (lstrip_cases s) as [->|(c & t & -> & Hc)]; [reflexivity|].
    destruct (lstrip_rstrip c t Hc) as [t' ->]. cbn [lstrip]. rewrite Hc. reflexivity. }
  unfold rstrip at 1 2. rewrite rev_rev, lstrip_idem. reflexivity.
Qed.

Lemma fenced_blocks_stripped (text : string) :
  Forall (fun b => strip (snd b) = snd b /\ fst b <> EmptyString) (fenced_blocks text).
Proof.
  unfold fenced_blocks. apply Forall_forall. intros b Hb.
  apply list_elem_of_In, in_map_iff in Hb as (m & <- & _). cbn [fst snd]. split.
  - apply strip_idem.
  - destruct (is_empty (group_str text m 1)) eqn:E; [discriminate|].
    intros H. rewrite H in E. discriminate E.
Qed.

(** X23.  The content of an operation taken from a fenced block has no
    white space at either end: stripping it changes nothing. *)
Theorem fenced_content_has_no_outer_white_space
    (response_text : string) (ops : list FileOperation) :
  fenced_blocks response_text <> [] ->
  parse_response response_text = Ok ops ->
  Forall (fun op => exists code, content op = Some code /\ strip code = code) ops.
Proof.
  intros Hne Hp.
  pose proof (parse_blocks_cases response_text (_extract_code_blocks response_text) 0) as H.
  unfold parse_response in Hp. rewrite Hp in H. destruct H as (_ & Hc & _).
  assert (_extract_code_blocks response_text = fenced_blocks response_text) as E.
  { unfold _extract_code_blocks. destruct (fenced_blocks response_text); [congruence | reflexivity]. }
  rewrite E in Hc. pose proof (fenced_blocks_stripped response_text) as Hs.
  clear E Hp Hne. revert ops Hc.
  induction Hs as [|b blocks [Hb _] Hs IH]; intros ops Hc.
  - destruct ops; [constructor | discriminate Hc].
  - destruct ops as [|op ops]; [discriminate Hc|]. cbn [map] in Hc.
    injection Hc as Hop Hc. constructor; [eauto | apply IH; exact Hc].
Qed.

End Stripping.

Section Roster.
Import PyStr Py Agents ParallelDispatcher.

(** X25.  An agent added under a name no agent of the roster answers to
    comes last in the list of available names, and removing it by its name
    gives the former roster back. *)
Theorem add_agent_then_remove_agent (agents : list BaseAgent) (agent : BaseAgent) :
  Forall (fun a => ~ answers_to (name agent) a) agents ->
  remove_agent (add_agent agents agent) (name agent) = (true, agents) /\
  get_available_agents (add_agent agents agent)
  = get_available_agents agents ++ [name agent].
Proof.
  intros Hall. split.
  - unfold add_agent. induction Hall as [|a agents Ha Hall IH]; cbn [app remove_agent].
    + rewrite String.eqb_refl. reflexivity.
    + unfold answers_to in Ha. apply String.eqb_neq in Ha. rewrite Ha, IH. reflexivity.
  - unfold get_available_agents, add_agent. rewrite map_app. reflexivity.
Qed.

End Roster.

Section AllNames.
Import PyStr Py Agents ParallelDispatcher.

Lemma selected_agents_all (agents : list BaseAgent) :
  selected_agents agents (get_available_agents agents) = agents.
Proof.
  unfold selected_agents, get_available_agents.
  assert (forall l : list BaseAgent, (forall a, a ∈ l -> a ∈ agents) ->
            List.filter (fun agent => existsb (String.eqb (lower (name agent)))
                                        (map lower (map name agents))) l = l) as H.
  { induction l as [|a l IH]; intros Hl; [reflexivity|]. cbn [List.filter].
    assert (existsb (String.eqb (lower (name a))) (map lower (map name agents)) = true) as ->.
    { apply existsb_lower_names. exists (name a). split; [|reflexivity].
      apply list_elem_of_In, in_map, list_elem_of_In, Hl. left. }
    f_equal. apply IH. intros b Hb. apply Hl. right. exact Hb. }
  apply H. auto.
Qed.

(** X26.  Dispatching to every available name is dispatching to all: for
    a roster that is not empty, [dispatch_to_agents] with the names
    [get_available_agents] returns does what [dispatch_all] does. *)
Theorem dispatch_to_every_name_is_dispatch_all
    (repr : list string -> string) (agents : list BaseAgent) (order : list nat)
    (prompt : string) (context : Context) :
  agents <> [] ->
  dispatch_to_agents repr agents order prompt (get_available_agents agents) context
  = dispatch_all agents order prompt context.
Proof.
  intros Hne. unfold dispatch_to_agents, dispatch_all.
  rewrite selected_agents_all. destruct agents; [congruence | reflexivity].
Qed.

End AllNames.

Section NoNumber.
Import PyStr Py Agents.

Lemma keep_digits_dots_none (s : string) :
  forallb (fun c => negb (is_digit c || eqc c ".")) (list_ascii_of_string s) = true ->
  keep_digits_dots s = EmptyString.
Proof.
  induction s as [|c s IH]; [reflexivity|]. cbn [list_ascii_of_string forallb keep_digits_dots].
  intros H. apply andb_prop in H as [Hc Hs]. apply negb_true_iff in Hc.
  rewrite Hc. apply IH. exact Hs.
Qed.

(** X27.  An answer of the service in ASCII that holds no digit and no
    dot, the empty answer included, cannot be read as a number: [evaluate]
    of an API agent returns the neutral 50.0. *)
Theorem an_answer_without_a_number_scores_50
    (client : string -> result Reply)
    (evaluation_prompt : string -> AgentResponse -> list AgentResponse -> string)
    (p : string) (r : AgentResponse) (o : list AgentResponse) (reply : Reply) :
  client (evaluation_prompt p r o) = Ok reply ->
  forallb (fun c => (PyStr.code c <? 128) && negb (is_digit c || eqc c "."))
    (list_ascii_of_string (strip (reply_text reply))) = true ->
  api_evaluate client evaluation_prompt p r o = Ok (50 # 1).
Proof.
  intros Hc Hn. unfold api_evaluate. rewrite Hc, keep_digits_dots_none; [reflexivity|].
  rewrite forallb_forall in *. intros c Hin. specialize (Hn c Hin).
  apply andb_prop in Hn. apply Hn.
Qed.

End NoNumber.

Section AbsoluteBackup.
Import PyStr Py Fs FsOps BackupManager.
Context (json_dumps : Manifest -> string) (json_loads : string -> option Manifest).
Hypothesis json_law : forall m, json_loads (universal_newlines (json_dumps m)) = Some m.

Lemma samefile_same (p : path) (fs : FS) (k : key) (n : node) :
  resolve fs p = Ok k -> node_at fs k = Some n -> samefile p p fs = true.
Proof.
  intros R N. unfold samefile. rewrite R, N. apply bool_decide_eq_true. reflexivity.
Qed.

(** A regular file named by its absolute path: the copy would go onto the
    file itself. *)
Lemma backup_one_absolute (mgr : manager) (bp : path) (f : string)
    (files : list FileInfo) (fs : FS) (k : key) (data : string) :
  startswith "/" f = true ->
  clean (parts (parse f)) ->
  resolve fs (parse f) = Ok k -> node_at fs k = Some (File data) ->
  backup_one mgr bp f files fs = (Ok files, fs).
Proof.
  intros Habs Hc R N.
  assert (absolute (parse f) = true) as Ha by exact Habs.
  assert (parts (parse f) <> []) as Hne.
  { intros E. pose proof (resolve_clean_ok fs (parse f) k Hc R) as Hk.
    rewrite E in Hk. subst k. discriminate N. }
  unfold backup_one. rewrite !(joinpath_absolute _ _ Ha).
  unfold mbind at 1, gets.
  assert (exists_ (parse f) fs = true) as ->
    by (unfold exists_, stat; rewrite R; cbn [Py.bind]; rewrite N; reflexivity).
  cbn [negb]. unfold try_except, mbind at 1.
  rewrite (mkdir_parents_existing _ _ (parent_of_resolved fs (parse f) k Hc Hne R)).
  unfold mbind at 1, copy2, mbind at 1, gets.
  rewrite (is_dir_false_intro (parse f) fs k R) by (rewrite N; discriminate).
  unfold mbind at 1. rewrite (samefile_same (parse f) fs k _ R N). reflexivity.
Qed.

(** What a backup of such a file leaves, once it has returned. *)
Lemma absolute_backup_is_empty
    (mgr : manager) (now f data : string) (fs fs' : FS) (id : string) :
  absolute (backup_dir mgr) = true ->
  Forall (fun c => component c = true) (parts (backup_dir mgr)) ->
  startswith "/" f = true ->
  clean (parts (parse f)) ->
  read_bytes (parse f) fs = (Ok data, fs) ->
  create_backup json_dumps mgr now [f] fs = (Ok id, fs') ->
  exists m,
    read_manifest json_loads mgr id fs' = (Ok m, fs') /\
    files m = [] /\
    restore_backup json_loads mgr id None fs' = (Ok (mkRestored [] []), fs').
Proof.
  intros Habs Hcomp Hf Hc Hr Hcb.
  destruct (create_backup_inv json_dumps json_loads json_law mgr now [f] fs fs' id
              Habs Hcomp Hcb)
    as (fs1 & fs2 & added & M & L & _ & RM).
  destruct (read_bytes_inv _ _ _ _ Hr) as (k & R & N).
  pose proof (mkdir_exist_ok_grows _ _ _ _ M) as G.
  assert (resolve fs1 (parse f) = Ok k) as R1
    by (eapply resolve_keeps; [apply grows_keeps_dirs; exact G | exact R]).
  assert (node_at fs1 k = Some (File data)) as N1.
  { destruct k as [|c k]; [discriminate N|]. cbn [node_at] in *.
    destruct (G (c :: k)) as [E|[E _]]; congruence. }
  cbn [backup_loop] in L. unfold mbind in L.
  rewrite (backup_one_absolute mgr _ f [] fs1 k data Hf Hc R1 N1) in L.
  injection L as <- <-.
  eexists. split; [exact RM|]. split; [reflexivity|].
  unfold restore_backup, mbind. rewrite RM. reflexivity.
Qed.

(** Over a fresh snapshot name the backup of a file named by its absolute
    path returns. *)
Lemma create_backup_absolute_returns (mgr : manager) (now f data : string) (fs : FS) :
  let ks := parts (backup_dir mgr) ++ ["backup_" +:+ now] in
  absolute (backup_dir mgr) = true ->
  clean (parts (backup_dir mgr)) ->
  no_slash now = true ->
  is_dir (backup_dir mgr) fs = true ->
  (forall q, ks `prefix_of` q -> fs !! q = None) ->
  startswith "/" f = true ->
  clean (parts (parse f)) ->
  read_bytes (parse f) fs = (Ok data, fs) ->
  exists id fs', create_backup json_dumps mgr now [f] fs = (Ok id, fs').
Proof.
  intros ks Habs Hcb Hnow Hd Hfresh Hf Hc Hr.
  set (name := "backup_" +:+ now) in *.
  pose proof (backup_name_not_dotdot now) as Hname. fold name in Hname.
  set (km := ks ++ ["manifest.json"]).
  assert (clean ks) as Hcs by (apply clean_app; [exact Hcb | apply clean_single; exact Hname]).
  assert (ks <> []) as Hks by (unfold ks; destruct (parts (backup_dir mgr)); discriminate).
  assert (km <> []) as Hkm by (unfold km; destruct ks; discriminate).
  assert (km <> ks) as Hkms.
  { unfold km. intros E. apply (f_equal (@length string)) in E.
    rewrite length_app in E. simpl in E. lia. }
  assert (joinpath (backup_dir mgr) (parse name) = Path true ks) as Hbp.
  { unfold name. rewrite parse_backup_name by exact Hnow.
    unfold joinpath. cbn [absolute parts]. rewrite Habs. reflexivity. }
  destruct (read_bytes_inv _ _ _ _ Hr) as (k & R & N).
  assert (k <> []) as Hk by (intros ->; discriminate N).
  (* the snapshot directory *)
  set (fsA := <[ks := Dir]> fs).
  assert (fs !! ks = None) as Ls by (apply Hfresh; reflexivity).
  assert (resolve fs (Path true ks) = Ok ks) as Rs
    by exact (resolve_child fs (backup_dir mgr) name Hcb Hd Hname).
  assert (mkdir_exist_ok (Path true ks) fs = (Ok tt, fsA)) as M1.
  { unfold mkdir_exist_ok, try_except, os_mkdir.
    rewrite Rs, (node_at_nonroot fs ks Hks), Ls. reflexivity. }
  assert (grows fs fsA) as GA by (apply grows_insert_dir; exact Ls).
  assert (is_dir (Path true ks) fsA = true) as DA.
  { apply (is_dir_intro _ _ ks).
    - eapply resolve_keeps; [apply grows_keeps_dirs; exact GA | exact Rs].
    - unfold fsA. apply node_at_insert_eq. exact Hks. }
  (* the file is not copied *)
  assert (resolve fsA (parse f) = Ok k) as RA
    by (eapply resolve_keeps; [apply grows_keeps_dirs; exact GA | exact R]).
  assert (node_at fsA k = Some (File data)) as NA.
  { rewrite node_at_nonroot in * by exact Hk.
    destruct (GA k) as [E|[E _]]; congruence. }
  (* the manifest *)
  assert (resolve fsA (Path true km) = Ok km) as Rm
    by exact (resolve_child fsA (Path true ks) "manifest.json" Hcs DA ltac:(discriminate)).
  assert (node_at fsA km <> Some Dir) as Nm.
  { rewrite node_at_nonroot by exact Hkm. unfold fsA.
    rewrite lookup_insert_ne by congruence.
    rewrite Hfresh by (apply prefix_app_r; reflexivity). discriminate. }
  eexists _, _. unfold create_backup. fold name. rewrite Hbp.
  unfold mbind at 1. rewrite M1. unfold mbind at 1. cbn [backup_loop]. unfold mbind at 1.
  rewrite (backup_one_absolute mgr _ f [] fsA k data Hf Hc RA NA).
  unfold ret at 1. unfold mbind.
  change (joinpath (Path true ks) (parse "manifest.json")) with (Path true km).
  rewrite (write_text_ok _ _ _ _ Rm Nm). reflexivity.
Qed.

(** X28.  A regular file named by its absolute path is not backed up.
    The copy would go onto the file itself, [copy2] refuses, and the failure
    is swallowed: over a fresh snapshot name [create_backup] returns as if
    all were well, the manifest lists no file, and a restore of that backup
    restores nothing. *)
Theorem a_file_named_by_its_absolute_path_is_not_backed_up
    (mgr : manager) (now f data : string) (fs : FS) :
  let ks := parts (backup_dir mgr) ++ ["backup_" +:+ now] in
  absolute (backup_dir mgr) = true ->
  Forall (fun c => component c = true) (parts (backup_dir mgr)) ->
  clean (parts (backup_dir mgr)) ->
  no_slash now = true ->
  is_dir (backup_dir mgr) fs = true ->
  (forall q, ks `prefix_of` q -> fs !! q = None) ->
  startswith "/" f = true ->
  clean (parts (parse f)) ->
  read_bytes (parse f) fs = (Ok data, fs) ->
  exists id fs' m,
    create_backup json_dumps mgr now [f] fs = (Ok id, fs') /\
    read_manifest json_loads mgr id fs' = (Ok m, fs') /\
    files m = [] /\
    restore_backup json_loads mgr id None fs' = (Ok (mkRestored [] []), fs').
Proof.
  intros ks Habs Hcomp Hcb Hnow Hd Hfresh Hf Hc Hr.
  destruct (create_backup_absolute_returns mgr now f data fs Habs Hcb Hnow Hd Hfresh Hf Hc Hr)
    as (id & fs' & Hcreate).
  destruct (absolute_backup_is_empty mgr now f data fs fs' id Habs Hcomp Hf Hc Hr Hcreate)
    as (m & Hm & Hfiles & Hrestore).
  exists id, fs', m. repeat split; assumption.
Qed.

End AbsoluteBackup.

(** ** The listing of the snapshots and its pruning *)

Section StringOrder.

Lemma ascii_compare_refl (a : ascii) : Ascii.compare a a = Eq.
Proof. unfold Ascii.compare. apply N.compare_refl. Qed.

Lemma string_compare_refl (s : string) : String.compare s s = Eq.
Proof.
  induction s as [|a s IH]; [reflexivity|]. cbn [String.compare].
  rewrite ascii_compare_refl. exact IH.
Qed.



Lemma string_leb_refl (s : string) : String.leb s s = true.
Proof. unfold String.leb. rewrite string_compare_refl. reflexivity. Qed.


End StringOrder.

Section NewestFirst.
Import PyStr Py Fs FsOps BackupManager.

Lemma insert_newest_perm (x : BackupEntry) (l : list BackupEntry) :
  insert_newest x l ≡ₚ x :: l.
Proof.
  induction l as [|y l IH]; [reflexivity|]. cbn [insert_newest].
  destruct (stamp_leb _ _); [reflexivity|].
  rewrite IH. apply Permutation_swap.
Qed.

Lemma sort_newest_perm (l : list BackupEntry) : sort_newest l ≡ₚ l.
Proof.
  induction l as [|x l IH]; [reflexivity|]. cbn [sort_newest].
  rewrite insert_newest_perm, IH. reflexivity.
Qed.






End NewestFirst.

Section Listing.
Import PyStr Py Fs FsOps BackupManager.
Context (listdir : FS -> key -> list string)
        (summary_loads : string -> option (stamp * nat))
        (sort_error : list BackupEntry -> string).

Lemma read_text_exists (p : path) (fs : FS) (text : string) :
  read_text p fs = (Ok text, fs) -> exists_ p fs = true.
Proof.
  unfold read_text, mbind, read_bytes, query, exists_.
  destruct (stat p fs) as [[data|]|e]; [reflexivity | discriminate | discriminate].
Qed.

Lemma list_one_cases (item : path) (backups : list BackupEntry) (fs : FS) :
  exists r,
    list_one summary_loads item backups fs = (Ok (backups ++ r), fs) /\
    (forall e, e ∈ r <-> lists summary_loads fs item e) /\
    (r = [] \/ exists e, r = [e]).
Proof.
  unfold list_one, mbind at 1, gets.
  assert (forall e : BackupEntry, e ∈ @nil BackupEntry <-> False) as Hnil
    by (intros e; split; [apply not_elem_of_nil | tauto]).
  destruct (is_dir item fs) eqn:D; cbn [negb].
  2:{ exists []. rewrite app_nil_r. split; [reflexivity|]. split; [|left; reflexivity].
      intros e. rewrite Hnil. split; [tauto|]. intros [H _]. congruence. }
  set (man := joinpath item (parse "manifest.json")).
  unfold mbind at 1. cbv beta.
  destruct (exists_ man fs) eqn:X; cbn [negb].
  2:{ exists []. rewrite app_nil_r. split; [reflexivity|]. split; [|left; reflexivity].
      intros e. rewrite Hnil. split; [tauto|]. intros (_ & (text & R & _) & _).
      apply read_text_exists in R. fold man in R. congruence. }
  unfold try_except, mbind. rewrite (read_text_readonly man fs).
  destruct (fst (read_text man fs)) as [text|err] eqn:R.
  2:{ exists []. rewrite app_nil_r. split; [reflexivity|]. split; [|left; reflexivity].
      intros e. rewrite Hnil. split; [tauto|]. intros (_ & (text & R' & _) & _).
      fold man in R'. rewrite R' in R. discriminate R. }
  destruct (summary_loads text) as [[ts n]|] eqn:S.
  - exists [mkBackupEntry (name_of item) ts n (str item)].
    split; [reflexivity|]. split; [|right; eauto].
    intros e. rewrite list_elem_of_singleton. split.
    + intros ->. split; [exact D|]. split; [|split; reflexivity].
      exists text. fold man. rewrite (read_text_readonly man fs), R. split; [reflexivity | exact S].
    + intros (_ & (text' & R' & S') & Hn & Hp). fold man in R'. rewrite R' in R.
      cbn [fst] in R. injection R as ->. rewrite S' in S. injection S as <- <-.
      destruct e; cbn in *; subst; reflexivity.
  - exists []. rewrite app_nil_r. split; [reflexivity|]. split; [|left; reflexivity].
    intros e. rewrite Hnil. split; [tauto|]. intros (_ & (text' & R' & S') & _).
    fold man in R'. rewrite R' in R. cbn [fst] in R. injection R as ->. congruence.
Qed.

Lemma list_loop_cases (items : list path) (backups : list BackupEntry) (fs : FS) :
  exists r,
    list_loop summary_loads items backups fs = (Ok (backups ++ r), fs) /\
    (forall e, e ∈ r <-> exists item, item ∈ items /\ lists summary_loads fs item e) /\
    map entry_name r `sublist_of` map name_of items.
Proof.
  revert backups. induction items as [|item items IH]; intros backups.
  - exists []. rewrite app_nil_r. split; [reflexivity|]. split; [|reflexivity].
    intros e. split; [intros H; apply not_elem_of_nil in H; tauto|].
    intros (item & H & _). apply not_elem_of_nil in H. tauto.
  - cbn [list_loop]. unfold mbind.
    destruct (list_one_cases item backups fs) as (r1 & -> & H1 & Hlen).
    destruct (IH (backups ++ r1)) as (r2 & -> & H2 & Hsub).
    exists (r1 ++ r2). rewrite app_assoc. split; [reflexivity|]. split.
    + intros e. rewrite elem_of_app, H1, H2. split.
      * intros [H|(it & Hit & H)]; [exists item; split; [left | exact H]|].
        exists it. split; [right; exact Hit | exact H].
      * intros (it & Hit & H). apply elem_of_cons in Hit as [->|Hit]; [left; exact H|].
        right. eauto.
    + cbn [map]. destruct Hlen as [->|[e ->]].
      * cbn [app]. apply sublist_cons. exact Hsub.
      * cbn [app map]. assert (entry_name e = name_of item) as ->.
        { destruct (proj1 (H1 e)) as (_ & _ & Hn & _); [left | exact Hn]. }
        apply sublist_skip. exact Hsub.
Qed.


Lemma name_of_child (p : path) (c : string) : name_of (joinpath p (Path false [c])) = c.
Proof. unfold name_of, joinpath. cbn [absolute parts]. apply last_last. Qed.

Lemma names_of_children (p : path) (names : list string) :
  map name_of (map (fun c => joinpath p (Path false [c])) names) = names.
Proof.
  induction names as [|c names IH]; [reflexivity|]. cbn [map].
  rewrite name_of_child, IH. reflexivity.
Qed.

(** What [list_backups] does over a backup directory that exists; [r] is
    the list before the sort. *)
Lemma list_backups_inv (mgr : manager) (fs : FS) (k : key) :
  resolve fs (backup_dir mgr) = Ok k -> node_at fs k = Some Dir ->
  exists r,
    list_backups listdir summary_loads sort_error mgr fs
    = (if sortable r then Ok (sort_newest r) else Raise (TypeError (sort_error r)), fs) /\
    (forall e, e ∈ r <->
       exists c, c ∈ listdir fs k /\
                 lists summary_loads fs (joinpath (backup_dir mgr) (Path false [c])) e) /\
    map entry_name r `sublist_of` listdir fs k.
Proof.
  intros R N. unfold list_backups, mbind at 1, iterdir, query. rewrite R. cbn [Py.bind].
  rewrite N. unfold mbind.
  destruct (list_loop_cases
              (map (fun c => joinpath (backup_dir mgr) (Path false [c])) (listdir fs k)) [] fs)
    as (r & -> & Hr & Hsub).
  exists r. cbn [app]. split; [destruct (sortable r); reflexivity|]. split.
  - intros e. rewrite Hr. split.
    + intros (item & Hit & H). apply list_elem_of_In, in_map_iff in Hit as (c & <- & Hc).
      exists c. split; [apply list_elem_of_In; exact Hc | exact H].
    + intros (c & Hc & H). eexists. split; [|exact H].
      apply list_elem_of_In.
      apply (in_map (fun c => joinpath (backup_dir mgr) (Path false [c]))).
      apply list_elem_of_In. exact Hc.
  - rewrite names_of_children in Hsub. exact Hsub.
Qed.


End Listing.

Section Pruning.
Import PyStr Py Fs FsOps BackupManager.
Context (listdir : FS -> key -> list string)
        (summary_loads : string -> option (stamp * nat))
        (sort_error : list BackupEntry -> string).

Lemma lookup_rmtree_gone (fs : FS) (k q : key) :
  k `prefix_of` q -> filter (fun entry : key * node => ~ k `prefix_of` entry.1) fs !! q = None.
Proof.
  intros Hq. apply map_lookup_filter_None. right. intros n _ Hn. apply Hn. exact Hq.
Qed.

Lemma lookup_rmtree_kept (fs : FS) (k q : key) :
  ~ k `prefix_of` q ->
  filter (fun entry : key * node => ~ k `prefix_of` entry.1) fs !! q = fs !! q.
Proof.
  intros Hq. destruct (fs !! q) as [n|] eqn:E.
  - apply map_lookup_filter_Some. split; [exact E | exact Hq].
  - apply map_lookup_filter_None. left. exact E.
Qed.

Lemma node_at_rmtree_kept (fs : FS) (k q : key) :
  ~ k `prefix_of` q ->
  node_at (filter (fun entry : key * node => ~ k `prefix_of` entry.1) fs) q = node_at fs q.
Proof.
  intros Hq. destruct q as [|c q]; [reflexivity|]. cbn [node_at].
  apply lookup_rmtree_kept. exact Hq.
Qed.

(** A clean path is resolved by the nodes of its proper ancestors alone. *)
Lemma walk_agree (fs fs' : FS) (cur : key) (comps : list string) :
  clean comps ->
  (forall q, q `prefix_of` comps -> q <> comps ->
             node_at fs' (cur ++ q) = node_at fs (cur ++ q)) ->
  walk fs' cur comps = walk fs cur comps.
Proof.
  intros Hc. revert cur. induction Hc as [|c rest Hne Hc IH]; intros cur H; [reflexivity|].
  cbn [walk]. pose proof (H [] (prefix_nil _)) as H0. rewrite app_nil_r in H0.
  rewrite H0 by discriminate.
  destruct (node_at fs cur) as [[d|]|]; try reflexivity.
  apply String.eqb_neq in Hne. rewrite Hne. apply IH. intros q Hq Hn.
  rewrite <- !app_assoc. cbn [app]. apply H; [apply prefix_cons; exact Hq | congruence].
Qed.

Lemma rmtree_dir (p : path) (fs : FS) (k : key) :
  resolve fs p = Ok k -> node_at fs k = Some Dir ->
  rmtree p fs = (Ok tt, filter (fun entry : key * node => ~ k `prefix_of` entry.1) fs).
Proof. intros R N. unfold rmtree. rewrite R, N. reflexivity. Qed.

Lemma sibling_not_prefix (kb q : key) (c : string) :
  q `prefix_of` kb -> ~ kb ++ [c] `prefix_of` q.
Proof.
  intros H1 H2. apply prefix_length in H1, H2. rewrite length_app in H2. cbn in H2. lia.
Qed.

Lemma siblings_apart (kb : key) (c c' : string) :
  c <> c' -> ~ kb ++ [c] `prefix_of` kb ++ [c'].
Proof.
  intros Hne H. apply prefix_app_same in H. apply prefix_cons_inv_1 in H. congruence.
Qed.

Lemma cleanup_loop_removes (mgr : manager) (old : list BackupEntry) :
  clean (parts (backup_dir mgr)) ->
  Forall (fun c => component c = true) (parts (backup_dir mgr)) ->
  NoDup (map entry_name old) ->
  forall fs,
    is_dir (backup_dir mgr) fs = true ->
    Forall (is_snapshot mgr fs) old ->
    exists fs',
      cleanup_loop old fs = (Ok tt, fs') /\
      (forall e q, e ∈ old -> snapshot_key mgr (entry_name e) `prefix_of` q ->
                   fs' !! q = None) /\
      (forall q, (forall e, e ∈ old -> ~ snapshot_key mgr (entry_name e) `prefix_of` q) ->
                 fs' !! q = fs !! q).
Proof.
  intros Hc Hcomp. induction old as [|e old IH]; intros Hnd fs D Hall.
  - exists fs. split; [reflexivity|]. split; [|reflexivity].
    intros e q H. apply not_elem_of_nil in H. tauto.
  - cbn [map] in Hnd. apply NoDup_cons in Hnd as [Hfresh Hnd].
    apply Forall_cons in Hall as [(He1 & He2 & He3 & He4) Hall].
    set (k := snapshot_key mgr (entry_name e)) in *.
    set (fs1 := filter (fun entry : key * node => ~ k `prefix_of` entry.1) fs).
    assert (cleanup_loop (e :: old) fs = cleanup_loop old fs1) as ->.
    { cbn [cleanup_loop]. unfold mbind, try_except. rewrite He3.
      rewrite parse_str.
      2:{ cbn [parts]. unfold k, snapshot_key. apply Forall_app. split; [exact Hcomp|].
          constructor; [exact He1 | constructor]. }
      rewrite (rmtree_dir _ fs k); [reflexivity | | exact He4].
      exact (resolve_child fs (backup_dir mgr) (entry_name e) Hc D He2). }
    destruct (resolve_clean_dir fs (backup_dir mgr) Hc D) as [R Hdirs].
    assert (is_dir (backup_dir mgr) fs1 = true) as D1.
    { apply (is_dir_intro _ _ (parts (backup_dir mgr))).
      - unfold resolve. rewrite <- R. unfold resolve. apply walk_agree; [exact Hc|].
        intros q Hq _. cbn [app]. apply node_at_rmtree_kept, sibling_not_prefix. exact Hq.
      - unfold fs1. rewrite node_at_rmtree_kept by (apply sibling_not_prefix; reflexivity).
        apply Hdirs. reflexivity. }
    assert (Forall (is_snapshot mgr fs1) old) as Hall1.
    { apply Forall_forall. intros e' He'. rewrite Forall_forall in Hall.
      destruct (Hall e' He') as (H1 & H2 & H3 & H4).
      split; [exact H1|]. split; [exact H2|]. split; [exact H3|].
      unfold fs1. rewrite node_at_rmtree_kept; [exact H4|].
      apply siblings_apart. intros E. apply Hfresh. rewrite E.
      apply list_elem_of_In, in_map, list_elem_of_In. exact He'. }
    destruct (IH Hnd fs1 D1 Hall1) as (fs' & -> & Hgone & Hkept).
    exists fs'. split; [reflexivity|]. split.
    + intros e' q He' Hq. apply elem_of_cons in He' as [->|He']; [|eapply Hgone; eassumption].
      destruct (decide (Exists (fun x => snapshot_key mgr (entry_name x) `prefix_of` q) old))
        as [Hex|Hno].
      * apply Exists_exists in Hex as (x & Hx & Hxq). eapply Hgone; eassumption.
      * rewrite Hkept.
        -- apply lookup_rmtree_gone. exact Hq.
        -- intros x Hx Hxq. apply Hno, Exists_exists. eauto.
    + intros q Hq. rewrite Hkept by (intros x Hx; apply Hq; right; exact Hx).
      apply lookup_rmtree_kept. apply Hq. left.
Qed.

Lemma list_backups_ok_inv (mgr : manager) (fs fs' : FS) (l : list BackupEntry) :
  list_backups listdir summary_loads sort_error mgr fs = (Ok l, fs') ->
  is_dir (backup_dir mgr) fs = true.
Proof.
  unfold list_backups, mbind at 1, iterdir, query.
  destruct (resolve fs (backup_dir mgr)) as [k|err] eqn:R; [|discriminate].
  cbn [Py.bind]. destruct (node_at fs k) as [[d|]|] eqn:N; try discriminate.
  intros _. exact (is_dir_intro _ _ k R N).
Qed.

Lemma snapshots_apart (kb q : key) (c c' : string) :
  kb ++ [c] `prefix_of` q -> kb ++ [c'] `prefix_of` q -> c = c'.
Proof.
  intros [x ->] [y H]. rewrite <- !app_assoc in H. apply app_inv_head in H.
  cbn [app] in H. congruence.
Qed.

Lemma lookup_map {A B : Type} (f : A -> B) (l : list A) (i : nat) (x : A) :
  l !! i = Some x -> map f l !! i = Some (f x).
Proof.
  revert i. induction l as [|y l IH]; intros [|i]; cbn; try discriminate.
  - intros [= ->]. reflexivity.
  - apply IH.
Qed.

Lemma slice_from_drop {A : Type} (k : Z) (l : list A) : exists n, slice_from k l = drop n l.
Proof. unfold slice_from. destruct (0 <=? k)%Z; eauto. Qed.

(** X30.  [cleanup_old_backups] removes the snapshots of the entries
    [backups[keep_count:]] of the listing, with all that lies below them,
    and nothing else: every other key of the tree keeps its node, and so
    does all that lies below the first [keep_count] snapshots of the
    listing.  The names the system lists are distinct plain names. *)
Theorem cleanup_old_backups_removes_all_but_the_newest
    (mgr : manager) (keep_count : Z) (fs : FS) (l : list BackupEntry) :
  clean (parts (backup_dir mgr)) ->
  Forall (fun c => component c = true) (parts (backup_dir mgr)) ->
  NoDup (listdir fs (parts (backup_dir mgr))) ->
  Forall (fun c => component c = true /\ c <> "..") (listdir fs (parts (backup_dir mgr))) ->
  list_backups listdir summary_loads sort_error mgr fs = (Ok l, fs) ->
  exists fs',
    cleanup_old_backups listdir summary_loads sort_error mgr keep_count fs = (Ok tt, fs') /\
    (forall e q, e ∈ slice_from keep_count l ->
                 snapshot_key mgr (entry_name e) `prefix_of` q -> fs' !! q = None) /\
    (forall q, (forall e, e ∈ slice_from keep_count l ->
                          ~ snapshot_key mgr (entry_name e) `prefix_of` q) ->
               fs' !! q = fs !! q) /\
    (forall i e q, l !! i = Some e -> (Z.of_nat i < keep_count)%Z ->
                   snapshot_key mgr (entry_name e) `prefix_of` q -> fs' !! q = fs !! q).
Proof.
  intros Hc Hcomp Hnd Hnames L.
  pose proof (list_backups_ok_inv mgr fs fs l L) as D.
  destruct (resolve_clean_dir fs (backup_dir mgr) Hc D) as [R Hdirs].
  destruct (list_backups_inv listdir summary_loads sort_error mgr fs _ R (Hdirs _ (reflexivity _)))
    as (r & L' & Hr & Hsub).
  rewrite L in L'. destruct (sortable r); [|discriminate L']. injection L' as ->.
  assert (NoDup (map entry_name (sort_newest r))) as Hnd'.
  { rewrite (Permutation_map entry_name (sort_newest_perm r)).
    eapply sublist_NoDup; eassumption. }
  assert (Forall (is_snapshot mgr fs) (sort_newest r)) as Hall.
  { apply Forall_forall. intros e He. rewrite (sort_newest_perm r) in He.
    apply Hr in He as (c & Hcin & Hd & _ & Hn & Hp).
    rewrite name_of_child in Hn. rewrite Forall_forall in Hnames.
    destruct (Hnames c Hcin) as [Hcc Hcd]. unfold is_snapshot. rewrite Hn.
    split; [exact Hcc|]. split; [exact Hcd|]. split; [exact Hp|].
    apply is_dir_inv in Hd as (k & Rk & Nk).
    change (joinpath (backup_dir mgr) (Path false [c]))
      with (Path (absolute (backup_dir mgr)) (parts (backup_dir mgr) ++ [c])) in Rk.
    rewrite (resolve_child fs (backup_dir mgr) c Hc D Hcd) in Rk. injection Rk as <-.
    exact Nk. }
  destruct (slice_from_drop keep_count (sort_newest r)) as [n Hn].
  assert (NoDup (map entry_name (slice_from keep_count (sort_newest r)))) as Hnd2.
  { rewrite Hn. rewrite <- skipn_map. exact (sublist_NoDup _ _ Hnd' (sublist_drop _ _)). }
  assert (Forall (is_snapshot mgr fs) (slice_from keep_count (sort_newest r))) as Hall2.
  { rewrite Hn. apply Forall_drop. exact Hall. }
  destruct (cleanup_loop_removes mgr _ Hc Hcomp Hnd2 fs D Hall2) as (fs' & C & Hgone & Hkept).
  exists fs'. split.
  { unfold cleanup_old_backups, mbind. rewrite L. exact C. }
  split; [exact Hgone|]. split; [exact Hkept|].
  intros i e q Hi Hlt Hq. apply Hkept. intros e' He' Hq'.
  pose proof (snapshots_apart _ _ _ _ Hq Hq') as E.
  unfold slice_from in He'.
  assert ((0 <=? keep_count)%Z = true) as Hpos by (apply Z.leb_le; lia).
  rewrite Hpos in He'.
  apply list_elem_of_lookup in He' as [j Hj]. rewrite lookup_drop in Hj.
  assert (i <> Z.to_nat keep_count + j) as Hij by lia.
  apply Hij. apply (NoDup_lookup _ _ _ (entry_name e) Hnd').
  - apply lookup_map. exact Hi.
  - rewrite E. apply lookup_map. exact Hj.
Qed.

End Pruning.

Section RosterExamples.
Import PyStr Py Agents ParallelDispatcher CrossEvaluator ExamplesAgents.

(** Two names in another letter case and in another order than the
    roster; the second agent raises and completes first. *)
Lemma dispatch_to_agents_witness :
  dispatch_to_agents repr_plain [claude; broken] [1; 0] "sort a list"
    ["GEMINI"; "claude"] None
  = Some (Ok (map (fun agent => wrap agent (query agent "sort a list" None))
                (selected_agents [claude; broken] ["GEMINI"; "claude"]))) /\
  selected_agents [claude; broken] ["GEMINI"; "claude"] `sublist_of` [claude; broken] /\
  (forall agent, agent ∈ selected_agents [claude; broken] ["GEMINI"; "claude"] <->
     agent ∈ [claude; broken] /\
     exists n, n ∈ ["GEMINI"; "claude"] /\ answers_to n agent).
Proof.
  apply (dispatch_to_agents_one_response_per_selected_agent repr_plain
           [claude; broken] [1; 0] "sort a list" ["GEMINI"; "claude"] None).
  - vm_compute. discriminate.
  - vm_compute. apply Permutation_swap.
Defined.

Example dispatch_to_agents_two_names :
  dispatch_to_agents repr_plain [claude; broken] [1; 0] "sort a list"
    ["GEMINI"; "claude"] None
  = Some (Ok [ mkAgentResponse "Claude" "ClaudeAgent" "echo: sort a list"
                 None (Some "echo: sort a list") None
                 [("model", MStr "claude-3-sonnet-20240229")] (Some 7%Z) (Some 12%Z);
               mkAgentResponse "Gemini" "GeminiAgent" "Error: boom"
                 None None None [("error", MBool true)] None None ]).
Proof. vm_compute. reflexivity. Qed.

Lemma dispatch_to_agents_no_match_witness :
  dispatch_to_agents repr_plain [claude; broken] [1; 0] "sort a list" ["gpt-4"] None
  = Some (Raise (ValueError
            ("No agents found matching " +:+ repr_plain ["gpt-4"] +:+ ". "
             +:+ "Available agents: "
             +:+ join ", " (get_available_agents [claude; broken])))).
Proof.
  apply (dispatch_to_agents_without_a_match repr_plain [claude; broken] [1; 0]
           "sort a list" ["gpt-4"] None).
  intros agent n Ha Hn Hans.
  apply list_elem_of_singleton in Hn. subst n.
  apply elem_of_cons in Ha as [->|Ha].
  - vm_compute in Hans. discriminate Hans.
  - apply list_elem_of_singleton in Ha. subst agent. vm_compute in Hans. discriminate Hans.
Defined.

Example dispatch_to_agents_message :
  dispatch_to_agents repr_plain [claude; broken] [1; 0] "sort a list" ["gpt-4"] None
  = Some (Raise (ValueError
            "No agents found matching ['gpt-4']. Available agents: Claude, Gemini")).
Proof. vm_compute. reflexivity. Qed.

Lemma add_then_remove_witness :
  remove_agent (add_agent [claude] broken) (name broken) = (true, [claude]) /\
  get_available_agents (add_agent [claude] broken)
  = get_available_agents [claude] ++ [name broken].
Proof.
  apply (add_agent_then_remove_agent [claude] broken).
  constructor; [|constructor]. intros H. vm_compute in H. discriminate H.
Defined.

(** Of two agents of one name only the first is removed. *)
Example remove_agent_once :
  map name (snd (remove_agent [claude; broken; claude] "CLAUDE")) = ["Gemini"; "Claude"].
Proof. vm_compute. reflexivity. Qed.

Lemma best_solution_witness :
  exists best,
    get_best_solution (evaluate_responses [claude; gpt] "sort a list"
                         [answer "Alice"; answer "Bob"]) = Ok best /\
    evaluate_responses [claude; gpt] "sort a list" [answer "Alice"; answer "Bob"] !! 0
    = Some best /\
    rank best = 1.
Proof.
  apply (best_solution_of_a_ranking_has_rank_one [claude; gpt] "sort a list"
           [answer "Alice"; answer "Bob"]).
  discriminate.
Defined.

Lemma averages_witness :
  Forall (fun result => (0 <= average_score result /\ average_score result <= 100)%Q)
    (evaluate_responses [claude; gpt] "sort a list" [answer "Alice"; answer "Bob"]).
Proof.
  apply (averages_stay_between_0_and_100 [claude; gpt] "sort a list"
           [answer "Alice"; answer "Bob"]).
  intros a p r o s Ha Hs.
  assert (exists client prompt, evaluate a = api_evaluate client prompt) as (client & prompt & E).
  { apply elem_of_cons in Ha as [->|Ha]; [eexists _, _; reflexivity|].
    apply list_elem_of_singleton in Ha. subst a. eexists _, _; reflexivity. }
  rewrite E in Hs.
  destruct (api_evaluate_in_range client prompt p r o) as (s' & Hs' & Hrange).
  congruence.
Defined.

Lemma row_keys_witness :
  exists row,
    _create_evaluation_matrix [claude; broken] "sort a list"
      [answer "Claude"; answer "Bob"] !! 0 = Some row /\
    (forall k, is_Some (dict_get row k) <->
       exists agent, agent ∈ [claude; broken] /\ name agent = k /\
                     lower (name agent) <> lower (agent_name (answer "Claude"))) /\
    ((forall agent, agent ∈ [claude; broken] ->
        lower (name agent) = lower (agent_name (answer "Claude"))) ->
     row = [] /\ average row == 75 # 1).
Proof.
  apply (row_keys_are_the_other_agents [claude; broken] "sort a list"
           [answer "Claude"; answer "Bob"] 0 (answer "Claude")).
  reflexivity.
Defined.

(** The roster holds the author alone: no score, and the default average. *)
Example lone_author_gets_the_default :
  map (fun r => (scores r, average_score r))
    (evaluate_responses [claude] "sort a list" [answer "Claude"; answer "claude"])
  = [([], 75 # 1); ([], 75 # 1)].
Proof. vm_compute. reflexivity. Qed.

Lemma mark_out_of_100_witness :
  api_evaluate fraction_client plain_prompt "sort a list" (answer "Bob") [] = Ok (100 # 1).
Proof.
  apply (a_mark_out_of_100_scores_100 fraction_client plain_prompt "sort a list"
           (answer "Bob") [] (mkReply (" 85/100" +:+ nl_str) 5) "85").
  - reflexivity.
  - vm_compute. reflexivity.
  - reflexivity.
Defined.

Lemma dispatch_to_every_name_witness :
  dispatch_to_agents repr_plain [claude; broken] [1; 0] "sort a list"
    (get_available_agents [claude; broken]) None
  = dispatch_all [claude; broken] [1; 0] "sort a list" None.
Proof.
  apply (dispatch_to_every_name_is_dispatch_all repr_plain [claude; broken] [1; 0]
           "sort a list" None).
  discriminate.
Defined.

Lemma no_number_witness :
  api_evaluate shy_client plain_prompt "sort a list" (answer "Bob") [] = Ok (50 # 1).
Proof.
  apply (an_answer_without_a_number_scores_50 shy_client plain_prompt "sort a list"
           (answer "Bob") [] (mkReply "n/a" 2)).
  - reflexivity.
  - vm_compute. reflexivity.
Defined.

End RosterExamples.

Section ParserExamples.
Import PyStr Re Py CodeParser ExamplesParser.

(** A fence that holds nothing. *)
Example parse_response_of_an_empty_block :
  parse_response (fence +:+ nl_str +:+ fence) = Raise (ValueError "empty separator").
Proof. vm_compute. reflexivity. Qed.

Lemma well_formed_operations_witness :
  Forall (fun op =>
            file_path op <> EmptyString /\
            (op_type op = CREATE \/ op_type op = MODIFY \/ op_type op = DELETE) /\
            (exists code, content op = Some code /\ code <> EmptyString) /\
            language op <> Some "text" /\
            line_start op = None /\ line_end op = None)
    [ mkFileOperation CREATE "foo.py" (Some "def f(): pass") None None (Some "python") ].
Proof.
  apply (parse_response_operations_are_well_formed scenario_A).
  vm_compute. reflexivity.
Defined.

Lemma fenced_content_witness :
  Forall (fun op => exists code, content op = Some code /\ strip code = code)
    [ mkFileOperation CREATE "foo.py" (Some "def f(): pass") None None (Some "python") ].
Proof.
  apply (fenced_content_has_no_outer_white_space scenario_A).
  - vm_compute. discriminate.
  - vm_compute. reflexivity.
Defined.

End ParserExamples.

Section ApplyExamples.
Import PyStr Py Fs FsOps CodeParser DiffGenerator ExamplesFs.

Lemma absolute_paths_witness :
  apply_changes proj [create_absolute] false empty_tree
  = apply_changes elsewhere [create_absolute] false empty_tree.
Proof.
  apply (absolute_paths_ignore_the_working_directory proj elsewhere
           [create_absolute] false empty_tree).
  constructor; [reflexivity | constructor].
Defined.

(** The file is made under the root, not under the project. *)
Example absolute_path_leaves_the_project :
  snd (apply_changes proj [create_absolute] false empty_tree) !! ["srv"; "new.py"]
  = Some (File "x = 1").
Proof. vm_compute. reflexivity. Qed.

Lemma keeps_every_directory_witness :
  is_dir proj (snd (apply_changes proj [create_under_file; delete_nested] false
                      empty_tree)) = true.
Proof.
  apply (apply_changes_keeps_every_directory proj [create_under_file; delete_nested]
           false empty_tree _
           (fst (apply_changes proj [create_under_file; delete_nested] false empty_tree))).
  - apply surjective_pairing.
  - reflexivity.
Defined.

Lemma generated_diff_witness :
  exists diff fs',
    generate_diffs headers_only proj [dos_module] empty_tree = (Ok [diff], empty_tree) /\
    apply_changes proj [diff] false empty_tree
    = (mkResults [CodeParser.file_path dos_module] [] [], fs') /\
    read_bytes (joinpath proj (parse (CodeParser.file_path dos_module))) fs'
    = (Ok (content_or_empty (content dos_module)), fs') /\
    read_text (joinpath proj (parse (CodeParser.file_path dos_module))) fs'
    = (Ok (universal_newlines (content_or_empty (content dos_module))), fs').
Proof.
  apply (a_generated_diff_applied_reads_back headers_only proj dos_module empty_tree).
  - discriminate.
  - apply free_way_intro.
    + vm_compute. repeat constructor; discriminate.
    + intros n Hn data. vm_compute in Hn.
      destruct n as [|[|[|[|n]]]]; [vm_compute; discriminate..|lia].
  - vm_compute. discriminate.
Defined.

(** What was written with CR LF is read with LF. *)
Example dos_module_read_back :
  exists diffs,
    fst (generate_diffs headers_only proj [dos_module] empty_tree) = Ok diffs /\
    fst (read_text (joinpath proj (parse "src/app/new.py"))
           (snd (apply_changes proj diffs false empty_tree)))
    = Ok ("x = 1" +:+ nl_str +:+ "y = 2" +:+ nl_str).
Proof. eexists. split; [vm_compute; reflexivity|]. vm_compute. reflexivity. Qed.

Example generate_diffs_of_a_new_module :
  fst (generate_diffs headers_only proj [new_module] empty_tree)
  = Ok [ mkFileDiff CREATE "src/app/new.py" None (Some "x = 1")
           ("+++ src/app/new.py (new file)" +:+ nl_str +:+ "+x = 1")
           (mkStats 0 1 1 0 5 0) ].
Proof. vm_compute. reflexivity. Qed.

Lemma create_preview_witness :
  _create_unified_diff headers_only "a.patch" None (Some "+x = 1") CREATE
  = _create_unified_diff headers_only "a.patch" None (Some "x = 1") CREATE.
Proof.
  apply (create_preview_hides_a_leading_plus headers_only "a.patch" None None "x" " = 1").
  discriminate.
Defined.

Lemma delete_existing_witness :
  exists fs1,
    apply_changes proj [delete_notes] false (tree_with_notes "orig")
    = (mkResults [file_path delete_notes] [] [],
       delete (parts (target proj delete_notes)) fs1) /\
    grows (tree_with_notes "orig") fs1 /\
    exists_ (target proj delete_notes) (delete (parts (target proj delete_notes)) fs1) = false /\
    (forall q, q <> parts (target proj delete_notes) ->
       ~ q `prefix_of` removelast (parts (target proj delete_notes)) ->
       delete (parts (target proj delete_notes)) fs1 !! q = tree_with_notes "orig" !! q).
Proof.
  apply (delete_of_an_existing_file proj delete_notes (tree_with_notes "orig") "orig").
  - reflexivity.
  - apply free_way_intro.
    + vm_compute. repeat constructor; discriminate.
    + intros n Hn data. vm_compute in Hn.
      destruct n as [|[|n]]; [vm_compute; discriminate..|lia].
  - vm_compute. reflexivity.
Defined.

End ApplyExamples.

Section BackupExamples.
Import PyStr Py Fs FsOps BackupManager ExamplesFs.

Lemma create_backup_removes_nothing_witness :
  exists data,
    snd (create_backup ref_dumps mgr now ["notes.txt"] (tree_with_notes "orig"))
      !! ["proj"; "notes.txt"]
    = Some (File data).
Proof.
  exact (create_backup_removes_nothing ref_dumps mgr now ["notes.txt"]
           (tree_with_notes "orig") _
           (fst (create_backup ref_dumps mgr now ["notes.txt"] (tree_with_notes "orig")))
           (surjective_pairing _) ["proj"; "notes.txt"]).
Defined.

(** The tree after a backup of [notes.txt] and the making of a new file. *)
Lemma restore_backup_removes_nothing_witness :
  exists data,
    snd (restore_backup ref_loads mgr "backup_20240101_120000" None later_tree)
      !! ["proj"; "later.txt"]
    = Some (File data).
Proof.
  exact (restore_backup_removes_nothing ref_loads mgr "backup_20240101_120000" None
           later_tree _
           (fst (restore_backup ref_loads mgr "backup_20240101_120000" None later_tree))
           (surjective_pairing _) ["proj"; "later.txt"]).
Defined.

Example restore_keeps_a_later_file :
  fst (restore_backup ref_loads mgr "backup_20240101_120000" None later_tree)
  = Ok (mkRestored ["notes.txt"] []) /\
  snd (restore_backup ref_loads mgr "backup_20240101_120000" None later_tree)
    !! ["proj"; "later.txt"]
  = Some (File "new").
Proof. split; vm_compute; reflexivity. Qed.

Lemma create_backup_name_witness :
  exists m,
    read_manifest ref_loads mgr "/proj/.multi-agent-coder-backups/backup_20240101_120000"
      (snd (create_backup ref_dumps mgr now ["notes.txt"; "gone.txt"] (tree_with_notes "orig")))
    = (Ok m, snd (create_backup ref_dumps mgr now ["notes.txt"; "gone.txt"]
                    (tree_with_notes "orig"))) /\
    timestamp m = now /\
    backup_path m = "/proj/.multi-agent-coder-backups/backup_20240101_120000" /\
    map original_path (files m) `sublist_of` ["notes.txt"; "gone.txt"].
Proof.
  apply (create_backup_returns_a_name_that_restore_accepts ref_dumps ref_loads
           ref_file_law mgr now ["notes.txt"; "gone.txt"] (tree_with_notes "orig")).
  - reflexivity.
  - vm_compute. repeat constructor.
  - rewrite (surjective_pairing (create_backup ref_dumps mgr now ["notes.txt"; "gone.txt"]
                                   (tree_with_notes "orig"))) at 1.
    f_equal; vm_compute; reflexivity.
Defined.

(** A path that does not exist is left out of the manifest without a
    word. *)
Example create_backup_skips_a_missing_file :
  fst (read_manifest ref_loads mgr "backup_20240101_120000"
         (snd (create_backup ref_dumps mgr now ["notes.txt"; "gone.txt"]
                 (tree_with_notes "orig"))))
  = Ok (manifest_of "notes.txt" 4).
Proof. vm_compute. reflexivity. Qed.

Lemma fresh_snapshot (data : string) (q : key) :
  parts backups ++ ["backup_" +:+ now] `prefix_of` q -> tree_with_notes data !! q = None.
Proof.
  intros Hq. apply prefix_length in Hq. cbn in Hq.
  unfold tree_with_notes.
  rewrite !lookup_insert_ne.
  - apply lookup_singleton_ne. intros E. subst q. simpl in Hq. lia.
  - intros E. subst q. simpl in Hq. lia.
  - intros E. subst q. simpl in Hq. lia.
Qed.

Lemma backup_round_trip_witness :
  exists id fs1,
    create_backup ref_dumps mgr now ["notes.txt"] (tree_with_notes "orig") = (Ok id, fs1) /\
    forall fs2,
      keeps_dirs fs1 fs2 ->
      (forall q, parts backups ++ ["backup_" +:+ now] `prefix_of` q -> fs2 !! q = fs1 !! q) ->
      node_at fs2 (parts proj ++ parts (parse "notes.txt")) <> Some Dir ->
      exists fs3,
        restore_backup ref_loads mgr id None fs2 = (Ok (mkRestored ["notes.txt"] []), fs3) /\
        read_bytes (joinpath proj (parse "notes.txt")) fs3 = (Ok "orig", fs3).
Proof.
  apply (backup_then_restore_brings_the_file_back ref_dumps ref_loads ref_file_law
           mgr now "notes.txt" "orig" (tree_with_notes "orig")).
  - reflexivity.
  - vm_compute. repeat constructor.
  - vm_compute. repeat constructor; discriminate.
  - vm_compute. repeat constructor; discriminate.
  - reflexivity.
  - reflexivity.
  - vm_compute. discriminate.
  - vm_compute. repeat constructor; discriminate.
  - intros [r Hr]. vm_compute in Hr. discriminate Hr.
  - vm_compute. reflexivity.
  - apply (read_bytes_file _ _ ["proj"; "notes.txt"]); vm_compute; reflexivity.
  - apply fresh_snapshot.
Defined.


Lemma absolute_path_witness :
  exists id fs' m,
    create_backup ref_dumps mgr now ["/proj/notes.txt"] (tree_with_notes "orig") = (Ok id, fs') /\
    read_manifest ref_loads mgr id fs' = (Ok m, fs') /\
    files m = [] /\
    restore_backup ref_loads mgr id None fs' = (Ok (mkRestored [] []), fs').
Proof.
  apply (a_file_named_by_its_absolute_path_is_not_backed_up ref_dumps ref_loads
           ref_file_law mgr now "/proj/notes.txt" "orig" (tree_with_notes "orig")).
  - reflexivity.
  - vm_compute. repeat constructor.
  - vm_compute. repeat constructor; discriminate.
  - reflexivity.
  - vm_compute. reflexivity.
  - apply fresh_snapshot.
  - reflexivity.
  - vm_compute. repeat constructor; discriminate.
  - apply (read_bytes_file _ _ ["proj"; "notes.txt"]); vm_compute; reflexivity.
Defined.

End BackupExamples.

Section RestoreExamples.
Import PyStr Py Fs FsOps BackupManager ExamplesFs.

Example restore_of_one_of_two :
  fst (restore_backup ref_loads mgr "backup_20240101_120000" (Some ["notes.txt"]) edited_tree)
  = Ok (mkRestored ["notes.txt"] []) /\
  snd (restore_backup ref_loads mgr "backup_20240101_120000" (Some ["notes.txt"]) edited_tree)
    !! ["proj"; "notes.txt"] = Some (File "orig") /\
  snd (restore_backup ref_loads mgr "backup_20240101_120000" (Some ["notes.txt"]) edited_tree)
    !! ["proj"; "todo.txt"] = Some (File "second").
Proof. repeat split; vm_compute; reflexivity. Qed.

(** The empty list is no filter: both files come back. *)
Example restore_with_the_empty_list :
  fst (restore_backup ref_loads mgr "backup_20240101_120000" (Some []) edited_tree)
  = Ok (mkRestored ["notes.txt"; "todo.txt"] []) /\
  snd (restore_backup ref_loads mgr "backup_20240101_120000" (Some []) edited_tree)
    !! ["proj"; "notes.txt"] = Some (File "orig") /\
  snd (restore_backup ref_loads mgr "backup_20240101_120000" (Some []) edited_tree)
    !! ["proj"; "todo.txt"] = Some (File "first").
Proof. repeat split; vm_compute; reflexivity. Qed.

Lemma restore_selected_witness :
  exists fs',
    restore_backup ref_loads mgr "backup_20240101_120000" (Some ["notes.txt"]) edited_tree
    = (Ok (mkRestored
             (map original_path (selected (Some ["notes.txt"]) (files manifest_of_two))) []),
       fs') /\
    (forall fi, fi ∈ selected (Some ["notes.txt"]) (files manifest_of_two) ->
       exists data,
         read_bytes (source_path (joinpath (backup_dir mgr) (parse "backup_20240101_120000")) fi)
           edited_tree = (Ok data, edited_tree) /\
         read_bytes (target_path mgr fi) fs' = (Ok data, fs')) /\
    (forall q,
       (forall fi, fi ∈ selected (Some ["notes.txt"]) (files manifest_of_two) ->
                   ~ q `prefix_of` parts (target_path mgr fi)) ->
       fs' !! q = edited_tree !! q).
Proof.
  apply (proj2 (proj2 (proj2 (restore_backup_subset_filter ref_loads mgr
                                 "backup_20240101_120000" edited_tree)))
           (Some ["notes.txt"]) manifest_of_two).
  - rewrite (surjective_pairing (read_manifest ref_loads mgr "backup_20240101_120000"
                                   edited_tree)).
    f_equal; vm_compute; reflexivity.
  - constructor; [|constructor]. split; [|split; [|split]].
    + vm_compute. repeat constructor; discriminate.
    + exists "orig". apply read_bytes_file with
        (k := ["proj"; ".multi-agent-coder-backups"; "backup_20240101_120000"; "notes.txt"]);
        vm_compute; reflexivity.
    + apply free_way_intro.
      * vm_compute. repeat constructor; discriminate.
      * intros n Hn data. vm_compute in Hn.
        destruct n as [|[|n]]; [vm_compute; discriminate..|lia].
    + vm_compute. discriminate.
  - constructor; constructor.
  - intros a b Ha Hb.
    apply list_elem_of_singleton in Ha, Hb. subst a b. vm_compute. discriminate.
Defined.

End RestoreExamples.

Section PruningExamples.
Import PyStr Py Fs FsOps BackupManager ExamplesFs.

Example list_backups_of_two_snapshots :
  fst (list_backups children ref_summary none_error mgr two_snapshots)
  = Ok [newer_entry; older_entry].
Proof. vm_compute. reflexivity. Qed.


Example get_latest_backup_of_two_snapshots :
  fst (get_latest_backup children ref_summary none_error mgr two_snapshots)
  = Ok (Some "backup_20240102_090000").
Proof. vm_compute. reflexivity. Qed.

(** Two manifests without a time stamp: the sort raises. *)
Example list_backups_without_time_stamps :
  fst (list_backups children bare_summary none_error mgr bare_snapshots)
  = Raise (TypeError "'<' not supported between instances of 'NoneType' and 'NoneType'") /\
  fst (get_latest_backup children bare_summary none_error mgr bare_snapshots)
  = Raise (TypeError "'<' not supported between instances of 'NoneType' and 'NoneType'").
Proof. split; vm_compute; reflexivity. Qed.

(** One such manifest alone is listed. *)
Example list_backups_of_one_bare_snapshot :
  fst (list_backups children bare_summary none_error mgr
         (delete ["proj"; ".multi-agent-coder-backups"; "backup_b"] bare_snapshots))
  = Ok [mkBackupEntry "backup_a" Unordered 0 "/proj/.multi-agent-coder-backups/backup_a"].
Proof. vm_compute. reflexivity. Qed.

Lemma cleanup_witness :
  exists fs',
    cleanup_old_backups children ref_summary none_error mgr 1 two_snapshots = (Ok tt, fs') /\
    (forall e q, e ∈ slice_from 1 [newer_entry; older_entry] ->
                 snapshot_key mgr (entry_name e) `prefix_of` q -> fs' !! q = None) /\
    (forall q, (forall e, e ∈ slice_from 1 [newer_entry; older_entry] ->
                          ~ snapshot_key mgr (entry_name e) `prefix_of` q) ->
               fs' !! q = two_snapshots !! q) /\
    (forall i e q, [newer_entry; older_entry] !! i = Some e -> (Z.of_nat i < 1)%Z ->
                   snapshot_key mgr (entry_name e) `prefix_of` q ->
                   fs' !! q = two_snapshots !! q).
Proof.
  apply (cleanup_old_backups_removes_all_but_the_newest children ref_summary none_error mgr 1
           two_snapshots [newer_entry; older_entry]).
  - vm_compute. repeat constructor; discriminate.
  - vm_compute. repeat constructor.
  - vm_compute. repeat constructor; intros H; repeat (apply elem_of_cons in H as [H|H]; [discriminate H|]); apply not_elem_of_nil in H; exact H.
  - vm_compute. repeat constructor; discriminate.
  - rewrite (surjective_pairing
               (list_backups children ref_summary none_error mgr two_snapshots)).
    f_equal; vm_compute; reflexivity.
Defined.

Example cleanup_then_list :
  fst (list_backups children ref_summary none_error mgr
         (snd (cleanup_old_backups children ref_summary none_error mgr 1 two_snapshots)))
  = Ok [newer_entry].
Proof. vm_compute. reflexivity. Qed.

End PruningExamples.
